(** * Prompt calibration and batch propagation: a shallow embedding

    The development follows [batch_segment.py] and [single_segment.py]:
    the click-collecting session ([mouse_callback], the [while True] loop of
    [interactive_setup] and of [process_single_image]), the conversion of the
    clicks to relative coordinates and back, the file filter and the batch
    loop of [process_images].

    Python values are modelled as follows.
    - Python [int]s are [Z].
    - numpy [float64] values are [spec_float] at precision 53 and maximal
      exponent 1024, with the operations of the standard library's
      executable IEEE 754 specification.
    - Python lists are [list]s, [None]-able values are [option]s.
    - [print], [cv2.imshow], [cv2.imwrite] and the calls of the predictor are
      recorded, in program order, in a trace of [effect]s.
    - An uncaught Python exception ends a run with [Raised]. *)

From Stdlib Require Import ZArith List String Ascii Bool Lia.
From Stdlib Require Import Floats.SpecFloat.
Import ListNotations.
Open Scope Z_scope.

(* ===================================================================== *)
(** ** numpy float64 *)
(* ===================================================================== *)

Module Float64.

Definition prec : Z := 53.
Definition emax : Z := 1024.

Definition float64 := spec_float.

(** [float(z)] / [np.array(..., dtype=float)] on an integer: the nearest
    binary64 value, ties to even. *)
Definition of_int (z : Z) : float64 := binary_normalize prec emax z 0 false.

Definition div (x y : float64) : float64 := SFdiv prec emax x y.
Definition mul (x y : float64) : float64 := SFmul prec emax x y.

(** The integer part of a finite value, rounding toward zero. *)
Definition trunc (x : float64) : option Z :=
  match x with
  | S754_zero _ => Some 0
  | S754_finite s m e =>
      Some (cond_Zopp s
              (match e with
               | Zneg p => Z.shiftr (Zpos m) (Zpos p)
               | _ => Z.shiftl (Zpos m) e
               end))
  | S754_infinity _ | S754_nan => None
  end.

Definition INT64_MIN : Z := - 2 ^ 63.

(** [ndarray.astype(int)] on one float64 element: C truncation to int64.
    For NaN, the infinities and values out of the int64 range the C
    conversion is undefined; x86-64 yields [INT64_MIN], which is what
    this definition returns. *)
Definition astype_int (x : float64) : Z :=
  match trunc x with
  | Some t => if (INT64_MIN <=? t) && (t <? 2 ^ 63) then t else INT64_MIN
  | None => INT64_MIN
  end.

Definition zero : float64 := of_int 0.
Definition one : float64 := of_int 1.

(** [0.0 <= f <= 1.0] for a float64 value, NaN and the infinities
    excluded: a relative coordinate. *)
Definition in_unit_interval (f : float64) : bool :=
  valid_binary prec emax f && SFleb zero f && SFleb f one.

(** The exact value [N / D] lies in [[m, m + 1)], at the place the location
    [l] says: on [m], below, at or above the middle. *)
Definition located (N D m : Z) (l : location) : Prop :=
  match l with
  | loc_Exact => N = m * D
  | loc_Inexact Lt => 2 * (m * D) < 2 * N /\ 2 * N < (2 * m + 1) * D
  | loc_Inexact Eq => 2 * N = (2 * m + 1) * D
  | loc_Inexact Gt => (2 * m + 1) * D < 2 * N /\ 2 * N < (2 * m + 2) * D
  end.

End Float64.

(* ===================================================================== *)
(** ** Python strings and [os.path] *)
(* ===================================================================== *)

Module Py.

Local Open Scope string_scope.

(** [str.lower] on the ASCII range. *)
Definition lower_ascii (c : ascii) : ascii :=
  let n := nat_of_ascii c in
  if (Nat.leb 65 n && Nat.leb n 90)%bool then ascii_of_nat (n + 32) else c.

Fixpoint lower (s : string) : string :=
  match s with
  | EmptyString => EmptyString
  | String c r => String (lower_ascii c) (lower r)
  end.

(** [s.endswith(suffix)] for one suffix. *)
Definition endswith1 (s suffix : string) : bool :=
  let n := String.length s in
  let m := String.length suffix in
  if Nat.leb m n then String.eqb (substring (n - m) m s) suffix else false.

(** [s.endswith(tuple)]: true when some suffix of the tuple matches. *)
Definition endswith (s : string) (suffixes : list string) : bool :=
  existsb (endswith1 s) suffixes.

(** [s.rfind(c)] for a one-character needle: index of the last occurrence,
    or [-1]. *)
Fixpoint rfind_from (i : Z) (c : ascii) (s : string) (last : Z) : Z :=
  match s with
  | EmptyString => last
  | String d r => rfind_from (i + 1) c r (if Ascii.eqb d c then i else last)
  end.

Definition rfind (s : string) (c : ascii) : Z := rfind_from 0 c s (-1).

Definition slice_to (s : string) (i : Z) : string :=
  substring 0 (Z.to_nat i) s.

Definition slice_from (s : string) (i : Z) : string :=
  substring (Z.to_nat i) (String.length s - Z.to_nat i) s.

Definition sep : ascii := "/"%char.

Fixpoint all_char (c : ascii) (s : string) : bool :=
  match s with
  | EmptyString => true
  | String d r => Ascii.eqb d c && all_char c r
  end.

(** [str.rstrip('/')]. *)
Fixpoint rstrip_sep (s : string) : string :=
  match s with
  | EmptyString => EmptyString
  | String d r =>
      if all_char sep (String d r) then EmptyString
      else String d (rstrip_sep r)
  end.

(** [posixpath.dirname]. *)
Definition dirname (p : string) : string :=
  let i := rfind p sep + 1 in
  let head := slice_to p i in
  if negb (String.eqb head EmptyString) && negb (all_char sep head)
  then rstrip_sep head else head.

(** [posixpath.basename]. *)
Definition basename (p : string) : string :=
  slice_from p (rfind p sep + 1).

(** [posixpath.join] of two components. *)
Definition join (a b : string) : string :=
  if prefix "/" b then b
  else if String.eqb a EmptyString || endswith1 a "/" then a ++ b
  else a ++ "/" ++ b.

(** The loop of [genericpath._splitext] that skips leading dots:
    [fuel] bounds the scan from [filenameIndex] up to [dotIndex]. *)
Fixpoint has_non_dot (s : string) (from upto : nat) : bool :=
  match upto with
  | O => false
  | S k =>
      if Nat.leb from k
      then match String.get k s with
           | Some c => negb (Ascii.eqb c "."%char) || has_non_dot s from k
           | None => has_non_dot s from k
           end
      else false
  end.

(** [os.path.splitext(p)[0]]. *)
Definition splitext_root (p : string) : string :=
  let sepIndex := rfind p sep in
  let dotIndex := rfind p "."%char in
  if (sepIndex <? dotIndex)%Z
       && has_non_dot p (Z.to_nat (sepIndex + 1)) (Z.to_nat dotIndex)
  then slice_to p dotIndex
  else p.

End Py.

(* ===================================================================== *)
(** ** Images, masks, the predictor and the trace of effects *)
(* ===================================================================== *)

(** A click, as [mouse_callback] stores it: the list [[x, y]]. *)
Definition point : Type := Z * Z.

(** A raw mask returned by the predictor: rows of raw values. *)
Definition mask : Type := list (list Z).

(** A decoded image: [image.shape[:2]] is [(img_h, img_w)]; the pixel data
    is only passed around, so it is kept as an opaque identifier. *)
Record image := { img_h : Z; img_w : Z; img_data : Z }.

(** OpenCV keeps the rows and columns of an image in C [int]s, and a
    decoded image has at least one row and one column. *)
Definition INT_MAX : Z := 2 ^ 31 - 1.

Definition valid_image (i : image) : Prop :=
  0 < img_h i <= INT_MAX /\ 0 < img_w i <= INT_MAX.

(** [cv2.circle(display_image, (x, y), 5, colour, -1)]. *)
Inductive colour := Green | Red.
Record circle := { c_x : Z; c_y : Z; c_colour : colour }.

(** [display_image]: a copy of the loaded image with the circles drawn on it
    so far, oldest first. *)
Record canvas := { cv_base : image; cv_circles : list circle }.

(** What one [cv2.imshow] call puts on screen. *)
Inductive frame :=
| Plain (c : canvas)
| Combined (m : mask) (c : canvas).

Inductive exn :=
| ValueError
| IndexError
| PredictError.

(** [predictor.predict(point_coords, point_labels, multimask_output=False)]
    on the image bound by [set_image]: either raises or returns [masks]. *)
Inductive predict_result :=
| PredictRaises
| PredictReturns (masks : list mask).

Definition predictor : Type := image -> list point -> list Z -> predict_result.

Inductive message :=
| MsgClickFirst            (* "Please click at least one point first." *)
| MsgGeneratingPreview     (* "generating preview..." *)
| MsgPreviewUpdated        (* "Preview updated." *)
| MsgPointsReset           (* "Points reset." *)
| MsgSelectBeforeConfirm   (* "Please select points before confirming." *)
| MsgConfirmed             (* "Selection confirmed. ..." *)
| MsgQuitting              (* "Quitting..." *)
| MsgNoImages              (* "No images found in the input folder." *)
| MsgStartBatch            (* "Starting Batch Processing" and the two dumps *)
| MsgProcessing (filename : string)
| MsgCouldNotLoad (filename : string)
| MsgSaved (path : string)
| MsgBatchComplete
| MsgSavedTo (path : string)
| MsgSaveCancelled
| MsgNoFile
| MsgCouldNotLoadImage
| MsgNoImageSelected
| MsgNoOutputSelected
| MsgModelError.

Inductive effect :=
| Print (m : message)
| Imshow (f : frame)
| SetImage (i : image)
| Predict (i : image) (pts : list point) (lbls : list Z)
| DestroyAllWindows
| Imwrite (path : string) (raster : list (list Z)).

Definition trace := list effect.

(** OpenCV constants used by the callbacks and the key loop. *)
Module Cv2.
Definition EVENT_LBUTTONDOWN : Z := 1.
Definition EVENT_RBUTTONDOWN : Z := 2.
End Cv2.

Definition KEY_SPACE : Z := 32.
Definition KEY_ENTER : Z := 13.
Definition KEY_R : Z := 114.   (* ord('r') *)
Definition KEY_Q : Z := 113.   (* ord('q') *)

(** What happens during one [cv2.waitKey(1)]: the GUI delivers mouse events
    to the callback, then [waitKey] returns a key code ([-1] when no key was
    pressed). *)
Inductive ui_event :=
| Mouse (event x y : Z)
| WaitKey (code : Z).

(** The global and local variables of a session. *)
Record session := {
  click_points : list point;
  click_labels : list Z;
  display_image : canvas;
  base_image : image;
  preview_mask : option mask
}.

(** [mouse_callback]; it is the same function in both tools. It reads and
    writes the globals only: [preview_mask] is a local of the key loop. *)
Definition mouse_callback (event x y : Z) (s : session) : trace * session :=
  if event =? Cv2.EVENT_LBUTTONDOWN then
    let d := {| cv_base := cv_base (display_image s);
                cv_circles := cv_circles (display_image s)
                                ++ [{| c_x := x; c_y := y; c_colour := Green |}] |} in
    ([Imshow (Plain d)],
     {| click_points := click_points s ++ [(x, y)];
        click_labels := click_labels s ++ [1];
        display_image := d;
        base_image := base_image s;
        preview_mask := preview_mask s |})
  else if event =? Cv2.EVENT_RBUTTONDOWN then
    let d := {| cv_base := cv_base (display_image s);
                cv_circles := cv_circles (display_image s)
                                ++ [{| c_x := x; c_y := y; c_colour := Red |}] |} in
    ([Imshow (Plain d)],
     {| click_points := click_points s ++ [(x, y)];
        click_labels := click_labels s ++ [0];
        display_image := d;
        base_image := base_image s;
        preview_mask := preview_mask s |})
  else ([], s).

(** A mask of the shape of an image: [img_h] rows of [img_w] values. This is
    the shape of [masks[0]] for the image bound by [set_image], and the
    shape for which [overlay[preview_mask > 0] = [0, 0, 255]] indexes the
    display image. *)
Definition mask_fits (img : image) (m : mask) : bool :=
  (Z.of_nat (List.length m) =? img_h img)
  && forallb (fun row => Z.of_nat (List.length row) =? img_w img) m.

(** The head of the [while True] body: overlay the preview when there is
    one, else show the plain display image. The overlay is the one of a
    mask of the shape of the image ([mask_fits]), which is what the
    predictor returns; for a mask of another shape numpy raises
    [IndexError] at the indexing, a path this function does not have. *)
Definition show (s : session) : effect :=
  match preview_mask s with
  | Some m => Imshow (Combined m (display_image s))
  | None => Imshow (Plain (display_image s))
  end.

(** The [R] branch, identical in both tools up to the messages. *)
Definition reset_session (s : session) : session :=
  {| click_points := [];
     click_labels := [];
     display_image := {| cv_base := base_image s; cv_circles := [] |};
     base_image := base_image s;
     preview_mask := None |}.

Definition with_preview (s : session) (m : mask) : session :=
  {| click_points := click_points s;
     click_labels := click_labels s;
     display_image := display_image s;
     base_image := base_image s;
     preview_mask := Some m |}.

(** The variables when a key loop is entered: the module-level empty lists,
    the two copies of the loaded image and [preview_mask = None]. *)
Definition fresh_session (img : image) : session :=
  {| click_points := [];
     click_labels := [];
     display_image := {| cv_base := img; cv_circles := [] |};
     base_image := img;
     preview_mask := None |}.

(** How one pass through the body of the key loop ends. *)
Inductive control (R : Type) :=
| Continue (s : session)      (* next iteration, also after [continue] *)
| Return (r : R)              (* [return] / [break] *)
| Exit                        (* [exit()] *)
| Raised (e : exn).           (* uncaught exception *)
Arguments Continue {R} s.
Arguments Return {R} r.
Arguments Exit {R}.
Arguments Raised {R} e.

(** How a run over a finite list of events ends: the loop is left, or the
    events are used up and the loop is waiting in [waitKey]. *)
Inductive ending (R : Type) :=
| Waiting (s : session)
| Returned (r : R)
| Exited
| Crashed (e : exn).
Arguments Waiting {R} s.
Arguments Returned {R} r.
Arguments Exited {R}.
Arguments Crashed {R} e.

(** The key loop, generic in the key dispatch of the tool. Each iteration
    shows a frame and then waits in [waitKey], where mouse events run the
    callback; the key code is masked with [0xFF] and dispatched. *)
Section KeyLoop.
Context {R : Type}.
Variable on_key : Z -> session -> trace * control R.

Fixpoint key_loop (evs : list ui_event) (s : session) : trace * ending R :=
  match evs with
  | [] => ([], Waiting s)
  | Mouse event x y :: evs' =>
      let '(t, s') := mouse_callback event x y s in
      let '(t', r) := key_loop evs' s' in
      (t ++ t', r)
  | WaitKey code :: evs' =>
      match on_key (Z.land code 255) s with
      | (t, Continue s') =>
          let '(t', r) := key_loop evs' s' in
          (t ++ show s' :: t', r)
      | (t, Return r) => (t, Returned r)
      | (t, Exit) => (t, Exited)
      | (t, Raised e) => (t, Crashed e)
      end
  end.
End KeyLoop.

(* ===================================================================== *)
(** ** batch_segment.py *)
(* ===================================================================== *)

Module BatchSegment.

Import Float64.

(** The body of [ENTER]: [np.array(click_points, dtype=float)], then the
    column-wise in-place divisions by [w] and [h]. *)
Definition to_relative (w h : Z) (p : point) : float64 * float64 :=
  (div (of_int (fst p)) (of_int w), div (of_int (snd p)) (of_int h)).

(** [(relative_points * [w, h]).astype(int)], one row. *)
Definition to_absolute (w h : Z) (r : float64 * float64) : point :=
  (astype_int (mul (fst r) (of_int w)), astype_int (mul (snd r) (of_int h))).

(** The dispatch on [key] in [interactive_setup]; [w], [h] and the image
    bound in the predictor are those of the reference image. *)
Definition on_key (predict : predictor) (ref : image) (key : Z) (s : session)
  : trace * control (list (float64 * float64) * list Z) :=
  if key =? KEY_SPACE then
    if (Z.of_nat (List.length (click_points s)) =? 0) then
      ([Print MsgClickFirst], Continue s)
    else
      match predict ref (click_points s) (click_labels s) with
      | PredictRaises =>
          ([Print MsgGeneratingPreview;
            Predict ref (click_points s) (click_labels s)],
           Raised PredictError)
      | PredictReturns masks =>
          match masks with
          | [] =>
              ([Print MsgGeneratingPreview;
                Predict ref (click_points s) (click_labels s)],
               Raised IndexError)
          | m :: _ =>
              ([Print MsgGeneratingPreview;
                Predict ref (click_points s) (click_labels s);
                Print MsgPreviewUpdated],
               Continue (with_preview s m))
          end
      end
  else if key =? KEY_R then
    ([Print MsgPointsReset; Imshow (Plain (display_image (reset_session s)))],
     Continue (reset_session s))
  else if key =? KEY_ENTER then
    if (Z.of_nat (List.length (click_points s)) =? 0) then
      ([Print MsgSelectBeforeConfirm], Continue s)
    else
      ([Print MsgConfirmed; DestroyAllWindows],
       Return (map (to_relative (img_w ref) (img_h ref)) (click_points s),
               click_labels s))
  else if key =? KEY_Q then
    ([Print MsgQuitting; DestroyAllWindows], Exit)
  else ([], Continue s).

(** [interactive_setup(first_image_path, predictor)] run against the
    events the GUI delivers. *)
Definition interactive_setup
    (imread : string -> option image) (predict : predictor)
    (first_image_path : string) (evs : list ui_event)
  : trace * ending (list (float64 * float64) * list Z) :=
  match imread first_image_path with
  | None => ([], Crashed ValueError)
  | Some img =>
      let s := fresh_session img in
      let '(t, r) := key_loop (on_key predict img) evs s in
      (SetImage img :: show s :: t, r)
  end.

(** The tuple given to [endswith] in [process_images]. *)
Definition batch_suffixes : list string :=
  [".png"; ".jpg"; ".jpeg"; ".tif"; ".bmp"]%string.

(** The patterns of the file dialog in [get_setup_via_gui]:
    ["*.png *.jpg *.jpeg *.tif *.tiff *.bmp"]. *)
Definition chooser_suffixes : list string :=
  [".png"; ".jpg"; ".jpeg"; ".tif"; ".tiff"; ".bmp"]%string.

(** [[f for f in os.listdir(INPUT_FOLDER) if f.lower().endswith((...))]]. *)
Definition image_files (listing : list string) : list string :=
  filter (fun f => Py.endswith (Py.lower f) batch_suffixes) listing.

Definition astype_uint8 (v : Z) : Z := v mod 256.

(** [np.where(masks[0] > 0, 255, 0).astype(np.uint8)]. *)
Definition binary_mask (m : mask) : list (list Z) :=
  map (map (fun v => astype_uint8 (if 0 <? v then 255 else 0))) m.

Definition output_path (OUTPUT_FOLDER filename : string) : string :=
  Py.join OUTPUT_FOLDER (Py.splitext_root filename ++ "_mask.png")%string.

(** The [for filename in image_files] loop. The result is [None] when the
    loop runs to its end and [Some e] when an exception leaves it. *)
Fixpoint batch_loop
    (imread : string -> option image) (predict : predictor)
    (INPUT_FOLDER OUTPUT_FOLDER : string)
    (relative_points : list (float64 * float64)) (prompt_labels : list Z)
    (files : list string) : trace * option exn :=
  match files with
  | [] => ([], None)
  | filename :: rest =>
      let continue_ :=
        batch_loop imread predict INPUT_FOLDER OUTPUT_FOLDER
          relative_points prompt_labels rest in
      match imread (Py.join INPUT_FOLDER filename) with
      | None =>
          (Print (MsgProcessing filename) :: Print (MsgCouldNotLoad filename)
             :: fst continue_,
           snd continue_)
      | Some img =>
          let absolute_points :=
            map (to_absolute (img_w img) (img_h img)) relative_points in
          match predict img absolute_points prompt_labels with
          | PredictRaises =>
              ([Print (MsgProcessing filename); SetImage img;
                Predict img absolute_points prompt_labels],
               Some PredictError)
          | PredictReturns masks =>
              match masks with
              | m :: _ =>
                  (Print (MsgProcessing filename) :: SetImage img
                     :: Predict img absolute_points prompt_labels
                     :: Imwrite (output_path OUTPUT_FOLDER filename) (binary_mask m)
                     :: Print (MsgSaved (output_path OUTPUT_FOLDER filename))
                     :: fst continue_,
                   snd continue_)
              | [] =>
                  (Print (MsgProcessing filename) :: SetImage img
                     :: Predict img absolute_points prompt_labels
                     :: fst continue_,
                   snd continue_)
              end
          end
      end
  end.

(** Everything [process_images] takes from outside the program. *)
Record world := {
  askopenfilename : string;            (* "" when the dialog is cancelled *)
  askdirectory : string;               (* "" when the dialog is cancelled *)
  listdir : string -> list string;
  imread : string -> option image;
  load_sam : option predictor;         (* [None]: the [try] block raised *)
  gui_events : list ui_event
}.

(** [get_setup_via_gui]. *)
Definition get_setup_via_gui (w : world)
  : trace * option (string * string * string) :=
  let template_path := askopenfilename w in
  if String.eqb template_path EmptyString then
    ([Print MsgNoImageSelected], None)
  else
    let input_folder := Py.dirname template_path in
    let output_folder := askdirectory w in
    if String.eqb output_folder EmptyString then
      ([Print MsgNoOutputSelected], None)
    else ([], Some (input_folder, output_folder, template_path)).

(** How a run of [process_images] ends. *)
Inductive run_end :=
| Completed           (* the batch loop ran to its end *)
| EarlyReturn         (* one of the [return]s before the loop *)
| SessionOpen         (* the events ended inside the session *)
| Quit                (* [exit()] from the session *)
| Uncaught (e : exn).

Definition process_images (w : world) : trace * run_end :=
  match get_setup_via_gui w with
  | (t0, None) => (t0, EarlyReturn)
  | (t0, Some (INPUT_FOLDER, OUTPUT_FOLDER, TEMPLATE_PATH)) =>
      match load_sam w with
      | None => (t0 ++ [Print MsgModelError], EarlyReturn)
      | Some predict =>
          let files := image_files (listdir w INPUT_FOLDER) in
          match files with
          | [] => (t0 ++ [Print MsgNoImages], EarlyReturn)
          | _ :: _ =>
              match interactive_setup (imread w) predict TEMPLATE_PATH
                      (gui_events w) with
              | (t1, Waiting _) => (t0 ++ t1, SessionOpen)
              | (t1, Exited) => (t0 ++ t1, Quit)
              | (t1, Crashed e) => (t0 ++ t1, Uncaught e)
              | (t1, Returned (relative_points, prompt_labels)) =>
                  match batch_loop (imread w) predict INPUT_FOLDER
                          OUTPUT_FOLDER relative_points prompt_labels files with
                  | (t2, None) =>
                      (t0 ++ t1 ++ Print MsgStartBatch :: t2
                          ++ [Print MsgBatchComplete], Completed)
                  | (t2, Some e) =>
                      (t0 ++ t1 ++ Print MsgStartBatch :: t2, Uncaught e)
                  end
              end
          end
      end
  end.

End BatchSegment.

(* ===================================================================== *)
(** ** single_segment.py *)
(* ===================================================================== *)

Module SingleSegment.

Definition astype_uint8 (v : Z) : Z := v mod 256.

(** [(masks[0] > 0).astype(np.uint8) * 255]. *)
Definition binary_mask (m : mask) : list (list Z) :=
  map (map (fun v => astype_uint8 (astype_uint8 (if 0 <? v then 1 else 0) * 255))) m.

Definition save_path (dest_folder image_path : string) : string :=
  Py.join dest_folder
    (Py.splitext_root (Py.basename image_path) ++ "_mask.png")%string.

(** The dispatch on [key] in [process_single_image]; [dest_folder] is the
    answer of the save dialog ([""] when it is cancelled). *)
Definition on_key (predict : predictor) (img : image)
    (image_path dest_folder : string) (key : Z) (s : session)
  : trace * control unit :=
  if key =? KEY_SPACE then
    match click_points s with
    | [] => ([], Continue s)
    | _ :: _ =>
        match predict img (click_points s) (click_labels s) with
        | PredictRaises =>
            ([Predict img (click_points s) (click_labels s)],
             Raised PredictError)
        | PredictReturns [] =>
            ([Predict img (click_points s) (click_labels s)],
             Raised IndexError)
        | PredictReturns (m :: _) =>
            ([Predict img (click_points s) (click_labels s)],
             Continue (with_preview s m))
        end
    end
  else if key =? KEY_R then
    ([], Continue (reset_session s))
  else if key =? KEY_ENTER then
    match click_points s with
    | [] => ([Print MsgSelectBeforeConfirm], Continue s)
    | _ :: _ =>
        match predict img (click_points s) (click_labels s) with
        | PredictRaises =>
            ([Predict img (click_points s) (click_labels s)],
             Raised PredictError)
        | PredictReturns [] =>
            ([Predict img (click_points s) (click_labels s)],
             Raised IndexError)
        | PredictReturns (m :: _) =>
            if String.eqb dest_folder EmptyString then
              ([Predict img (click_points s) (click_labels s);
                Print MsgSaveCancelled], Return tt)
            else
              ([Predict img (click_points s) (click_labels s);
                Imwrite (save_path dest_folder image_path) (binary_mask m);
                Print (MsgSavedTo (save_path dest_folder image_path))],
               Return tt)
        end
    end
  else if key =? KEY_Q then
    ([], Return tt)
  else ([], Continue s).

Record world := {
  select_input_file : string;          (* "" when cancelled *)
  select_save_directory : string;      (* "" when cancelled *)
  imread : string -> option image;
  load_sam : option predictor;
  gui_events : list ui_event
}.

Definition process_single_image (w : world) : trace * ending unit :=
  let image_path := select_input_file w in
  if String.eqb image_path EmptyString then ([Print MsgNoFile], Returned tt)
  else
    match load_sam w with
    | None => ([Print MsgModelError], Returned tt)
    | Some predict =>
        match imread w image_path with
        | None => ([Print MsgCouldNotLoadImage], Returned tt)
        | Some img =>
            let s := fresh_session img in
            match key_loop
                    (on_key predict img image_path (select_save_directory w))
                    (gui_events w) s with
            | (t, Returned tt) =>
                (SetImage img :: show s :: t ++ [DestroyAllWindows], Returned tt)
            | (t, r) => (SetImage img :: show s :: t, r)
            end
        end
    end.

End SingleSegment.

(* ===================================================================== *)
(** ** Vocabulary of the properties *)
(* ===================================================================== *)

Definition is_predict (e : effect) : bool :=
  match e with Predict _ _ _ => true | _ => false end.

(** Does the trace contain a call of [predictor.predict]? *)
Definition calls_predict (t : trace) : bool := existsb is_predict t.

Definition is_imwrite_to (path : string) (e : effect) : bool :=
  match e with Imwrite p _ => String.eqb p path | _ => false end.

(** Does the trace write a mask file at [path]? *)
Definition writes_mask (path : string) (t : trace) : bool :=
  existsb (is_imwrite_to path) t.

(** A click that [mouse_callback] stores: left or right button down. *)
Definition is_click (event : Z) : bool :=
  (event =? Cv2.EVENT_LBUTTONDOWN) || (event =? Cv2.EVENT_RBUTTONDOWN).

(** The relation between a raw value and the pixel written for it. *)
Definition thresholded (raw out : Z) : Prop :=
  (0 < raw /\ out = 255) \/ (raw <= 0 /\ out = 0).

(* ===================================================================== *)
(** ** Concrete data for the examples *)
(* ===================================================================== *)

Module Ex.
Definition ref : image := {| img_h := 100; img_w := 100; img_data := 1 |}.
Definition m1 : mask := [[0; 1]; [1; 0]].
Definition m2 : mask := [[1; 1]; [1; 0]].

(** A predictor that answers by the number of prompts it is given. *)
Definition predict : predictor :=
  fun _ pts _ =>
    match pts with
    | [_] => PredictReturns [m1]
    | _ => PredictReturns [m2]
    end.

Definition one_click : session :=
  snd (mouse_callback Cv2.EVENT_LBUTTONDOWN 50 50 (fresh_session ref)).

(** A folder with three image files, the second of which does not decode. *)
Definition imgA : image := {| img_h := 50; img_w := 200; img_data := 2 |}.
Definition imgC : image := {| img_h := 80; img_w := 60; img_data := 3 |}.

Definition imread (path : string) : option image :=
  if String.eqb path "in/a.png" then Some imgA
  else if String.eqb path "in/c.png" then Some imgC
  else if String.eqb path "in/ref.tiff" then Some ref
  else None.

(** The relative points of one click at (50, 50) on the 100 x 100
    reference image. *)
Definition relative_points : list (Float64.float64 * Float64.float64) :=
  map (BatchSegment.to_relative 100 100) [(50, 50)].

(** A predictor that raises on the image [imgA], returns no candidate on
    [imgC] and one mask otherwise. *)
Definition faulty_predict : predictor :=
  fun img _ _ =>
    if img_data img =? 2 then PredictRaises
    else if img_data img =? 3 then PredictReturns []
    else PredictReturns [m1].

(** A run of the batch tool: the reference image is [in/ref.tiff], the
    folder holds it next to [a.png], the human clicks once and confirms. *)
Definition tiff_world : BatchSegment.world :=
  {| BatchSegment.askopenfilename := "in/ref.tiff";
     BatchSegment.askdirectory := "out";
     BatchSegment.listdir := fun _ => ["a.png"; "ref.tiff"]%string;
     BatchSegment.imread := imread;
     BatchSegment.load_sam := Some predict;
     BatchSegment.gui_events :=
       [Mouse Cv2.EVENT_LBUTTONDOWN 50 50; WaitKey KEY_ENTER] |}.

(** A small image and a predictor that returns one mask of the shape of
    the image it is asked about, filled with the number of prompts. *)
Definition small : image := {| img_h := 3; img_w := 4; img_data := 5 |}.

Definition full_mask (img : image) (v : Z) : mask :=
  repeat (repeat v (Z.to_nat (img_w img))) (Z.to_nat (img_h img)).

Definition shaped_predict : predictor :=
  fun img pts _ => PredictReturns [full_mask img (Z.of_nat (List.length pts))].

(** The session on [small] after one click and a preview. *)
Definition small_previewed : session :=
  with_preview
    (snd (mouse_callback Cv2.EVENT_LBUTTONDOWN 1 1 (fresh_session small)))
    (full_mask small 1).

(** An image 49 pixels wide, where the round trip of x = 1 loses a pixel. *)
Definition img49 : image := {| img_h := 100; img_w := 49; img_data := 4 |}.

(** 7/8 as a float64 value. *)
Definition seven_eighths : Float64.float64 :=
  Float64.div (Float64.of_int 7) (Float64.of_int 8).
End Ex.

(* ===================================================================== *)
(** ** Vocabulary of the further properties *)
(* ===================================================================== *)

(** The circle [mouse_callback] draws for a stored point and its label:
    green for a positive point, red for a negative one. *)
Definition circle_of (p : point) (l : Z) : circle :=
  {| c_x := fst p; c_y := snd p; c_colour := if l =? 1 then Green else Red |}.

Fixpoint circles_of (pts : list point) (lbls : list Z) : list circle :=
  match pts, lbls with
  | p :: ps, l :: ls => circle_of p l :: circles_of ps ls
  | _, _ => []
  end.

(** What the variables of a session on the image [img] satisfy whenever the
    key loop waits: points and labels are paired, the labels are 0 or 1, the
    base image is the loaded one and the display image carries exactly the
    circles of the stored points. *)
Definition session_inv (img : image) (s : session) : Prop :=
  List.length (click_points s) = List.length (click_labels s) /\
  Forall (fun l => l = 0 \/ l = 1) (click_labels s) /\
  base_image s = img /\
  display_image s
  = {| cv_base := img;
       cv_circles := circles_of (click_points s) (click_labels s) |}.

(** Where a stored preview mask comes from: the first candidate [predict]
    returned for the first [k] stored points, for some [k >= 1]. *)
Definition preview_from (predict : predictor) (img : image) (s : session) : Prop :=
  forall m, preview_mask s = Some m ->
    exists (k : nat) (rest : list mask),
      (0 < k <= List.length (click_points s))%nat /\
      predict img (firstn k (click_points s)) (firstn k (click_labels s))
      = PredictReturns (m :: rest).

(** A call of [predict] on the image [img] with at least one point and as
    many labels as points; any other effect. *)
Definition well_formed_predict (img : image) (e : effect) : Prop :=
  match e with
  | Predict i pts lbls =>
      i = img /\ pts <> [] /\ List.length pts = List.length lbls
  | _ => True
  end.

Definition is_imwrite (e : effect) : bool :=
  match e with Imwrite _ _ => true | _ => false end.

Definition not_waiting {R : Type} (r : ending R) : Prop :=
  match r with Waiting _ => False | _ => True end.

(** The paths of the files a trace writes, in the order of writing. *)
Definition written_paths (t : trace) : list string :=
  flat_map (fun e => match e with Imwrite p _ => [p] | _ => [] end) t.

(** Does the batch loop get a mask for the file [filename]: the file
    decodes and [predict] returns at least one candidate for it? *)
Definition yields_mask
    (imread : string -> option image) (predict : predictor)
    (INPUT_FOLDER : string)
    (relative_points : list (Float64.float64 * Float64.float64))
    (prompt_labels : list Z) (filename : string) : bool :=
  match imread (Py.join INPUT_FOLDER filename) with
  | None => false
  | Some img =>
      match predict img
              (map (BatchSegment.to_absolute (img_w img) (img_h img))
                 relative_points) prompt_labels with
      | PredictReturns (_ :: _) => true
      | _ => false
      end
  end.

(** Every call of [predict] in the trace is made on the image bound by the
    latest [set_image]; [cur] is the image bound when the trace starts. *)
Fixpoint predict_bound (cur : option image) (t : trace) : Prop :=
  match t with
  | [] => True
  | SetImage i :: t' => predict_bound (Some i) t'
  | Predict i _ _ :: t' => cur = Some i /\ predict_bound cur t'
  | _ :: t' => predict_bound cur t'
  end.

(** A raster of 0s and 255s. *)
Definition binary_raster (r : list (list Z)) : Prop :=
  Forall (Forall (fun v => v = 0 \/ v = 255)) r.

(** A written file is a binary raster whose name ends in [_mask.png]. *)
Definition writes_binary_mask (e : effect) : Prop :=
  match e with
  | Imwrite p r => Py.endswith1 p "_mask.png" = true /\ binary_raster r
  | _ => True
  end.

(** An effect of a session: a call of [predict] on [img], and no
    [set_image]. *)
Definition session_effect (img : image) (e : effect) : Prop :=
  match e with
  | Predict i _ _ => i = img
  | SetImage _ => False
  | _ => True
  end.

(** Does the character [c] occur in [s]? *)
Fixpoint occurs (c : ascii) (s : string) : bool :=
  match s with
  | EmptyString => false
  | String d r => Ascii.eqb d c || occurs c r
  end.

(** The last character of a string, if there is one. *)
Fixpoint last_char (s : string) : option ascii :=
  match s with
  | EmptyString => None
  | String c EmptyString => Some c
  | String _ r => last_char r
  end.

(** The files the batch loop has started on, in order: the names in its
    "Processing: ..." lines. *)
Definition started (t : trace) : list string :=
  flat_map (fun e => match e with Print (MsgProcessing f) => [f] | _ => [] end) t.

(** Mouse events other than the two button presses. *)
Definition is_stored (ev : ui_event) : bool :=
  match ev with
  | Mouse event _ _ => is_click event
  | WaitKey _ => true
  end.

(** The effects only the batch loop has: its three per-file messages. *)
Definition is_batch_message (e : effect) : bool :=
  match e with
  | Print (MsgProcessing _) | Print (MsgCouldNotLoad _) | Print (MsgSaved _) => true
  | _ => false
  end.

(** A file name [root.ext] as the listing of a folder gives it: no
    directory separator, a root that is not made of dots only, and no dot in
    the extension. *)
Definition plain_name (root ext : string) : Prop :=
  occurs Py.sep root = false /\ occurs Py.sep ext = false /\
  occurs "."%char ext = false /\ Py.all_char "."%char root = false.

(** A path [d/n]: [d] ends in a character that is not a separator and [n]
    holds no separator. *)
Definition dir_and_name (d n : string) : Prop :=
  (exists c, last_char d = Some c /\ Ascii.eqb c Py.sep = false) /\
  occurs Py.sep n = false.

(** A pixel position inside an image. *)
Definition inside (img : image) (p : point) : Prop :=
  0 <= fst p < img_w img /\ 0 <= snd p < img_h img.

(** A call of [predict] whose point prompts all lie inside the image of the
    call; any other effect. *)
Definition prompts_inside (e : effect) : Prop :=
  match e with
  | Predict i pts _ => Forall (inside i) pts
  | _ => True
  end.

(** ** Concrete runs for the further examples *)
(* ===================================================================== *)

Module ExRuns.
(** Events of a session: two clicks, a preview, a third click. *)
Definition three_clicks : list ui_event :=
  [Mouse Cv2.EVENT_LBUTTONDOWN 10 20; Mouse Cv2.EVENT_RBUTTONDOWN 30 40;
   WaitKey KEY_SPACE; Mouse Cv2.EVENT_LBUTTONDOWN 50 60].

(** A run of the batch tool on a folder of two readable images, the first
    of which is the reference image; one click, then ENTER. *)
Definition png_world : BatchSegment.world :=
  {| BatchSegment.askopenfilename := "in/a.png";
     BatchSegment.askdirectory := "out";
     BatchSegment.listdir := fun _ => ["a.png"; "c.png"]%string;
     BatchSegment.imread := Ex.imread;
     BatchSegment.load_sam := Some Ex.predict;
     BatchSegment.gui_events :=
       [Mouse Cv2.EVENT_LBUTTONDOWN 50 50; WaitKey KEY_ENTER] |}.

(** The same folder, the session quit with [Q] after one click. *)
Definition quit_world : BatchSegment.world :=
  {| BatchSegment.askopenfilename := "in/a.png";
     BatchSegment.askdirectory := "out";
     BatchSegment.listdir := fun _ => ["a.png"; "c.png"]%string;
     BatchSegment.imread := Ex.imread;
     BatchSegment.load_sam := Some Ex.predict;
     BatchSegment.gui_events :=
       [Mouse Cv2.EVENT_LBUTTONDOWN 50 50; WaitKey KEY_Q] |}.
End ExRuns.

(** ** Properties *)
(* ===================================================================== *)

(** *** float64 arithmetic *)

Module Float64Facts.
Import Float64.

(** **** The number of binary digits of a mantissa *)

Lemma digits2_pos_size (p : positive) : digits2_pos p = Pos.size p.
Proof. induction p; cbn; congruence. Qed.

Lemma digits2_pos_bounds (p : positive) :
  2 ^ (Zpos (digits2_pos p) - 1) <= Zpos p < 2 ^ Zpos (digits2_pos p).
Proof.
  rewrite digits2_pos_size. split.
  - pose proof (Pos.size_le p) as H.
    assert (H' : 2 ^ Zpos (Pos.size p) <= 2 * Zpos p).
    { change (2 * Zpos p) with (Zpos p~0). rewrite <- Pos2Z.inj_pow.
      apply Pos2Z.pos_le_pos. exact H. }
    replace (Zpos (Pos.size p)) with (Zpos (Pos.size p) - 1 + 1) in H' by lia.
    rewrite Z.pow_add_r in H' by lia. lia.
  - pose proof (Pos.size_gt p) as H.
    rewrite <- Pos2Z.inj_pow. apply Pos2Z.pos_lt_pos. exact H.
Qed.

Lemma Zdigits2_bounds (m : Z) :
  0 < m -> 2 ^ (Zdigits2 m - 1) <= m < 2 ^ Zdigits2 m.
Proof. destruct m as [| p | p]; try lia. intros _. apply digits2_pos_bounds. Qed.

Lemma Zdigits2_nonneg (m : Z) : 0 <= Zdigits2 m.
Proof. destruct m; cbn; lia. Qed.

Lemma Zdigits2_pos (m : Z) : 0 < m -> 0 < Zdigits2 m.
Proof. destruct m; cbn; lia. Qed.

Lemma Zdigits2_unique (m d : Z) :
  2 ^ (d - 1) <= m < 2 ^ d -> 0 < m -> Zdigits2 m = d.
Proof.
  intros [Hlo Hhi] Hm.
  destruct (Zdigits2_bounds m Hm) as [Llo Lhi].
  pose proof (Zdigits2_pos m Hm) as Hd.
  assert (0 < d).
  { destruct (Z.ltb_spec 0 d); [assumption |].
    destruct (Z.eqb_spec d 0) as [-> | ne]; [cbn in Hhi; lia |].
    rewrite Z.pow_neg_r in Hhi by lia. lia. }
  destruct (Z.lt_trichotomy (Zdigits2 m) d) as [Hlt | [Heq | Hgt]]; [| assumption |].
  - assert (2 ^ Zdigits2 m <= 2 ^ (d - 1)) by (apply Z.pow_le_mono_r; lia). lia.
  - assert (2 ^ d <= 2 ^ (Zdigits2 m - 1)) by (apply Z.pow_le_mono_r; lia). lia.
Qed.

(** An upper bound on the value bounds the number of digits. *)
Lemma Zdigits2_le_of_lt (m k : Z) :
  0 <= m -> 0 <= k -> m < 2 ^ k -> Zdigits2 m <= k.
Proof.
  intros Hm0 Hk Hm. destruct (Z.ltb_spec 0 m) as [Hpos | Hneg].
  - destruct (Zdigits2_bounds m Hpos) as [Llo _].
    destruct (Z.leb_spec (Zdigits2 m) k); [assumption |].
    assert (2 ^ k <= 2 ^ (Zdigits2 m - 1)) by (apply Z.pow_le_mono_r; lia). lia.
  - assert (m = 0) by lia. subst m. cbn. lia.
Qed.

Lemma Zdigits2_ge_of_le (m k : Z) : 2 ^ k <= m -> 0 <= k -> k + 1 <= Zdigits2 m.
Proof.
  intros Hm Hk. assert (0 < m) by (pose proof (Z.pow_pos_nonneg 2 k); lia).
  destruct (Zdigits2_bounds m H) as [_ Lhi].
  destruct (Z.leb_spec (k + 1) (Zdigits2 m)); [assumption |].
  assert (2 ^ Zdigits2 m <= 2 ^ k) by (apply Z.pow_le_mono_r; lia). lia.
Qed.

Lemma Zdigits2_mul_pow2 (m k : Z) :
  0 < m -> 0 <= k -> Zdigits2 (m * 2 ^ k) = Zdigits2 m + k.
Proof.
  intros Hm Hk.
  destruct (Zdigits2_bounds m Hm) as [Hlo Hhi].
  pose proof (Zdigits2_pos m Hm) as Hd.
  assert (Hp : 0 < 2 ^ k) by (apply Z.pow_pos_nonneg; lia).
  apply Zdigits2_unique; [| lia]. split.
  - replace (Zdigits2 m + k - 1) with (Zdigits2 m - 1 + k) by lia.
    rewrite Z.pow_add_r by lia. apply Z.mul_le_mono_nonneg_r; lia.
  - rewrite Z.pow_add_r by lia. apply Z.mul_lt_mono_pos_r; lia.
Qed.

(** **** Shifting a mantissa, with its round and sticky bits *)

Lemma iter_pos_nat {A : Type} (f : A -> A) (p : positive) :
  forall x, iter_pos f p x = Nat.iter (Pos.to_nat p) f x.
Proof.
  induction p as [p IH | p IH |]; intros x; cbn [iter_pos].
  - rewrite !IH. rewrite Pos2Nat.inj_xI. cbn [Nat.iter Nat.mul].
    rewrite <- Nat.iter_add.
    replace (Pos.to_nat p + Pos.to_nat p)%nat with (Pos.to_nat p + (Pos.to_nat p + 0))%nat by lia.
    symmetry. apply Nat.iter_succ_r.
  - rewrite !IH. rewrite Pos2Nat.inj_xO. cbn [Nat.mul].
    rewrite <- Nat.iter_add. f_equal. lia.
  - reflexivity.
Qed.

Lemma shr_1_m (mrs : shr_record) :
  0 <= shr_m mrs -> shr_m (shr_1 mrs) = shr_m mrs / 2.
Proof.
  destruct mrs as [m r s]. cbn [shr_m]. intros Hm.
  destruct m as [| [p | p |] | p]; cbn [shr_1 shr_m]; try reflexivity; try lia.
  - apply Z.div_unique with (r := 1); lia.
  - apply Z.div_unique with (r := 0); lia.
Qed.

Lemma shr_1_located (N D : Z) (mrs : shr_record) :
  0 < D -> 0 <= shr_m mrs ->
  located N D (shr_m mrs) (loc_of_shr_record mrs) ->
  located N (2 * D) (shr_m (shr_1 mrs)) (loc_of_shr_record (shr_1 mrs)).
Proof.
  destruct mrs as [m r s]. cbn [shr_m]. intros HD Hm.
  destruct m as [| [p | p |] | p].
  5: { exfalso. apply Hm. reflexivity. }
  all: destruct r, s; cbn [shr_1 shr_m loc_of_shr_record located orb];
    intros H; lia.
Qed.

Lemma iter_shr_1 (N D : Z) (mrs : shr_record) (n : nat) :
  0 < D -> 0 <= shr_m mrs ->
  located N D (shr_m mrs) (loc_of_shr_record mrs) ->
  located N (2 ^ Z.of_nat n * D) (shr_m (Nat.iter n shr_1 mrs))
    (loc_of_shr_record (Nat.iter n shr_1 mrs)) /\
  shr_m (Nat.iter n shr_1 mrs) = shr_m mrs / 2 ^ Z.of_nat n.
Proof.
  intros HD Hm Hloc. induction n as [| n [IHl IHm]].
  - cbn [Nat.iter Z.of_nat]. rewrite Z.pow_0_r, Z.mul_1_l, Z.div_1_r. now split.
  - change (Nat.iter (S n) shr_1 mrs) with (shr_1 (Nat.iter n shr_1 mrs)).
    assert (Hpow : 2 ^ Z.of_nat (S n) = 2 * 2 ^ Z.of_nat n).
    { rewrite Nat2Z.inj_succ, Z.pow_succ_r by lia. reflexivity. }
    assert (Hp : 0 < 2 ^ Z.of_nat n) by (apply Z.pow_pos_nonneg; lia).
    assert (Hm' : 0 <= shr_m (Nat.iter n shr_1 mrs)).
    { rewrite IHm. apply Z.div_pos; lia. }
    split.
    + rewrite Hpow, <- Z.mul_assoc. apply shr_1_located; [lia | exact Hm' | exact IHl].
    + rewrite (shr_1_m _ Hm'), IHm, Hpow, Z.div_div by lia.
      f_equal. lia.
Qed.

Lemma loc_of_shr_record_of_loc (m : Z) (l : location) :
  loc_of_shr_record (shr_record_of_loc m l) = l.
Proof. destruct l as [| []]; reflexivity. Qed.

Lemma shr_m_of_loc (m : Z) (l : location) : shr_m (shr_record_of_loc m l) = m.
Proof. destruct l as [| []]; reflexivity. Qed.

(** The first step of [binary_round_aux]: the mantissa is shifted to the
    exponent [fexp] asks for, and the location follows. *)
Lemma shr_fexp_spec (N D m e : Z) (l : location) :
  0 < D -> 0 <= m -> located N D m l ->
  e <= fexp prec emax (Zdigits2 m + e) ->
  exists mrs',
    shr_fexp prec emax m e l = (mrs', fexp prec emax (Zdigits2 m + e)) /\
    located N (2 ^ (fexp prec emax (Zdigits2 m + e) - e) * D)
      (shr_m mrs') (loc_of_shr_record mrs') /\
    shr_m mrs' = m / 2 ^ (fexp prec emax (Zdigits2 m + e) - e).
Proof.
  intros HD Hm Hloc He. unfold shr_fexp, shr.
  set (e' := fexp prec emax (Zdigits2 m + e)) in *.
  destruct (e' - e) as [| p | p] eqn:En; [| | lia].
  - exists (shr_record_of_loc m l).
    replace e' with e by lia.
    rewrite loc_of_shr_record_of_loc, shr_m_of_loc.
    cbn [Z.pow]. rewrite Z.mul_1_l, Z.div_1_r. repeat split; assumption.
  - exists (iter_pos shr_1 p (shr_record_of_loc m l)).
    rewrite iter_pos_nat.
    destruct (iter_shr_1 N D (shr_record_of_loc m l) (Pos.to_nat p)) as [Hl Hs].
    + assumption.
    + now rewrite shr_m_of_loc.
    + now rewrite loc_of_shr_record_of_loc, shr_m_of_loc.
    + rewrite positive_nat_Z, shr_m_of_loc in *.
      repeat split; try assumption. f_equal. lia.
Qed.

(** **** Rounding to nearest, ties to even *)

Lemma round_nearest_even_spec (N D m : Z) (l : location) :
  0 < D -> located N D m l ->
  m <= round_nearest_even m l <= m + 1 /\
  2 * Z.abs (round_nearest_even m l * D - N) <= D.
Proof.
  intros HD Hl. destruct l as [| []]; cbn [round_nearest_even located] in *.
  - subst N. split; [lia |]. rewrite Z.sub_diag. cbn. lia.
  - destruct (Z.even m); split; lia.
  - split; lia.
  - split; lia.
Qed.

Lemma fexp_eq (k : Z) : fexp prec emax k = Z.max (k - 53) (-1074).
Proof. reflexivity. Qed.

(** Digits of a shifted mantissa. *)
Lemma Zdigits2_shift (m n : Z) :
  0 < m -> 0 <= n ->
  (0 < m / 2 ^ n /\ Zdigits2 (m / 2 ^ n) = Zdigits2 m - n) \/
  (m / 2 ^ n = 0 /\ Zdigits2 m <= n).
Proof.
  intros Hm Hn.
  destruct (Zdigits2_bounds m Hm) as [Hlo Hhi].
  pose proof (Zdigits2_pos m Hm) as Hd.
  assert (Hp : 0 < 2 ^ n) by (apply Z.pow_pos_nonneg; lia).
  destruct (Z.ltb_spec n (Zdigits2 m)) as [Hlt | Hge].
  - left.
    assert (Hlo' : 2 ^ (Zdigits2 m - n - 1) <= m / 2 ^ n).
    { apply Z.div_le_lower_bound; [lia |].
      rewrite <- Z.pow_add_r by lia.
      replace (n + (Zdigits2 m - n - 1)) with (Zdigits2 m - 1) by lia. exact Hlo. }
    assert (Hhi' : m / 2 ^ n < 2 ^ (Zdigits2 m - n)).
    { apply Z.div_lt_upper_bound; [lia |].
      rewrite <- Z.pow_add_r by lia.
      replace (n + (Zdigits2 m - n)) with (Zdigits2 m) by lia. exact Hhi. }
    assert (Hq : 0 < m / 2 ^ n).
    { pose proof (Z.pow_pos_nonneg 2 (Zdigits2 m - n - 1)). lia. }
    split; [exact Hq |]. apply Zdigits2_unique; [split |]; assumption.
  - right. split; [| lia].
    apply Z.div_small. split; [lia |].
    assert (2 ^ Zdigits2 m <= 2 ^ n) by (apply Z.pow_le_mono_r; lia). lia.
Qed.

(** The second step of [binary_round_aux]: after rounding, the mantissa is
    shifted once more exactly when rounding up has made it one bit longer
    than the format allows. *)
Lemma shr_fexp_after_round (m' e' M : Z) :
  0 <= m' -> fexp prec emax (Zdigits2 m' + e') = e' ->
  m' <= M <= m' + 1 ->
  exists mrs'' e'',
    shr_fexp prec emax M e' loc_Exact = (mrs'', e'') /\
    0 <= shr_m mrs'' /\ e' <= e'' <= e' + 1 /\
    shr_m mrs'' * 2 ^ (e'' - e') = M /\
    (0 < M -> fexp prec emax (Zdigits2 (shr_m mrs'') + e'') = e'').
Proof.
  intros Hm' Hcanon HM. rewrite fexp_eq in Hcanon.
  assert (Hsame : fexp prec emax (Zdigits2 M + e') = e' ->
          exists mrs'' e'',
            shr_fexp prec emax M e' loc_Exact = (mrs'', e'') /\
            0 <= shr_m mrs'' /\ e' <= e'' <= e' + 1 /\
            shr_m mrs'' * 2 ^ (e'' - e') = M /\
            (0 < M -> fexp prec emax (Zdigits2 (shr_m mrs'') + e'') = e'')).
  { intros Hf. exists (Build_shr_record M false false), e'.
    unfold shr_fexp. rewrite Hf, Z.sub_diag. cbn [shr shr_record_of_loc shr_m].
    rewrite Z.pow_0_r, Z.mul_1_r. repeat split; lia. }
  destruct (Z.eq_dec M m') as [-> | Hne].
  { apply Hsame. rewrite fexp_eq. exact Hcanon. }
  assert (HM1 : M = m' + 1) by lia. clear Hne HM.
  destruct (Z.eq_dec m' 0) as [-> | Hnz].
  { subst M. apply Hsame. change (0 + 1) with 1. change (Zdigits2 1) with 1.
    change (Zdigits2 0) with 0 in Hcanon. rewrite fexp_eq. lia. }
  assert (Hpos : 0 < m') by lia.
  destruct (Zdigits2_bounds m' Hpos) as [Hlo Hhi].
  pose proof (Zdigits2_pos m' Hpos) as Hk.
  set (k := Zdigits2 m') in *.
  destruct (Z.eq_dec M (2 ^ k)) as [Hpow | Hnpow].
  - assert (HdM : Zdigits2 M = k + 1).
    { apply Zdigits2_unique; [| lia]. rewrite Hpow.
      replace (k + 1 - 1) with k by lia. split; [lia |].
      apply Z.pow_lt_mono_r; lia. }
    destruct (Z.eq_dec k 53) as [Hk53 | Hk53].
    + exists (Build_shr_record (2 ^ 52) false false), (e' + 1).
      unfold shr_fexp. rewrite HdM, fexp_eq.
      replace (Z.max (k + 1 + e' - 53) (-1074) - e') with 1 by lia.
      rewrite Hpow, Hk53. cbn [shr_record_of_loc shr iter_pos].
      split; [reflexivity |]. cbn [shr_m].
      replace (e' + 1 - e') with 1 by lia.
      repeat split; try lia.
      intros _. rewrite fexp_eq. change (Zdigits2 (2 ^ 52)) with 53. lia.
    + apply Hsame. rewrite HdM, fexp_eq. lia.
  - apply Hsame.
    assert (HdM : Zdigits2 M = k) by (apply Zdigits2_unique; lia).
    rewrite HdM, fexp_eq. exact Hcanon.
Qed.

(** [binary_round_aux] on a positive mantissa [mx] at exponent [ex], where
    the exact value is [N / D] in units of [2 ^ ex]: the result is the value
    [M] in units of [2 ^ e'], at most half such a unit from the exact value,
    and it is a valid float. *)
Lemma binary_round_aux_spec (N D mx ex : Z) (lx : location) :
  0 < D -> 0 < mx -> located N D mx lx ->
  ex <= fexp prec emax (Zdigits2 mx + ex) ->
  fexp prec emax (Zdigits2 mx + ex) <= 970 ->
  exists M,
    0 <= M /\
    2 * Z.abs (M * (2 ^ (fexp prec emax (Zdigits2 mx + ex) - ex) * D) - N)
      <= 2 ^ (fexp prec emax (Zdigits2 mx + ex) - ex) * D /\
    match binary_round_aux prec emax false mx ex lx with
    | S754_zero s => s = false /\ M = 0
    | S754_finite s m e =>
        s = false /\
        fexp prec emax (Zdigits2 mx + ex) <= e
          <= fexp prec emax (Zdigits2 mx + ex) + 1 /\
        Zpos m * 2 ^ (e - fexp prec emax (Zdigits2 mx + ex)) = M /\
        bounded prec emax m e = true
    | _ => False
    end.
Proof.
  intros HD Hmx Hloc Hex Hmax.
  set (e' := fexp prec emax (Zdigits2 mx + ex)) in *.
  destruct (shr_fexp_spec N D mx ex lx HD (Z.lt_le_incl _ _ Hmx) Hloc Hex)
    as (mrs' & E1 & Hloc' & Hm').
  fold e' in E1, Hloc', Hm'.
  assert (Hp : 0 < 2 ^ (e' - ex)) by (apply Z.pow_pos_nonneg; lia).
  assert (HD' : 0 < 2 ^ (e' - ex) * D) by lia.
  destruct (round_nearest_even_spec _ _ _ _ HD' Hloc') as [HM Herr].
  set (M := round_nearest_even (shr_m mrs') (loc_of_shr_record mrs')) in *.
  assert (Hm'0 : 0 <= shr_m mrs').
  { rewrite Hm'. apply Z.div_pos; lia. }
  assert (Hcanon : fexp prec emax (Zdigits2 (shr_m mrs') + e') = e').
  { destruct (Zdigits2_shift mx (e' - ex) Hmx ltac:(lia)) as [[Hq Hd] | [Hq Hd]];
      rewrite <- Hm' in *.
    - rewrite Hd. replace (Zdigits2 mx - (e' - ex) + e') with (Zdigits2 mx + ex) by lia.
      reflexivity.
    - rewrite Hq. pose proof (fexp_eq (Zdigits2 mx + ex)) as F. fold e' in F.
      assert (He : e' = -1074) by lia. rewrite He. reflexivity. }
  destruct (shr_fexp_after_round _ _ M Hm'0 Hcanon HM)
    as (mrs'' & e'' & E2 & Hm''0 & He'' & Hval & Hcanon'').
  exists M. split; [lia |]. split; [exact Herr |].
  unfold binary_round_aux. rewrite E1. fold M. rewrite E2.
  destruct (shr_m mrs'') as [| m | m] eqn:Em; [| | lia].
  - split; [reflexivity | lia].
  - assert (HMpos : 0 < M).
    { rewrite <- Hval. apply Z.mul_pos_pos; [lia |]. apply Z.pow_pos_nonneg; lia. }
    specialize (Hcanon'' HMpos).
    destruct (Z.leb_spec e'' (emax - prec)) as [Hle | Hgt];
      [| unfold emax, prec in Hgt; lia].
    repeat split; try lia.
    unfold bounded, canonical_mantissa.
    change (Zpos (digits2_pos m)) with (Zdigits2 (Zpos m)).
    rewrite Hcanon'', Z.eqb_refl. cbn [andb]. apply Z.leb_le. exact Hle.
Qed.

(** **** Conversion of integers *)

Lemma Pos_iter_xO (m d : positive) :
  Zpos (Pos.iter xO m d) = Zpos m * 2 ^ Zpos d.
Proof.
  induction d as [| d IH] using Pos.peano_ind.
  - cbn [Pos.iter]. rewrite Pos2Z.inj_xO. change (2 ^ 1) with 2. lia.
  - rewrite Pos.iter_succ, Pos2Z.inj_xO, IH, Pos2Z.inj_succ, Z.pow_succ_r by lia. lia.
Qed.

(** A mantissa that is already in canonical position goes through
    [binary_round_aux] unchanged. *)
Lemma binary_round_aux_exact (m : positive) (e : Z) :
  fexp prec emax (Zdigits2 (Zpos m) + e) = e -> e <= 970 ->
  binary_round_aux prec emax false (Zpos m) e loc_Exact = S754_finite false m e.
Proof.
  intros Hcanon He.
  destruct (binary_round_aux_spec (Zpos m) 1 (Zpos m) e loc_Exact)
    as (M & HM0 & Herr & Hres); try lia.
  { cbn. lia. }
  rewrite Hcanon, Z.sub_diag, Z.pow_0_r in *.
  assert (HM : M = Zpos m) by lia. clear Herr.
  destruct (binary_round_aux prec emax false (Zpos m) e loc_Exact)
    as [s | s | | s m' e'] eqn:E; try contradiction.
  - lia.
  - destruct Hres as (-> & He' & Hval & Hb).
    unfold bounded, canonical_mantissa in Hb.
    apply andb_prop in Hb. destruct Hb as [Hc _]. apply Z.eqb_eq in Hc.
    change (Zpos (digits2_pos m')) with (Zdigits2 (Zpos m')) in Hc.
    rewrite fexp_eq in Hc, Hcanon.
    destruct (Z.eq_dec e' e) as [-> | Hne].
    + rewrite Z.sub_diag, Z.pow_0_r in Hval. f_equal. lia.
    + exfalso. assert (e' = e + 1) by lia. subst e'.
      replace (e + 1 - e) with 1 in Hval by lia. change (2 ^ 1) with 2 in Hval.
      pose proof (Zdigits2_bounds (Zpos m') ltac:(lia)) as [B1 B2].
      pose proof (Zdigits2_pos (Zpos m') ltac:(lia)) as B0.
      assert (Hd : Zdigits2 (Zpos m) = Zdigits2 (Zpos m') + 1).
      { apply Zdigits2_unique; [| lia]. rewrite HM in Hval. rewrite <- Hval.
        replace (Zdigits2 (Zpos m') + 1 - 1) with (Zdigits2 (Zpos m')) by lia.
        rewrite Z.pow_add_r by lia. change (2 ^ 1) with 2.
        pose proof (Z.pow_pos_nonneg 2 (Zdigits2 (Zpos m') - 1)).
        replace (2 ^ Zdigits2 (Zpos m')) with (2 * 2 ^ (Zdigits2 (Zpos m') - 1)) in *.
        - lia.
        - rewrite <- Z.pow_succ_r by lia. f_equal. lia. }
      lia.
Qed.

(** [float(z)] is exact below [2 ^ 53]: the mantissa is [z] shifted to 53
    bits. *)
Lemma of_int_pos (z : Z) :
  0 < z < 2 ^ 53 ->
  exists m,
    of_int z = S754_finite false m (Zdigits2 z - 53) /\
    Zpos m = z * 2 ^ (53 - Zdigits2 z) /\
    Zdigits2 (Zpos m) = 53.
Proof.
  intros [Hz0 Hz]. destruct z as [| p | p]; try lia.
  pose proof (Zdigits2_pos (Zpos p) Hz0) as Hd0.
  pose proof (Zdigits2_le_of_lt (Zpos p) 53 ltac:(lia) ltac:(lia) Hz) as Hd.
  destruct (Zdigits2_bounds (Zpos p) Hz0) as [Hlo Hhi].
  unfold of_int, binary_normalize, binary_round.
  change (Zpos (digits2_pos p)) with (Zdigits2 (Zpos p)).
  set (d := Zdigits2 (Zpos p)) in *.
  rewrite Z.add_0_r, fexp_eq.
  replace (Z.max (d - 53) (-1074)) with (d - 53) by lia.
  unfold shl_align. rewrite Z.sub_0_r.
  assert (Hshift : forall m e, Zpos m = Zpos p * 2 ^ (53 - d) -> e = d - 53 ->
            exists m0, binary_round_aux prec emax false (Zpos m) e loc_Exact
                       = S754_finite false m0 (d - 53) /\
                       Zpos m0 = Zpos p * 2 ^ (53 - d) /\ Zdigits2 (Zpos m0) = 53).
  { intros m e Hm ->.
    assert (Hdm : Zdigits2 (Zpos m) = 53).
    { rewrite Hm, Zdigits2_mul_pow2 by lia. fold d. lia. }
    exists m. rewrite binary_round_aux_exact.
    - repeat split; assumption.
    - rewrite Hdm, fexp_eq. lia.
    - lia. }
  destruct (d - 53) as [| q | q] eqn:Ed; [| lia |].
  - apply Hshift; [| reflexivity].
    replace (53 - d) with 0 by lia. rewrite Z.pow_0_r. lia.
  - apply Hshift; [| reflexivity]. rewrite Pos_iter_xO. f_equal. f_equal. lia.
Qed.

Lemma of_int_0 : of_int 0 = S754_zero false.
Proof. reflexivity. Qed.

(** **** Division *)

Lemma new_location_spec (q m2 r : Z) :
  0 < m2 -> 0 <= r < m2 ->
  located (q * m2 + r) m2 q (new_location m2 r).
Proof.
  intros Hm2 Hr. unfold new_location.
  destruct (Z.even m2) eqn:Ev.
  - unfold new_location_even.
    destruct (Z.eqb_spec r 0) as [-> | Hnz]; [cbn; lia |].
    destruct (Z.compare_spec (2 * r) m2); cbn [located]; lia.
  - unfold new_location_odd.
    destruct (Z.eqb_spec r 0) as [-> | Hnz]; [cbn; lia |].
    assert (Hodd : Z.odd m2 = true) by (rewrite <- Z.negb_even, Ev; reflexivity).
    apply Z.odd_spec in Hodd. destruct Hodd as [b Hb].
    destruct (Z.compare_spec (2 * r + 1) m2); cbn [located]; lia.
Qed.

Lemma div_eucl_div_mod (a b : Z) : Z.div_eucl a b = (a / b, a mod b).
Proof. unfold Z.div, Z.modulo. now destruct (Z.div_eucl a b). Qed.

Lemma SFdiv_core_binary_normal (m1 m2 : positive) (e1 e2 : Z) :
  Zdigits2 (Zpos m1) = 53 -> Zdigits2 (Zpos m2) = 53 ->
  -1021 <= e1 - e2 ->
  SFdiv_core_binary prec emax (Zpos m1) e1 (Zpos m2) e2
  = (Zpos m1 * 2 ^ 53 / Zpos m2, e1 - e2 - 53,
     new_location (Zpos m2) ((Zpos m1 * 2 ^ 53) mod Zpos m2)).
Proof.
  intros H1 H2 He. unfold SFdiv_core_binary. rewrite H1, H2, fexp_eq.
  replace (Z.min (Z.max (53 + e1 - (53 + e2) - 53) (-1074)) (e1 - e2))
    with (e1 - e2 - 53) by lia.
  replace (e1 - e2 - (e1 - e2 - 53)) with 53 by lia.
  rewrite Z.shiftl_mul_pow2 by lia. rewrite div_eucl_div_mod. reflexivity.
Qed.

(** Division of two positive normal floats: the quotient is a positive
    float whose value, in units of [2 ^ (e1 - e2 - 53)], is within
    [m2 / m2 = 1] such unit of the exact quotient. *)
Lemma div_normal (m1 m2 : positive) (e1 e2 : Z) :
  Zdigits2 (Zpos m1) = 53 -> Zdigits2 (Zpos m2) = 53 ->
  -1021 <= e1 - e2 <= 1000 ->
  exists m e,
    div (S754_finite false m1 e1) (S754_finite false m2 e2)
    = S754_finite false m e /\
    e1 - e2 - 53 <= e <= e1 - e2 - 53 + 2 /\
    Z.abs (Zpos m * 2 ^ (e - (e1 - e2 - 53)) * Zpos m2 - Zpos m1 * 2 ^ 53)
      <= Zpos m2.
Proof.
  intros H1 H2 He.
  unfold div, SFdiv. rewrite SFdiv_core_binary_normal by (assumption || lia).
  cbn [xorb].
  set (N := Zpos m1 * 2 ^ 53). set (e0 := e1 - e2 - 53).
  set (q := N / Zpos m2).
  destruct (Zdigits2_bounds (Zpos m1) ltac:(lia)) as [L1 U1].
  destruct (Zdigits2_bounds (Zpos m2) ltac:(lia)) as [L2 U2].
  rewrite H1 in L1, U1. rewrite H2 in L2, U2.
  change (2 ^ (53 - 1)) with (2 ^ 52) in *.
  assert (P52 : 2 ^ 53 = 2 * 2 ^ 52) by reflexivity.
  assert (P54 : 2 ^ 54 = 2 * 2 ^ 53) by reflexivity.
  assert (Hq_lo : 2 ^ 52 <= q).
  { apply Z.div_le_lower_bound; [lia |]. unfold N. nia. }
  assert (Hq_hi : q < 2 ^ 54).
  { apply Z.div_lt_upper_bound; [lia |]. unfold N. nia. }
  assert (Hq0 : 0 < q) by lia.
  pose proof (Zdigits2_ge_of_le q 52 Hq_lo ltac:(lia)) as Hd_lo.
  pose proof (Zdigits2_le_of_lt q 54 ltac:(lia) ltac:(lia) Hq_hi) as Hd_hi.
  assert (Hloc : located N (Zpos m2) q (new_location (Zpos m2) (N mod Zpos m2))).
  { replace N with (q * Zpos m2 + N mod Zpos m2) at 1.
    - apply new_location_spec; [lia |]. apply Z.mod_pos_bound. lia.
    - unfold q. rewrite (Z.mul_comm (N / Zpos m2)). symmetry. apply Z.div_mod. lia. }
  pose proof (fexp_eq (Zdigits2 q + e0)) as F.
  destruct (binary_round_aux_spec N (Zpos m2) q e0 _ ltac:(lia) Hq0 Hloc)
    as (M & HM0 & Herr & Hres); try lia.
  set (e' := fexp prec emax (Zdigits2 q + e0)) in *.
  assert (Hk : e' - e0 = 0 \/ e' - e0 = 1) by lia.
  destruct (binary_round_aux prec emax false q e0 _)
    as [s | s | | s m e] eqn:E; try contradiction.
  - exfalso. destruct Hres as [_ ->].
    destruct Hk as [Hk | Hk]; rewrite Hk in Herr; cbn in Herr; unfold N in *; nia.
  - destruct Hres as (-> & He' & Hval & _).
    exists m, e. split; [reflexivity |]. split; [lia |].
    replace (e - e0) with ((e - e') + (e' - e0)) by lia.
    rewrite Z.pow_add_r, Z.mul_assoc, Hval by lia.
    destruct Hk as [Hk | Hk]; rewrite Hk in *.
    + change (2 ^ 0) with 1 in *. lia.
    + change (2 ^ 1) with 2 in *. lia.
Qed.

(** **** Multiplication and conversion back to integers *)

(** Multiplication of two positive floats whose product has at least 53
    bits: the result is the product rounded at exponent [e']. *)
Lemma mul_spec (m1 m2 : positive) (e1 e2 : Z) :
  53 <= Zdigits2 (Zpos m1 * Zpos m2) ->
  fexp prec emax (Zdigits2 (Zpos m1 * Zpos m2) + (e1 + e2)) <= 970 ->
  exists M,
    0 <= M /\
    2 * Z.abs (M * 2 ^ (fexp prec emax (Zdigits2 (Zpos m1 * Zpos m2) + (e1 + e2))
                        - (e1 + e2)) - Zpos m1 * Zpos m2)
      <= 2 ^ (fexp prec emax (Zdigits2 (Zpos m1 * Zpos m2) + (e1 + e2)) - (e1 + e2)) /\
    match mul (S754_finite false m1 e1) (S754_finite false m2 e2) with
    | S754_zero s => s = false /\ M = 0
    | S754_finite s m e =>
        s = false /\
        fexp prec emax (Zdigits2 (Zpos m1 * Zpos m2) + (e1 + e2)) <= e /\
        Zpos m * 2 ^ (e - fexp prec emax (Zdigits2 (Zpos m1 * Zpos m2) + (e1 + e2))) = M
    | _ => False
    end.
Proof.
  intros Hd Hmax. unfold mul, SFmul. cbn [xorb].
  change (Zpos (m1 * m2)) with (Zpos m1 * Zpos m2).
  pose proof (fexp_eq (Zdigits2 (Zpos m1 * Zpos m2) + (e1 + e2))) as F.
  destruct (binary_round_aux_spec (Zpos m1 * Zpos m2) 1 (Zpos m1 * Zpos m2)
              (e1 + e2) loc_Exact) as (M & HM0 & Herr & Hres); try lia.
  { cbn. lia. }
  exists M. rewrite Z.mul_1_r in Herr. split; [exact HM0 |]. split; [exact Herr |].
  destruct (binary_round_aux prec emax false (Zpos m1 * Zpos m2) (e1 + e2) loc_Exact)
    as [s | s | | s m e]; try assumption.
  destruct Hres as (Hs & He & Hv & _). repeat split; try assumption. lia.
Qed.

(** [astype(int)] of a positive float, computed in any finer unit
    [2 ^ (- c)]. *)
Lemma astype_int_finite (m : positive) (e c : Z) :
  0 <= c -> 0 <= e + c ->
  Zpos m * 2 ^ (e + c) / 2 ^ c < 2 ^ 63 ->
  astype_int (S754_finite false m e) = Zpos m * 2 ^ (e + c) / 2 ^ c.
Proof.
  intros Hc Hec Hr.
  assert (Hp : 0 < 2 ^ c) by (apply Z.pow_pos_nonneg; lia).
  assert (Ht : trunc (S754_finite false m e) = Some (Zpos m * 2 ^ (e + c) / 2 ^ c)).
  { unfold trunc. cbn [cond_Zopp]. f_equal. destruct e as [| p | p].
    - cbn [Z.shiftl]. rewrite Z.add_0_l, Z.div_mul by lia. reflexivity.
    - rewrite Z.shiftl_mul_pow2 by lia.
      rewrite Z.pow_add_r, Z.mul_assoc, Z.div_mul by lia. reflexivity.
    - rewrite Z.shiftr_div_pow2 by lia.
      assert (Hq : 0 < 2 ^ Zpos p) by (apply Z.pow_pos_nonneg; lia).
      assert (Hr' : 0 < 2 ^ (Zneg p + c)) by (apply Z.pow_pos_nonneg; lia).
      replace (2 ^ c) with (2 ^ (Zneg p + c) * 2 ^ Zpos p).
      + rewrite (Z.mul_comm (Zpos m)). symmetry. apply Z.div_mul_cancel_l; lia.
      + rewrite <- Z.pow_add_r by lia. f_equal. lia. }
  unfold astype_int. rewrite Ht.
  assert (H0 : 0 <= Zpos m * 2 ^ (e + c) / 2 ^ c).
  { apply Z.div_pos; [| lia]. pose proof (Z.pow_pos_nonneg 2 (e + c)). nia. }
  destruct (Z.leb_spec INT64_MIN (Zpos m * 2 ^ (e + c) / 2 ^ c)) as [_ | Hlt];
    [| unfold INT64_MIN in Hlt; lia].
  destruct (Z.ltb_spec (Zpos m * 2 ^ (e + c) / 2 ^ c) (2 ^ 63)); [reflexivity | lia].
Qed.

(** **** A coordinate divided by a dimension and multiplied back *)

Lemma pow2_split (a b : Z) : 0 <= a -> 0 <= b -> 2 ^ (a + b) = 2 ^ a * 2 ^ b.
Proof. intros. apply Z.pow_add_r; assumption. Qed.

(** One coordinate through [/= w] and back through [* w] and
    [astype(int)]: the pixel comes back, or the pixel before it. *)
Lemma round_trip_axis (x W : Z) :
  0 <= x < W -> W <= 2 ^ 52 ->
  x - 1 <= astype_int (mul (div (of_int x) (of_int W)) (of_int W)) <= x.
Proof.
  intros [Hx0 HxW] HW.
  assert (P53 : 2 ^ 53 = 2 * 2 ^ 52) by reflexivity.
  destruct (of_int_pos W ltac:(lia)) as (m2 & EW & Hm2 & Hd2).
  rewrite EW.
  destruct (Z.eq_dec x 0) as [-> | Hxnz].
  { rewrite of_int_0. cbn. lia. }
  destruct (of_int_pos x ltac:(lia)) as (m1 & Ex & Hm1 & Hd1).
  rewrite Ex.
  pose proof (Zdigits2_pos x ltac:(lia)) as Hdx0.
  pose proof (Zdigits2_le_of_lt x 52 ltac:(lia) ltac:(lia) ltac:(lia)) as Hdx.
  destruct (Zdigits2_bounds W ltac:(lia)) as [_ HWhi].
  pose proof (Zdigits2_le_of_lt x (Zdigits2 W) ltac:(lia)
                (Zdigits2_nonneg W) ltac:(lia)) as HdxW.
  pose proof (Zdigits2_le_of_lt W 53 ltac:(lia) ltac:(lia) ltac:(lia)) as HdW.
  set (dx := Zdigits2 x) in *. set (dW := Zdigits2 W) in *.
  destruct (Zdigits2_bounds (Zpos m1) ltac:(lia)) as [L1 U1].
  destruct (Zdigits2_bounds (Zpos m2) ltac:(lia)) as [L2 U2].
  rewrite Hd1 in L1, U1. rewrite Hd2 in L2, U2.
  change (2 ^ (53 - 1)) with (2 ^ 52) in *.
  (* the quotient *)
  destruct (div_normal m1 m2 (dx - 53) (dW - 53) Hd1 Hd2 ltac:(lia))
    as (mq & eq & Eq & Heq & Hq).
  rewrite Eq.
  set (e0 := dx - 53 - (dW - 53) - 53) in *.
  set (k := eq - e0) in *.
  assert (Hk : 0 <= k <= 2) by lia.
  set (B := 2 ^ k) in *.
  assert (HB : 1 <= B <= 4).
  { unfold B. split.
    - change 1 with (2 ^ 0). apply Z.pow_le_mono_r; lia.
    - change 4 with (2 ^ 2). apply Z.pow_le_mono_r; lia. }
  set (X := Zpos m1 * 2 ^ 53) in *.
  set (P := Zpos mq * Zpos m2).
  assert (HPB : Z.abs (P * B - X) <= Zpos m2).
  { unfold P. replace (Zpos mq * Zpos m2 * B) with (Zpos mq * B * Zpos m2) by ring.
    exact Hq. }
  (* the product *)
  set (E := eq + (dW - 53)).
  assert (HP_lo : 2 ^ 52 <= P) by (unfold P; nia).
  assert (HP_hi : P < 2 ^ (107 - k)).
  { apply Z.mul_lt_mono_pos_r with (p := B); [lia |].
    unfold B. rewrite <- pow2_split by lia.
    replace (107 - k + k) with 107 by lia.
    assert (X < 2 ^ 106) by (unfold X; change (2 ^ 106) with (2 ^ 53 * 2 ^ 53); nia).
    change (2 ^ 107) with (2 * 2 ^ 106). lia. }
  pose proof (Zdigits2_ge_of_le P 52 HP_lo ltac:(lia)) as HdP_lo.
  pose proof (Zdigits2_le_of_lt P (107 - k) ltac:(lia) ltac:(lia) HP_hi) as HdP_hi.
  pose proof (fexp_eq (Zdigits2 P + E)) as F.
  destruct (mul_spec mq m2 eq (dW - 53)) as (M & HM0 & Herr & Hres).
  { fold P. lia. }
  { fold P E. lia. }
  fold P E in Herr, Hres.
  set (e' := fexp prec emax (Zdigits2 P + E)) in *.
  assert (He' : E <= e' <= dx - 52) by lia.
  set (A := 2 ^ (e' - E)) in *.
  assert (HA : 0 < A) by (apply Z.pow_pos_nonneg; lia).
  set (c := 106 - dx).
  assert (Hc : 54 <= c) by (unfold c; lia).
  assert (HEc : E + c = k) by (unfold E, c, k, e0; lia).
  assert (HAB : A * B <= 2 ^ 54).
  { unfold A, B. rewrite <- pow2_split by lia. apply Z.pow_le_mono_r; lia. }
  assert (H54 : 2 * 2 ^ 54 <= 2 * 2 ^ c).
  { apply Z.mul_le_mono_nonneg_l; [lia |]. apply Z.pow_le_mono_r; lia. }
  assert (HX : X = x * 2 ^ c).
  { unfold X. rewrite Hm1. fold dx. rewrite <- Z.mul_assoc, <- pow2_split by lia.
    f_equal. f_equal. unfold c. lia. }
  assert (Hclose : Z.abs (M * A * B - X) < 2 ^ c).
  { apply Z.abs_le in HPB.
    assert (Ht : - A <= 2 * (M * A - P) <= A) by lia.
    set (T := M * A - P) in *.
    assert (H1 : - (A * B) <= 2 * T * B <= A * B).
    { replace (- (A * B)) with (- A * B) by ring.
      split; apply Z.mul_le_mono_nonneg_r; lia. }
    apply Z.abs_lt.
    replace (M * A * B - X) with (T * B + (P * B - X)) by (unfold T; ring).
    lia. }
  destruct (mul (S754_finite false mq eq) (S754_finite false m2 (dW - 53)))
    as [s | s | | s mr er] eqn:Er; try contradiction.
  - exfalso. destruct Hres as [_ ->]. rewrite Z.mul_0_l, Z.sub_0_l, Z.abs_opp in Herr.
    destruct (Zdigits2_bounds P ltac:(lia)) as [Plo _].
    assert (He'eq : e' - E = Zdigits2 P - 53) by lia.
    assert (A < 2 ^ (Zdigits2 P - 1)).
    { unfold A. rewrite He'eq. apply Z.pow_lt_mono_r; lia. }
    lia.
  - destruct Hres as (-> & Her & Hval).
    assert (HR : Zpos mr * 2 ^ (er + c) = M * A * B).
    { rewrite <- Hval. unfold A, B.
      rewrite <- !Z.mul_assoc, <- !pow2_split by lia. f_equal. f_equal. lia. }
    assert (Hp : 0 < 2 ^ c) by (apply Z.pow_pos_nonneg; lia).
    apply Z.abs_lt in Hclose.
    rewrite HX in Hclose.
    assert (Hlo : x - 1 <= M * A * B / 2 ^ c).
    { apply Z.div_le_lower_bound; [lia |].
      replace (2 ^ c * (x - 1)) with (x * 2 ^ c - 2 ^ c) by ring. lia. }
    assert (Hhi : M * A * B / 2 ^ c < x + 1).
    { apply Z.div_lt_upper_bound; [lia |].
      replace (2 ^ c * (x + 1)) with (x * 2 ^ c + 2 ^ c) by ring. lia. }
    rewrite (astype_int_finite mr er c) by (rewrite ?HR; lia).
    rewrite HR. lia.
Qed.

(** **** Relative coordinates between 0.0 and 1.0 *)

Lemma valid_mantissa_lt (s : bool) (m : positive) (e : Z) :
  valid_binary prec emax (S754_finite s m e) = true -> Zpos m < 2 ^ 53.
Proof.
  intros Hvalid.
  cbn [valid_binary] in Hvalid. unfold bounded, canonical_mantissa in Hvalid.
  apply andb_prop in Hvalid. destruct Hvalid as [Hc _]. apply Z.eqb_eq in Hc.
  change (Zpos (digits2_pos m)) with (Zdigits2 (Zpos m)) in Hc.
  rewrite fexp_eq in Hc.
  destruct (Zdigits2_bounds (Zpos m) ltac:(lia)) as [_ Hhi].
  eapply Z.lt_le_trans; [exact Hhi |]. apply Z.pow_le_mono_r; lia.
Qed.

Lemma SFleb_one_inv (m : positive) (e : Z) :
  SFleb (S754_finite false m e) (S754_finite false 4503599627370496 (-52)) = true ->
  e < -52 \/ (e = -52 /\ Zpos m <= 4503599627370496).
Proof.
  unfold SFleb, SFcompare.
  destruct (Z.compare_spec e (-52)) as [He | He | He]; try discriminate.
  - rewrite Pos.compare_cont_spec. unfold Pos.switch_Eq. intros Hle1. right.
    split; [assumption |].
    destruct (Pos.compare_spec m 4503599627370496) as [Hm | Hm | Hm].
    + subst m. apply Z.le_refl.
    + apply Z.lt_le_incl, Pos2Z.pos_lt_pos, Hm.
    + discriminate.
  - intros _. left. assumption.
Qed.

Lemma one_eq : one = S754_finite false 4503599627370496 (-52).
Proof. vm_compute. reflexivity. Qed.

Lemma zero_eq : zero = S754_zero false.
Proof. reflexivity. Qed.

Lemma pow2_52 : 2 ^ 52 = 4503599627370496.
Proof. reflexivity. Qed.

Lemma SFleb_zero_inv (f : float64) :
  SFleb (S754_zero false) f = true ->
  match f with
  | S754_zero _ => True
  | S754_finite s _ _ => s = false
  | S754_infinity s => s = false
  | S754_nan => False
  end.
Proof. destruct f as [s | [|] | | [|] m e]; cbn; intros H; try discriminate; auto. Qed.

Lemma SFleb_inf_one :
  SFleb (S754_infinity false) (S754_finite false 4503599627370496 (-52)) = false.
Proof. reflexivity. Qed.

(** A valid float between 0 and 1 is a zero or a positive finite float
    whose value [m * 2 ^ e] is at most 1. *)
Lemma in_unit_interval_inv (f : float64) :
  in_unit_interval f = true ->
  (exists s, f = S754_zero s) \/
  (exists m e, f = S754_finite false m e /\ e <= -52 /\ Zpos m <= 2 ^ (- e)).
Proof.
  unfold in_unit_interval. rewrite one_eq, zero_eq. intros H.
  apply andb_prop in H. destruct H as [H Hle1].
  apply andb_prop in H. destruct H as [Hvalid Hle0].
  apply SFleb_zero_inv in Hle0.
  destruct f as [s | s | | s m e].
  - left. now exists s.
  - subst s. rewrite SFleb_inf_one in Hle1. discriminate.
  - contradiction.
  - right. subst s. exists m, e. split; [reflexivity |].
    apply valid_mantissa_lt in Hvalid.
    apply SFleb_one_inv in Hle1. destruct Hle1 as [He | [-> Hm]].
    + split; [lia |].
      assert (2 ^ 53 <= 2 ^ (- e)) by (apply Z.pow_le_mono_r; lia). lia.
    + split; [lia |]. replace (- -52) with 52 by reflexivity.
      rewrite pow2_52. exact Hm.
Qed.

(** One relative coordinate in [[0, 1]] through [* w] and [astype(int)]:
    the result is a pixel index between 0 and [w], [w] included. *)
Lemma to_absolute_axis_range (f : float64) (W : Z) :
  in_unit_interval f = true -> 0 < W <= 2 ^ 52 ->
  0 <= astype_int (mul f (of_int W)) <= W.
Proof.
  intros Hf HW.
  destruct (of_int_pos W ltac:(change (2 ^ 53) with (2 * 2 ^ 52); lia))
    as (m2 & EW & Hm2 & Hd2).
  rewrite EW.
  destruct (in_unit_interval_inv f Hf) as [[s ->] | (m & e & -> & He & Hm)].
  { cbn. lia. }
  pose proof (Zdigits2_pos W ltac:(lia)) as HdW0.
  pose proof (Zdigits2_le_of_lt W 53 ltac:(lia) ltac:(lia)
                ltac:(change (2 ^ 53) with (2 * 2 ^ 52); lia)) as HdW.
  set (dW := Zdigits2 W) in *.
  destruct (Zdigits2_bounds (Zpos m2) ltac:(lia)) as [L2 U2].
  rewrite Hd2 in L2, U2. change (2 ^ (53 - 1)) with (2 ^ 52) in *.
  set (P := Zpos m * Zpos m2).
  set (E := e + (dW - 53)).
  set (c := - E).
  assert (Hc : 0 <= c) by (unfold c, E; lia).
  assert (Hpc : 0 < 2 ^ c) by (apply Z.pow_pos_nonneg; lia).
  assert (Hpe : 0 < 2 ^ (- e)) by (apply Z.pow_pos_nonneg; lia).
  assert (HWc : W * 2 ^ c = Zpos m2 * 2 ^ (- e)).
  { rewrite Hm2. fold dW. rewrite <- Z.mul_assoc, <- pow2_split by lia.
    f_equal. f_equal. unfold c, E. lia. }
  assert (HPW : P <= W * 2 ^ c).
  { rewrite HWc. unfold P. rewrite (Z.mul_comm (Zpos m)).
    apply Z.mul_le_mono_nonneg_l; lia. }
  assert (HP_lo : 2 ^ 52 <= P).
  { unfold P. replace (2 ^ 52) with (1 * 2 ^ 52) by lia.
    apply Z.mul_le_mono_nonneg; lia. }
  assert (HP_hi : P < 2 ^ (53 - e)).
  { eapply Z.le_lt_trans; [exact HPW |]. rewrite HWc.
    replace (53 - e) with (53 + - e) by lia. rewrite (pow2_split 53 (- e)) by lia.
    apply Z.mul_lt_mono_pos_r; lia. }
  pose proof (Zdigits2_ge_of_le P 52 HP_lo ltac:(lia)) as HdP_lo.
  pose proof (Zdigits2_le_of_lt P (53 - e) ltac:(lia) ltac:(lia) HP_hi) as HdP_hi.
  pose proof (fexp_eq (Zdigits2 P + E)) as F.
  destruct (mul_spec m m2 e (dW - 53)) as (M & HM0 & Herr & Hres).
  { fold P. lia. }
  { fold P E. unfold E in *. lia. }
  fold P E in Herr, Hres.
  set (e' := fexp prec emax (Zdigits2 P + E)) in *.
  assert (He' : E <= e' <= 0) by (unfold E in *; lia).
  set (A := 2 ^ (e' - E)) in *.
  assert (HA : 0 < A <= 2 ^ c).
  { unfold A, c. split; [apply Z.pow_pos_nonneg; lia | apply Z.pow_le_mono_r; lia]. }
  destruct (mul (S754_finite false m e) (S754_finite false m2 (dW - 53)))
    as [s | s | | s mr er] eqn:Er; try contradiction.
  - cbn. lia.
  - destruct Hres as (-> & Her & Hval).
    assert (HR : Zpos mr * 2 ^ (er + c) = M * A).
    { rewrite <- Hval. unfold A. rewrite <- Z.mul_assoc, <- pow2_split by lia.
      f_equal. f_equal. unfold c. lia. }
    assert (Hhi : M * A / 2 ^ c < W + 1).
    { apply Z.div_lt_upper_bound; [lia |].
      replace (2 ^ c * (W + 1)) with (W * 2 ^ c + 2 ^ c) by ring. lia. }
    assert (Hlo : 0 <= M * A / 2 ^ c).
    { apply Z.div_pos; [| lia]. apply Z.mul_nonneg_nonneg; lia. }
    rewrite (astype_int_finite mr er c); rewrite ?HR; lia.
Qed.

(** At the relative coordinate 1.0 the result is [w] itself. *)
Lemma to_absolute_axis_at_one (W : Z) :
  0 < W <= 2 ^ 52 -> astype_int (mul one (of_int W)) = W.
Proof.
  intros HW.
  destruct (of_int_pos W ltac:(change (2 ^ 53) with (2 * 2 ^ 52); lia))
    as (m2 & EW & Hm2 & Hd2).
  rewrite EW.
  pose proof (Zdigits2_pos W ltac:(lia)) as HdW0.
  pose proof (Zdigits2_le_of_lt W 53 ltac:(lia) ltac:(lia)
                ltac:(change (2 ^ 53) with (2 * 2 ^ 52); lia)) as HdW.
  set (dW := Zdigits2 W) in *.
  rewrite one_eq.
  set (P := 4503599627370496 * Zpos m2).
  set (E := -52 + (dW - 53)).
  assert (HdP : Zdigits2 P = 105).
  { unfold P. rewrite Z.mul_comm, <- pow2_52.
    rewrite Zdigits2_mul_pow2 by lia. lia. }
  pose proof (fexp_eq (Zdigits2 P + E)) as F.
  destruct (mul_spec 4503599627370496 m2 (-52) (dW - 53)) as (M & HM0 & Herr & Hres).
  { fold P. lia. }
  { fold P E. unfold E in *. lia. }
  fold P E in Herr, Hres.
  set (e' := fexp prec emax (Zdigits2 P + E)) in *.
  assert (He' : e' - E = 52) by (unfold E in *; lia).
  rewrite He' in Herr.
  assert (HM : M = Zpos m2).
  { unfold P in Herr. rewrite <- pow2_52 in Herr.
    set (T := 2 ^ 52) in *.
    assert (HT : 0 < T) by (unfold T; lia).
    replace (M * T - T * Zpos m2) with ((M - Zpos m2) * T) in Herr by ring.
    rewrite Z.abs_mul, (Z.abs_eq T) in Herr by lia.
    assert (Z.abs (M - Zpos m2) = 0 \/ 1 <= Z.abs (M - Zpos m2)) as [H0 | H1] by lia.
    - lia.
    - exfalso. assert (1 * T <= Z.abs (M - Zpos m2) * T).
      { apply Z.mul_le_mono_nonneg_r; lia. }
      lia. }
  destruct (mul (S754_finite false 4503599627370496 (-52))
              (S754_finite false m2 (dW - 53)))
    as [s | s | | s mr er] eqn:Er; try contradiction.
  - exfalso. lia.
  - destruct Hres as (-> & Her & Hval).
    set (c := 53 - dW).
    assert (HR : Zpos mr * 2 ^ (er + c) = W * 2 ^ c * 2 ^ (e' + c)).
    { fold c in Hm2. rewrite <- Hm2, <- HM, <- Hval.
      rewrite <- Z.mul_assoc, <- pow2_split by (unfold c, E in *; lia).
      f_equal. f_equal. lia. }
    assert (He'c : e' + c = 0) by (unfold c, E in *; lia).
    rewrite He'c, Z.pow_0_r, Z.mul_1_r in HR.
    assert (Hpc : 0 < 2 ^ c) by (apply Z.pow_pos_nonneg; unfold c; lia).
    rewrite (astype_int_finite mr er c); rewrite ?HR, ?Z.div_mul;
      try lia; unfold c; lia.
Qed.

End Float64Facts.

(** *** Traces *)

Lemma calls_predict_app (t u : trace) :
  calls_predict (t ++ u) = calls_predict t || calls_predict u.
Proof. apply existsb_app. Qed.

(** *** The key loop *)

Section KeyLoopFacts.
Context {R : Type}.
Variable on_key : Z -> session -> trace * control R.

(** A run that is still waiting can be resumed with further events. *)
Lemma key_loop_app (evs evs' : list ui_event) :
  forall (s s' : session) (t : trace),
    key_loop on_key evs s = (t, Waiting s') ->
    key_loop on_key (evs ++ evs') s
    = (t ++ fst (key_loop on_key evs' s'), snd (key_loop on_key evs' s')).
Proof.
  induction evs as [| ev evs IH]; intros s s' t H.
  - cbn in H. injection H as <- <-. cbn. now destruct (key_loop on_key evs' s).
  - destruct ev as [event x y | code]; cbn [key_loop app] in *.
    + destruct (mouse_callback event x y s) as [t0 s0].
      destruct (key_loop on_key evs s0) as [t1 r1] eqn:E1.
      injection H as <- ->.
      rewrite (IH _ _ _ E1). now rewrite app_assoc.
    + destruct (on_key (Z.land code 255) s) as [t0 [s0 | r | | e]];
        try discriminate.
      destruct (key_loop on_key evs s0) as [t1 r1] eqn:E1.
      injection H as <- ->.
      rewrite (IH _ _ _ E1). now rewrite <- app_assoc.
Qed.
End KeyLoopFacts.

Lemma mouse_callback_click (event x y : Z) (s : session) :
  is_click event = true ->
  exists l c,
    mouse_callback event x y s
    = ([Imshow (Plain {| cv_base := cv_base (display_image s);
                         cv_circles := cv_circles (display_image s)
                                         ++ [{| c_x := x; c_y := y; c_colour := c |}] |})],
       {| click_points := click_points s ++ [(x, y)];
          click_labels := click_labels s ++ [l];
          display_image := {| cv_base := cv_base (display_image s);
                              cv_circles := cv_circles (display_image s)
                                 ++ [{| c_x := x; c_y := y; c_colour := c |}] |};
          base_image := base_image s;
          preview_mask := preview_mask s |}).
Proof.
  unfold is_click, mouse_callback. intros H.
  destruct (event =? Cv2.EVENT_LBUTTONDOWN).
  - now exists 1, Green.
  - cbn in H. rewrite H. now exists 0, Red.
Qed.

Lemma mouse_callback_preview (event x y : Z) (s : session) :
  preview_mask (snd (mouse_callback event x y s)) = preview_mask s.
Proof.
  unfold mouse_callback.
  destruct (event =? Cv2.EVENT_LBUTTONDOWN); [reflexivity |].
  destruct (event =? Cv2.EVENT_RBUTTONDOWN); reflexivity.
Qed.

Lemma mouse_callback_no_predict (event x y : Z) (s : session) :
  calls_predict (fst (mouse_callback event x y s)) = false.
Proof.
  unfold mouse_callback.
  destruct (event =? Cv2.EVENT_LBUTTONDOWN); [reflexivity |].
  destruct (event =? Cv2.EVENT_RBUTTONDOWN); reflexivity.
Qed.

(** *** The preview across clicks *)

Section ClickKeepsPreview.
Context {R : Type}.
Variable on_key : Z -> session -> trace * control R.
(** [waitKey] returned [-1]: no branch of the dispatch is taken. *)
Hypothesis idle : forall s, on_key 255 s = ([], Continue s).

Lemma click_then_idle (event x y : Z) (s : session) :
  key_loop on_key [Mouse event x y; WaitKey (-1)] s
  = (fst (mouse_callback event x y s)
       ++ [show (snd (mouse_callback event x y s))],
     Waiting (snd (mouse_callback event x y s))).
Proof.
  cbn [key_loop]. destruct (mouse_callback event x y s) as [t s'].
  change (Z.land (-1) 255) with 255. rewrite idle. reflexivity.
Qed.
End ClickKeepsPreview.

Lemma batch_idle (predict : predictor) (ref : image) (s : session) :
  BatchSegment.on_key predict ref 255 s = ([], Continue s).
Proof. reflexivity. Qed.

Lemma single_idle (predict : predictor) (img : image) (p d : string) (s : session) :
  SingleSegment.on_key predict img p d 255 s = ([], Continue s).
Proof. reflexivity. Qed.

(** C1, as stated, fails. The run, on an image of 3 rows and 4 columns with
    a predictor that returns masks of that shape: click, SPACE (preview of
    one point), click again, one more loop iteration. The mask computed
    from the first point alone is still stored when the session holds two
    points, and the last frame put on screen overlays it; [predict] was
    called once only. *)
Lemma stale_preview_is_shown_again :
  let run := BatchSegment.interactive_setup (fun _ => Some Ex.small)
               Ex.shaped_predict "ref.png"
               [Mouse Cv2.EVENT_LBUTTONDOWN 1 1; WaitKey KEY_SPACE;
                Mouse Cv2.EVENT_LBUTTONDOWN 2 2; WaitKey (-1)] in
  exists s,
    snd run = Waiting s /\
    click_points s = [(1, 1); (2, 2)] /\
    preview_mask s = Some (Ex.full_mask Ex.small 1) /\
    mask_fits Ex.small (Ex.full_mask Ex.small 1) = true /\
    Ex.shaped_predict Ex.small (click_points s) (click_labels s)
    = PredictReturns [Ex.full_mask Ex.small 2] /\
    last (fst run) (Print MsgQuitting)
    = Imshow (Combined (Ex.full_mask Ex.small 1) (display_image s)) /\
    filter is_predict (fst run) = [Predict Ex.small [(1, 1)] [1]].
Proof.
  cbv zeta. eexists. repeat split; reflexivity.
Qed.

(** What the dispatch of the batch tool does to the stored preview mask: a
    pass that goes on to the next iteration leaves it as it is, unless the
    key is [R], which discards it, or SPACE with a candidate from
    [predict], which replaces it. *)
Lemma batch_key_preview
    (predict : predictor) (ref : image) (key : Z) (s1 s2 : session) (t1 : trace) :
  BatchSegment.on_key predict ref key s1 = (t1, Continue s2) ->
  preview_mask s2 = preview_mask s1 \/
  (key = KEY_R /\ s2 = reset_session s1) \/
  (key = KEY_SPACE /\
   exists m' rest,
     predict ref (click_points s1) (click_labels s1) = PredictReturns (m' :: rest) /\
     s2 = with_preview s1 m').
Proof.
  unfold BatchSegment.on_key.
  destruct (Z.eqb_spec key KEY_SPACE) as [-> | _].
  - destruct (Z.of_nat (List.length (click_points s1)) =? 0).
    + intros H. injection H as _ <-. left. reflexivity.
    + destruct (predict ref (click_points s1) (click_labels s1))
        as [| [| m' rest]] eqn:E; try discriminate.
      intros H. injection H as _ <-. right. right.
      split; [reflexivity |]. exists m', rest. split; reflexivity.
  - destruct (Z.eqb_spec key KEY_R) as [-> | _].
    + intros H. injection H as _ <-. right. left. split; reflexivity.
    + destruct (key =? KEY_ENTER).
      * destruct (Z.of_nat (List.length (click_points s1)) =? 0); [| discriminate].
        intros H. injection H as _ <-. left. reflexivity.
      * destruct (key =? KEY_Q); [discriminate |].
        intros H. injection H as _ <-. left. reflexivity.
Qed.

(** C1, amended: a click leaves the stored preview mask as it is. Whenever a
    session of the batch tool is waiting with a preview mask [m] (of the
    shape of the image on display), a further click followed by one more
    loop iteration appends the click, keeps [m] stored, and shows it again,
    overlaid on the display image with the new circle. The mask stays until
    a later preview replaces it or [R] discards it: mouse events never
    change it, and a pass of the dispatch changes it only at [R], which
    clears it, and at SPACE with a candidate from [predict], which stores
    that candidate. The stored mask does not enter the confirmed output,
    which is computed from the click points and labels alone. *)
Theorem preview_kept_after_click
    (predict : predictor) (ref : image) (evs : list ui_event)
    (s0 s : session) (t : trace) (m : mask) (event x y : Z) :
  key_loop (BatchSegment.on_key predict ref) evs s0 = (t, Waiting s) ->
  preview_mask s = Some m ->
  mask_fits (cv_base (display_image s)) m = true ->
  is_click event = true ->
  exists s',
    key_loop (BatchSegment.on_key predict ref)
      (evs ++ [Mouse event x y; WaitKey (-1)]) s0
    = (t ++ [Imshow (Plain (display_image s'));
             Imshow (Combined m (display_image s'))], Waiting s') /\
    click_points s' = click_points s ++ [(x, y)] /\
    preview_mask s' = Some m /\
    mask_fits (cv_base (display_image s')) m = true /\
    (forall m' rest,
        predict ref (click_points s') (click_labels s')
        = PredictReturns (m' :: rest) ->
        snd (BatchSegment.on_key predict ref KEY_SPACE s')
        = Continue (with_preview s' m')) /\
    snd (BatchSegment.on_key predict ref KEY_R s') = Continue (reset_session s') /\
    preview_mask (reset_session s') = None /\
    (forall event1 x1 y1 s1,
        preview_mask (snd (mouse_callback event1 x1 y1 s1)) = preview_mask s1) /\
    (forall key s1 s2 t1,
        BatchSegment.on_key predict ref key s1 = (t1, Continue s2) ->
        preview_mask s2 = preview_mask s1 \/
        (key = KEY_R /\ s2 = reset_session s1) \/
        (key = KEY_SPACE /\
         exists m' rest,
           predict ref (click_points s1) (click_labels s1)
           = PredictReturns (m' :: rest) /\
           s2 = with_preview s1 m')) /\
    snd (BatchSegment.on_key predict ref KEY_ENTER s')
    = Return (map (BatchSegment.to_relative (img_w ref) (img_h ref))
                (click_points s ++ [(x, y)]),
              click_labels s').
Proof.
  intros Hrun Hm Hfits Hclick.
  destruct (mouse_callback_click event x y s Hclick) as (l & c & Hcb).
  exists (snd (mouse_callback event x y s)).
  rewrite (key_loop_app _ _ _ _ _ _ Hrun).
  rewrite (click_then_idle _ (batch_idle predict ref)).
  rewrite Hcb. cbn [fst snd]. unfold show. cbn [preview_mask display_image].
  rewrite Hm.
  assert (Hlen : (Z.of_nat (List.length (click_points s ++ [(x, y)])) =? 0) = false).
  { rewrite length_app. cbn [List.length]. apply Z.eqb_neq. lia. }
  split; [reflexivity |]. split; [reflexivity |]. split; [reflexivity |].
  split; [exact Hfits |].
  split.
  { intros m' rest Hp. unfold BatchSegment.on_key.
    cbn [click_points click_labels] in *.
    change (KEY_SPACE =? KEY_SPACE) with true. cbn iota.
    rewrite Hlen, Hp. reflexivity. }
  split; [reflexivity |]. split; [reflexivity |].
  split; [intros; apply mouse_callback_preview |].
  split; [intros key s1 s2 t1; apply batch_key_preview |].
  unfold BatchSegment.on_key. cbn [click_points click_labels].
  change (KEY_ENTER =? KEY_SPACE) with false.
  change (KEY_ENTER =? KEY_R) with false.
  change (KEY_ENTER =? KEY_ENTER) with true. cbn iota.
  rewrite Hlen. reflexivity.
Qed.

Lemma preview_kept_after_click_witness :
  exists s',
    key_loop (BatchSegment.on_key Ex.shaped_predict Ex.small)
      ([Mouse Cv2.EVENT_LBUTTONDOWN 1 1; WaitKey KEY_SPACE]
         ++ [Mouse Cv2.EVENT_RBUTTONDOWN 2 2; WaitKey (-1)])
      (fresh_session Ex.small)
    = (fst (key_loop (BatchSegment.on_key Ex.shaped_predict Ex.small)
              [Mouse Cv2.EVENT_LBUTTONDOWN 1 1; WaitKey KEY_SPACE]
              (fresh_session Ex.small))
         ++ [Imshow (Plain (display_image s'));
             Imshow (Combined (Ex.full_mask Ex.small 1) (display_image s'))],
       Waiting s') /\
    click_points s' = click_points Ex.small_previewed ++ [(2, 2)] /\
    preview_mask s' = Some (Ex.full_mask Ex.small 1) /\
    mask_fits (cv_base (display_image s')) (Ex.full_mask Ex.small 1) = true /\
    (forall m' rest,
        Ex.shaped_predict Ex.small (click_points s') (click_labels s')
        = PredictReturns (m' :: rest) ->
        snd (BatchSegment.on_key Ex.shaped_predict Ex.small KEY_SPACE s')
        = Continue (with_preview s' m')) /\
    snd (BatchSegment.on_key Ex.shaped_predict Ex.small KEY_R s')
    = Continue (reset_session s') /\
    preview_mask (reset_session s') = None /\
    (forall event1 x1 y1 s1,
        preview_mask (snd (mouse_callback event1 x1 y1 s1)) = preview_mask s1) /\
    (forall key s1 s2 t1,
        BatchSegment.on_key Ex.shaped_predict Ex.small key s1 = (t1, Continue s2) ->
        preview_mask s2 = preview_mask s1 \/
        (key = KEY_R /\ s2 = reset_session s1) \/
        (key = KEY_SPACE /\
         exists m' rest,
           Ex.shaped_predict Ex.small (click_points s1) (click_labels s1)
           = PredictReturns (m' :: rest) /\
           s2 = with_preview s1 m')) /\
    snd (BatchSegment.on_key Ex.shaped_predict Ex.small KEY_ENTER s')
    = Return (map (BatchSegment.to_relative (img_w Ex.small) (img_h Ex.small))
                (click_points Ex.small_previewed ++ [(2, 2)]),
              click_labels s').
Proof.
  apply (preview_kept_after_click Ex.shaped_predict Ex.small
           [Mouse Cv2.EVENT_LBUTTONDOWN 1 1; WaitKey KEY_SPACE]
           (fresh_session Ex.small) Ex.small_previewed
           _ (Ex.full_mask Ex.small 1) Cv2.EVENT_RBUTTONDOWN 2 2);
    reflexivity.
Defined.

(** *** Preview and confirm on an empty set of points *)

(** C4: with no points stored, SPACE and ENTER compute nothing and produce
    nothing: in both tools the dispatch ends with [Continue] on the very
    same session (so the points stay empty and every variable is as before),
    the trace holds no call of [predict] and no output is returned; the batch
    tool prints its reminder. *)
Theorem empty_points_guard
    (predict : predictor) (img : image) (path dest : string)
    (s : session) (key : Z) :
  click_points s = [] ->
  key = KEY_SPACE \/ key = KEY_ENTER ->
  (exists msg,
      BatchSegment.on_key predict img key s = ([Print msg], Continue s)) /\
  (exists t,
      SingleSegment.on_key predict img path dest key s = (t, Continue s) /\
      calls_predict t = false) /\
  List.length (click_points s) = 0%nat.
Proof.
  intros Hempty [-> | ->]; unfold BatchSegment.on_key, SingleSegment.on_key;
    rewrite Hempty; cbn; repeat split; eauto.
Qed.

Lemma empty_points_guard_witness :
  (exists msg,
      BatchSegment.on_key Ex.predict Ex.ref KEY_SPACE (fresh_session Ex.ref)
      = ([Print msg], Continue (fresh_session Ex.ref))) /\
  (exists t,
      SingleSegment.on_key Ex.predict Ex.ref "a.png" "out" KEY_SPACE
        (fresh_session Ex.ref)
      = (t, Continue (fresh_session Ex.ref)) /\
      calls_predict t = false) /\
  List.length (click_points (fresh_session Ex.ref)) = 0%nat.
Proof.
  apply (empty_points_guard Ex.predict Ex.ref "a.png" "out"
           (fresh_session Ex.ref) KEY_SPACE).
  - reflexivity.
  - left. reflexivity.
Defined.

(** *** Which events call the predictor *)

(** C5, as stated, fails for the batch tool: a click followed by ENTER ends
    the session with the relative points, and the trace of the whole session
    holds no call of [predict]. *)
Lemma batch_confirm_does_not_predict :
  let run := BatchSegment.interactive_setup (fun _ => Some Ex.ref) Ex.predict
               "ref.png"
               [Mouse Cv2.EVENT_LBUTTONDOWN 50 50; WaitKey KEY_ENTER] in
  (exists r, snd run = Returned r) /\ calls_predict (fst run) = false.
Proof.
  cbv zeta. split; [eexists |]; reflexivity.
Qed.

(** C5, amended: with at least one point stored, SPACE calls [predict] in
    both tools and ENTER calls it in the single-image tool; ENTER in the
    session of the batch tool does not call it (the batch loop does, later,
    once per image); clicks, other mouse events and [R] never call it,
    whatever the session holds. *)
Theorem predict_call_sites
    (predict : predictor) (img : image) (path dest : string) (s : session) :
  (click_points s <> [] ->
   calls_predict (fst (BatchSegment.on_key predict img KEY_SPACE s)) = true /\
   calls_predict (fst (SingleSegment.on_key predict img path dest KEY_SPACE s)) = true /\
   calls_predict (fst (SingleSegment.on_key predict img path dest KEY_ENTER s)) = true) /\
  calls_predict (fst (BatchSegment.on_key predict img KEY_ENTER s)) = false /\
  (forall event x y, calls_predict (fst (mouse_callback event x y s)) = false) /\
  calls_predict (fst (BatchSegment.on_key predict img KEY_R s)) = false /\
  calls_predict (fst (SingleSegment.on_key predict img path dest KEY_R s)) = false.
Proof.
  split.
  - intros Hne.
    unfold BatchSegment.on_key, SingleSegment.on_key.
    destruct (click_points s) as [| p ps] eqn:E; [contradiction |].
    cbn.
    repeat split.
    + destruct (predict img (p :: ps) (click_labels s)) as [| [| m ms]]; reflexivity.
    + destruct (predict img (p :: ps) (click_labels s)) as [| [| m ms]]; reflexivity.
    + destruct (predict img (p :: ps) (click_labels s)) as [| [| m ms]];
        try reflexivity.
      destruct (String.eqb dest EmptyString); reflexivity.
  - split.
    + unfold BatchSegment.on_key.
      change (KEY_ENTER =? KEY_SPACE) with false.
      change (KEY_ENTER =? KEY_R) with false.
      change (KEY_ENTER =? KEY_ENTER) with true. cbn iota.
      destruct (Z.of_nat (List.length (click_points s)) =? 0); reflexivity.
    + split; [intros; apply mouse_callback_no_predict |].
      split; reflexivity.
Qed.

(** A session with one point, and the session before its first click. *)
Lemma predict_call_sites_witness :
  (calls_predict (fst (BatchSegment.on_key Ex.predict Ex.ref KEY_SPACE Ex.one_click)) = true /\
   calls_predict (fst (SingleSegment.on_key Ex.predict Ex.ref "a.png" "out" KEY_SPACE Ex.one_click)) = true /\
   calls_predict (fst (SingleSegment.on_key Ex.predict Ex.ref "a.png" "out" KEY_ENTER Ex.one_click)) = true) /\
  calls_predict (fst (BatchSegment.on_key Ex.predict Ex.ref KEY_ENTER Ex.one_click)) = false /\
  (forall event x y, calls_predict (fst (mouse_callback event x y Ex.one_click)) = false) /\
  calls_predict (fst (BatchSegment.on_key Ex.predict Ex.ref KEY_R Ex.one_click)) = false /\
  calls_predict (fst (SingleSegment.on_key Ex.predict Ex.ref "a.png" "out" KEY_R Ex.one_click)) = false /\
  (forall event x y,
      calls_predict (fst (mouse_callback event x y (fresh_session Ex.ref))) = false) /\
  calls_predict (fst (BatchSegment.on_key Ex.predict Ex.ref KEY_R (fresh_session Ex.ref)))
  = false.
Proof.
  destruct (predict_call_sites Ex.predict Ex.ref "a.png" "out" Ex.one_click)
    as (Hcalls & Henter & Hmouse & HR & HR1).
  destruct (predict_call_sites Ex.predict Ex.ref "a.png" "out" (fresh_session Ex.ref))
    as (_ & _ & Hmouse0 & HR0 & _).
  split; [apply Hcalls; discriminate |].
  repeat split; assumption.
Defined.

(** *** Thresholding *)

Lemma Forall2_map_r {A B : Type} (P : A -> B -> Prop) (f : A -> B) (l : list A) :
  Forall (fun a => P a (f a)) l -> Forall2 P l (map f l).
Proof. induction 1; cbn; constructor; assumption. Qed.

Lemma threshold_pixel (v : Z) :
  thresholded v (BatchSegment.astype_uint8 (if 0 <? v then 255 else 0)).
Proof.
  unfold thresholded. destruct (Z.ltb_spec 0 v); [left | right]; split;
    try assumption; reflexivity.
Qed.

Lemma single_pixel_eq (v : Z) :
  SingleSegment.astype_uint8
    (SingleSegment.astype_uint8 (if 0 <? v then 1 else 0) * 255)
  = BatchSegment.astype_uint8 (if 0 <? v then 255 else 0).
Proof. destruct (0 <? v); reflexivity. Qed.

Lemma single_binary_mask_eq (m : mask) :
  SingleSegment.binary_mask m = BatchSegment.binary_mask m.
Proof.
  unfold SingleSegment.binary_mask, BatchSegment.binary_mask.
  apply map_ext. intros row. apply map_ext. intros v. apply single_pixel_eq.
Qed.

(** C6: the binary mask has the rows and columns of the raw mask
    ([Forall2] relates the two rasters position by position, so their
    shapes agree), a pixel is 255 exactly when its raw value is greater
    than 0 and is 0 otherwise, both tools compute the same raster, and the
    raw values [-1, 0, 1, 5] give [0, 0, 255, 255]. *)
Theorem threshold_spec (m : mask) :
  Forall2 (Forall2 thresholded) m (BatchSegment.binary_mask m) /\
  SingleSegment.binary_mask m = BatchSegment.binary_mask m /\
  BatchSegment.binary_mask [[-1; 0; 1; 5]] = [[0; 0; 255; 255]] /\
  SingleSegment.binary_mask [[-1; 0; 1; 5]] = [[0; 0; 255; 255]].
Proof.
  split; [| split; [apply single_binary_mask_eq | split; reflexivity]].
  unfold BatchSegment.binary_mask.
  apply Forall2_map_r, Forall_forall. intros row _.
  apply Forall2_map_r, Forall_forall. intros v _.
  apply threshold_pixel.
Qed.

(** *** The batch loop *)

Section BatchLoopFacts.
Variable imread : string -> option image.
Variable predict : predictor.
Variables INPUT_FOLDER OUTPUT_FOLDER : string.
Variable relative_points : list (Float64.float64 * Float64.float64).
Variable prompt_labels : list Z.

Local Abbreviation loop := (BatchSegment.batch_loop imread predict INPUT_FOLDER
                    OUTPUT_FOLDER relative_points prompt_labels).

(** A prefix that runs to its end is followed by the run of the rest. *)
Lemma batch_loop_app (pre post : list string) (t : trace) :
  loop pre = (t, None) ->
  loop (pre ++ post) = (t ++ fst (loop post), snd (loop post)).
Proof.
  revert t. induction pre as [| f pre IH]; intros t H.
  - cbn in H. injection H as <-. cbn. now destruct (loop post).
  - cbn [BatchSegment.batch_loop app] in *.
    destruct (imread (Py.join INPUT_FOLDER f)) as [img |].
    + destruct (predict img _ prompt_labels) as [| [| m ms]]; try discriminate.
      * destruct (loop pre) as [t1 r1]. cbn [fst snd] in *.
        injection H as <- ->. rewrite (IH _ eq_refl). reflexivity.
      * destruct (loop pre) as [t1 r1]. cbn [fst snd] in *.
        injection H as <- ->. rewrite (IH _ eq_refl). reflexivity.
    + destruct (loop pre) as [t1 r1]. cbn [fst snd] in *.
      injection H as <- ->. rewrite (IH _ eq_refl). reflexivity.
Qed.

(** An exception ends the loop whatever follows. *)
Lemma batch_loop_abort (pre post : list string) (t : trace) (e : exn) :
  loop pre = (t, Some e) -> loop (pre ++ post) = (t, Some e).
Proof.
  revert t. induction pre as [| f pre IH]; intros t H; [discriminate |].
  cbn [BatchSegment.batch_loop app] in *.
  destruct (imread (Py.join INPUT_FOLDER f)) as [img |].
  - destruct (predict img _ prompt_labels) as [| [| m ms]]; [assumption | |].
    + destruct (loop pre) as [t1 r1]. cbn [fst snd] in *.
      injection H as <- ->. rewrite (IH _ eq_refl). reflexivity.
    + destruct (loop pre) as [t1 r1]. cbn [fst snd] in *.
      injection H as <- ->. rewrite (IH _ eq_refl). reflexivity.
  - destruct (loop pre) as [t1 r1]. cbn [fst snd] in *.
    injection H as <- ->. rewrite (IH _ eq_refl). reflexivity.
Qed.
End BatchLoopFacts.

(** C7: an image that does not load is skipped and the loop goes on. When
    the loop has run through the files before it, the file [bad] for which
    [cv2.imread] gives [None] adds the diagnostic carrying its name and
    nothing else, and what follows is exactly the run of the loop over the
    files after it, in their order. *)
Theorem load_failure_is_skipped
    (imread : string -> option image) (predict : predictor)
    (INPUT_FOLDER OUTPUT_FOLDER : string)
    (relative_points : list (Float64.float64 * Float64.float64))
    (prompt_labels : list Z)
    (pre post : list string) (bad : string) (t : trace) :
  imread (Py.join INPUT_FOLDER bad) = None ->
  BatchSegment.batch_loop imread predict INPUT_FOLDER OUTPUT_FOLDER
    relative_points prompt_labels pre = (t, None) ->
  BatchSegment.batch_loop imread predict INPUT_FOLDER OUTPUT_FOLDER
    relative_points prompt_labels (pre ++ bad :: post)
  = (t ++ Print (MsgProcessing bad) :: Print (MsgCouldNotLoad bad)
       :: fst (BatchSegment.batch_loop imread predict INPUT_FOLDER
                 OUTPUT_FOLDER relative_points prompt_labels post),
     snd (BatchSegment.batch_loop imread predict INPUT_FOLDER
            OUTPUT_FOLDER relative_points prompt_labels post)).
Proof.
  intros Hbad Hpre.
  rewrite (batch_loop_app _ _ _ _ _ _ _ _ _ Hpre).
  cbn [BatchSegment.batch_loop]. rewrite Hbad. reflexivity.
Qed.

(** Three images, the second unreadable: masks are written for the first
    and the third, with the diagnostic for the second in between. *)
Lemma load_failure_is_skipped_witness :
  BatchSegment.batch_loop Ex.imread Ex.predict "in" "out"
    Ex.relative_points [1] (["a.png"%string] ++ "b.png"%string :: ["c.png"%string])
  = ([Print (MsgProcessing "a.png"); SetImage Ex.imgA;
      Predict Ex.imgA [(100, 25)] [1];
      Imwrite "out/a_mask.png" [[0; 255]; [255; 0]];
      Print (MsgSaved "out/a_mask.png");
      Print (MsgProcessing "b.png"); Print (MsgCouldNotLoad "b.png");
      Print (MsgProcessing "c.png"); SetImage Ex.imgC;
      Predict Ex.imgC [(30, 40)] [1];
      Imwrite "out/c_mask.png" [[0; 255]; [255; 0]];
      Print (MsgSaved "out/c_mask.png")],
     None).
Proof.
  exact (load_failure_is_skipped Ex.imread Ex.predict "in" "out"
           Ex.relative_points [1] ["a.png"%string] ["c.png"%string] "b.png" _
           eq_refl eq_refl).
Defined.

(** C8, as stated, fails: when [predict] raises on the first of two images
    the loop is left with the exception; the second image is not started
    and no mask is written for it. *)
Lemma predict_exception_aborts_batch :
  let run := BatchSegment.batch_loop Ex.imread Ex.faulty_predict "in" "out"
               Ex.relative_points [1] ["a.png"; "c.png"]%string in
  run = ([Print (MsgProcessing "a.png"); SetImage Ex.imgA;
          Predict Ex.imgA [(100, 25)] [1]], Some PredictError) /\
  writes_mask "out/c_mask.png" (fst run) = false.
Proof.
  cbv zeta. split; reflexivity.
Qed.

(** C8, amended: in the batch loop a [predict] call that returns no
    candidate writes no mask for that image, prints nothing about it, and
    the loop goes on with the remaining images; a [predict] call that raises
    is not caught, the exception leaves the loop and no later image is
    processed. This holds for every predictor and every file the loop
    reaches. In the session a raising [predict] ends SPACE, and with it the
    session, with that exception. *)
Theorem predict_failure_in_batch
    (imread : string -> option image) (predict : predictor)
    (INPUT_FOLDER OUTPUT_FOLDER : string)
    (relative_points : list (Float64.float64 * Float64.float64))
    (prompt_labels : list Z)
    (pre rest : list string) (f : string) (img : image) (t : trace)
    (ref : image) (evs evs' : list ui_event) (t0 : trace) (s : session)
    (code : Z) :
  (BatchSegment.batch_loop imread predict INPUT_FOLDER OUTPUT_FOLDER
     relative_points prompt_labels pre = (t, None) ->
   imread (Py.join INPUT_FOLDER f) = Some img ->
   let absolute_points :=
     map (BatchSegment.to_absolute (img_w img) (img_h img)) relative_points in
   let continued :=
     BatchSegment.batch_loop imread predict INPUT_FOLDER OUTPUT_FOLDER
       relative_points prompt_labels rest in
   let started :=
     [Print (MsgProcessing f); SetImage img;
      Predict img absolute_points prompt_labels] in
   BatchSegment.batch_loop imread predict INPUT_FOLDER OUTPUT_FOLDER
     relative_points prompt_labels (pre ++ f :: rest)
   = match predict img absolute_points prompt_labels with
     | PredictRaises => (t ++ started, Some PredictError)
     | PredictReturns [] => (t ++ started ++ fst continued, snd continued)
     | PredictReturns (m :: _) =>
         (t ++ started
            ++ Imwrite (BatchSegment.output_path OUTPUT_FOLDER f)
                 (BatchSegment.binary_mask m)
            :: Print (MsgSaved (BatchSegment.output_path OUTPUT_FOLDER f))
            :: fst continued,
          snd continued)
     end) /\
  (click_points s <> [] ->
   predict ref (click_points s) (click_labels s) = PredictRaises ->
   BatchSegment.on_key predict ref KEY_SPACE s
   = ([Print MsgGeneratingPreview;
       Predict ref (click_points s) (click_labels s)], Raised PredictError) /\
   (key_loop (BatchSegment.on_key predict ref) evs (fresh_session ref)
    = (t0, Waiting s) ->
    Z.land code 255 = KEY_SPACE ->
    key_loop (BatchSegment.on_key predict ref) (evs ++ WaitKey code :: evs')
      (fresh_session ref)
    = (t0 ++ [Print MsgGeneratingPreview;
              Predict ref (click_points s) (click_labels s)],
       Crashed PredictError))).
Proof.
  split.
  - intros Hpre Himg. cbv zeta.
    rewrite (batch_loop_app _ _ _ _ _ _ _ _ _ Hpre).
    cbn [BatchSegment.batch_loop]. rewrite Himg.
    destruct (predict img _ prompt_labels) as [| [| m ms]]; reflexivity.
  - intros Hne Hraise.
    assert (Hkey : BatchSegment.on_key predict ref KEY_SPACE s
                   = ([Print MsgGeneratingPreview;
                       Predict ref (click_points s) (click_labels s)],
                      Raised PredictError)).
    { unfold BatchSegment.on_key. rewrite Hraise.
      destruct (click_points s) as [| p ps]; [contradiction | reflexivity]. }
    split; [exact Hkey |].
    intros Hrun Hcode.
    rewrite (key_loop_app _ _ _ _ _ _ Hrun). cbn [key_loop].
    rewrite Hcode, Hkey. reflexivity.
Qed.

(** The loop over [c.png], for which the predictor returns no candidate,
    and [a.png], for which it raises; and SPACE after one click on [a.png]
    as the reference image. *)
Lemma predict_failure_in_batch_witness :
  BatchSegment.batch_loop Ex.imread Ex.faulty_predict "in" "out"
    Ex.relative_points [1] ([] ++ "c.png"%string :: ["a.png"%string])
  = ([Print (MsgProcessing "c.png"); SetImage Ex.imgC;
      Predict Ex.imgC [(30, 40)] [1];
      Print (MsgProcessing "a.png"); SetImage Ex.imgA;
      Predict Ex.imgA [(100, 25)] [1]], Some PredictError) /\
  BatchSegment.on_key Ex.faulty_predict Ex.imgA KEY_SPACE
    (snd (mouse_callback Cv2.EVENT_LBUTTONDOWN 50 50 (fresh_session Ex.imgA)))
  = ([Print MsgGeneratingPreview; Predict Ex.imgA [(50, 50)] [1]],
     Raised PredictError) /\
  snd (key_loop (BatchSegment.on_key Ex.faulty_predict Ex.imgA)
         ([Mouse Cv2.EVENT_LBUTTONDOWN 50 50]
            ++ WaitKey KEY_SPACE :: [WaitKey KEY_ENTER])
         (fresh_session Ex.imgA))
  = Crashed PredictError.
Proof.
  destruct (predict_failure_in_batch Ex.imread Ex.faulty_predict "in" "out"
              Ex.relative_points [1] [] ["a.png"%string] "c.png" Ex.imgC []
              Ex.imgA [Mouse Cv2.EVENT_LBUTTONDOWN 50 50] [WaitKey KEY_ENTER]
              (fst (key_loop (BatchSegment.on_key Ex.faulty_predict Ex.imgA)
                      [Mouse Cv2.EVENT_LBUTTONDOWN 50 50] (fresh_session Ex.imgA)))
              (snd (mouse_callback Cv2.EVENT_LBUTTONDOWN 50 50
                      (fresh_session Ex.imgA)))
              KEY_SPACE) as [Hloop Hsession].
  split; [exact (Hloop eq_refl eq_refl) |].
  destruct (Hsession ltac:(discriminate) eq_refl) as [Hkey Hrun].
  split; [exact Hkey |].
  rewrite (Hrun eq_refl eq_refl). reflexivity.
Defined.

(** *** The file filter *)

Lemma image_files_In (listing : list string) (name : string) :
  In name (BatchSegment.image_files listing) <->
  In name listing /\
  Py.endswith (Py.lower name) BatchSegment.batch_suffixes = true.
Proof. unfold BatchSegment.image_files. apply filter_In. Qed.

(** C9: the batch filter tests the five suffixes [.png .jpg .jpeg .tif .bmp];
    a name ending in [.tiff], which the patterns of the reference-image
    dialog accept, does not pass it. Here the folder listing holds a [.tiff]
    and a [.tif] file and only the latter is kept. *)
Theorem tiff_is_filtered_out :
  BatchSegment.image_files ["wing.tiff"; "wing.tif"]%string = ["wing.tif"%string] /\
  Py.endswith (Py.lower "wing.tiff") BatchSegment.chooser_suffixes = true /\
  Py.endswith (Py.lower "wing.tiff") BatchSegment.batch_suffixes = false.
Proof. repeat split. Qed.

(** C10: a run in which the chosen reference image is [in/ref.tiff]. The
    run completes, a mask is written for the other image of the folder and
    none for the reference image, which the filter has dropped from the
    batch. *)
Theorem tiff_reference_gets_no_mask :
  let run := BatchSegment.process_images Ex.tiff_world in
  snd run = BatchSegment.Completed /\
  BatchSegment.image_files
    (BatchSegment.listdir Ex.tiff_world (Py.dirname "in/ref.tiff"))
  = ["a.png"%string] /\
  writes_mask "out/a_mask.png" (fst run) = true /\
  writes_mask "out/ref_mask.png" (fst run) = false /\
  filter is_predict (fst run) = [Predict Ex.imgA [(100, 25)] [1]].
Proof. cbv zeta. repeat split. Qed.

(** *** Relative coordinates *)

Lemma valid_image_bounds (img : image) :
  valid_image img ->
  0 < img_w img <= 2 ^ 52 /\ 0 < img_h img <= 2 ^ 52.
Proof.
  unfold valid_image, INT_MAX. intros [Hh Hw].
  assert (2 ^ 31 - 1 <= 2 ^ 52) by (vm_compute; discriminate).
  lia.
Qed.

(** C2: a pixel of an image, divided by the width and the height of that
    image and brought back by [to_absolute] for the same width and height,
    comes back within one pixel on each axis; more precisely each
    coordinate comes back as itself or as the pixel just before it. The
    image is any image OpenCV can hold: rows and columns are positive C
    ints. *)
Theorem round_trip_within_one_pixel (img : image) (x y : Z) :
  valid_image img ->
  0 <= x < img_w img ->
  0 <= y < img_h img ->
  let p' := BatchSegment.to_absolute (img_w img) (img_h img)
              (BatchSegment.to_relative (img_w img) (img_h img) (x, y)) in
  Z.abs (fst p' - x) <= 1 /\ Z.abs (snd p' - y) <= 1 /\
  x - 1 <= fst p' <= x /\ y - 1 <= snd p' <= y.
Proof.
  intros Hvalid Hx Hy.
  destruct (valid_image_bounds img Hvalid) as [Hw Hh].
  unfold BatchSegment.to_absolute, BatchSegment.to_relative. cbn [fst snd].
  pose proof (Float64Facts.round_trip_axis x (img_w img) Hx ltac:(lia)) as Rx.
  pose proof (Float64Facts.round_trip_axis y (img_h img) Hy ltac:(lia)) as Ry.
  cbv zeta. lia.
Qed.

(** On an image 49 pixels wide the pixel x = 1 comes back as x = 0. *)
Lemma round_trip_within_one_pixel_witness :
  let p' := BatchSegment.to_absolute (img_w Ex.img49) (img_h Ex.img49)
              (BatchSegment.to_relative (img_w Ex.img49) (img_h Ex.img49) (1, 50)) in
  Z.abs (fst p' - 1) <= 1 /\ Z.abs (snd p' - 50) <= 1 /\
  1 - 1 <= fst p' <= 1 /\ 50 - 1 <= snd p' <= 50.
Proof.
  apply (round_trip_within_one_pixel Ex.img49 1 50).
  - unfold valid_image, INT_MAX. cbn. lia.
  - cbn. lia.
  - cbn. lia.
Defined.

Example round_trip_loses_a_pixel :
  BatchSegment.to_absolute 49 100 (BatchSegment.to_relative 49 100 (1, 50))
  = (0, 50).
Proof. vm_compute. reflexivity. Qed.

(** C3, as stated, fails: at the relative coordinate 1.0 the result is the
    dimension itself, outside [[0, dimension - 1]]; and 7/8 of 2, whose
    product is exactly 7/4, gives 1 where the nearest integer is 2. *)
Lemma to_absolute_neither_rounds_nor_clamps :
  Float64.in_unit_interval Float64.one = true /\
  BatchSegment.to_absolute 100 100 (Float64.one, Float64.one) = (100, 100) /\
  Float64.in_unit_interval Ex.seven_eighths = true /\
  Float64.mul Ex.seven_eighths (Float64.of_int 2)
  = Float64.div (Float64.of_int 7) (Float64.of_int 4) /\
  BatchSegment.to_absolute 2 2 (Ex.seven_eighths, Ex.seven_eighths) = (1, 1).
Proof. vm_compute. repeat split. Qed.

(** C3, amended: [to_absolute] multiplies each relative coordinate by the
    width, respectively the height, in float64 and converts the product with
    [astype(int)], which drops the fractional part; nothing is clamped. For
    relative coordinates between 0.0 and 1.0 and the dimensions of an image
    the result lies between 0 and the dimension, the dimension included, and
    the dimension is what 1.0 gives. *)
Theorem to_absolute_truncates_unclamped
    (img : image) (fx fy : Float64.float64) :
  valid_image img ->
  Float64.in_unit_interval fx = true ->
  Float64.in_unit_interval fy = true ->
  let p := BatchSegment.to_absolute (img_w img) (img_h img) (fx, fy) in
  p = (Float64.astype_int (Float64.mul fx (Float64.of_int (img_w img))),
       Float64.astype_int (Float64.mul fy (Float64.of_int (img_h img)))) /\
  0 <= fst p <= img_w img /\
  0 <= snd p <= img_h img /\
  BatchSegment.to_absolute (img_w img) (img_h img) (Float64.one, Float64.one)
  = (img_w img, img_h img).
Proof.
  intros Hvalid Hfx Hfy.
  destruct (valid_image_bounds img Hvalid) as [Hw Hh].
  unfold BatchSegment.to_absolute. cbn [fst snd]. cbv zeta.
  split; [reflexivity |].
  split; [apply Float64Facts.to_absolute_axis_range; assumption |].
  split; [apply Float64Facts.to_absolute_axis_range; assumption |].
  rewrite !Float64Facts.to_absolute_axis_at_one by assumption. reflexivity.
Qed.

Lemma to_absolute_truncates_unclamped_witness :
  let p := BatchSegment.to_absolute (img_w Ex.imgA) (img_h Ex.imgA)
             (Ex.seven_eighths, Float64.one) in
  p = (Float64.astype_int
         (Float64.mul Ex.seven_eighths (Float64.of_int (img_w Ex.imgA))),
       Float64.astype_int
         (Float64.mul Float64.one (Float64.of_int (img_h Ex.imgA)))) /\
  0 <= fst p <= img_w Ex.imgA /\
  0 <= snd p <= img_h Ex.imgA /\
  BatchSegment.to_absolute (img_w Ex.imgA) (img_h Ex.imgA)
    (Float64.one, Float64.one)
  = (img_w Ex.imgA, img_h Ex.imgA).
Proof.
  apply (to_absolute_truncates_unclamped Ex.imgA Ex.seven_eighths Float64.one).
  - unfold valid_image, INT_MAX. cbn. lia.
  - vm_compute. reflexivity.
  - vm_compute. reflexivity.
Defined.

(** *** The key loop: invariants *)

Section KeyLoopInvariant.
Context {R : Type}.
Variable on_key : Z -> session -> trace * control R.
Variable I : session -> Prop.
Hypothesis I_mouse : forall event x y s, I s -> I (snd (mouse_callback event x y s)).
Hypothesis I_key : forall key s t s', I s -> on_key key s = (t, Continue s') -> I s'.

Lemma key_loop_invariant (evs : list ui_event) :
  forall s t s', I s -> key_loop on_key evs s = (t, Waiting s') -> I s'.
Proof.
  induction evs as [| ev evs IH]; intros s t s' Hs H.
  - cbn in H. injection H as _ <-. exact Hs.
  - destruct ev as [event x y | code]; cbn [key_loop] in H.
    + pose proof (I_mouse event x y s Hs) as Hs1.
      destruct (mouse_callback event x y s) as [t0 s0]. cbn [snd] in Hs1.
      destruct (key_loop on_key evs s0) as [t1 r1] eqn:E1.
      injection H as _ ->. eapply IH; eassumption.
    + destruct (on_key (Z.land code 255) s) as [t0 [s0 | r | | e]] eqn:E0;
        try discriminate.
      destruct (key_loop on_key evs s0) as [t1 r1] eqn:E1.
      injection H as _ ->. eapply IH; [| eassumption]. eapply I_key; eassumption.
Qed.

(** A run that returns does so from a state that satisfies the invariant. *)
Lemma key_loop_returned (evs : list ui_event) :
  forall s t r, I s -> key_loop on_key evs s = (t, Returned r) ->
    exists s' key t', I s' /\ on_key key s' = (t', Return r).
Proof.
  induction evs as [| ev evs IH]; intros s t r Hs H.
  - discriminate.
  - destruct ev as [event x y | code]; cbn [key_loop] in H.
    + pose proof (I_mouse event x y s Hs) as Hs1.
      destruct (mouse_callback event x y s) as [t0 s0]. cbn [snd] in Hs1.
      destruct (key_loop on_key evs s0) as [t1 r1] eqn:E1.
      injection H as _ ->. eapply IH; eassumption.
    + destruct (on_key (Z.land code 255) s) as [t0 [s0 | r0 | | e]] eqn:E0;
        try discriminate.
      * destruct (key_loop on_key evs s0) as [t1 r1] eqn:E1.
        injection H as _ ->. eapply IH; [| eassumption]. eapply I_key; eassumption.
      * injection H as _ <-. exists s, (Z.land code 255), t0. split; assumption.
Qed.

Variable P : effect -> Prop.
Hypothesis P_mouse : forall event x y s, I s -> Forall P (fst (mouse_callback event x y s)).
Hypothesis P_key : forall key s, I s -> Forall P (fst (on_key key s)).
Hypothesis P_show : forall s, I s -> P (show s).

(** Every effect of a run from a state that satisfies the invariant. *)
Lemma key_loop_Forall (evs : list ui_event) :
  forall s, I s -> Forall P (fst (key_loop on_key evs s)).
Proof.
  induction evs as [| ev evs IH]; intros s Hs.
  - constructor.
  - destruct ev as [event x y | code]; cbn [key_loop].
    + pose proof (I_mouse event x y s Hs) as Hs1.
      pose proof (P_mouse event x y s Hs) as Hp.
      destruct (mouse_callback event x y s) as [t0 s0]. cbn [fst snd] in *.
      specialize (IH s0 Hs1).
      destruct (key_loop on_key evs s0) as [t1 r1]. cbn [fst] in *.
      apply Forall_app. split; assumption.
    + pose proof (P_key (Z.land code 255) s Hs) as Hp.
      destruct (on_key (Z.land code 255) s) as [t0 [s0 | r0 | | e]] eqn:E0;
        cbn [fst] in *; try assumption.
      assert (Hs0 : I s0) by (eapply I_key; eassumption).
      specialize (IH s0 Hs0).
      destruct (key_loop on_key evs s0) as [t1 r1]. cbn [fst] in *.
      apply Forall_app. split; [assumption |]. constructor; [apply P_show |]; assumption.
Qed.
End KeyLoopInvariant.

Section KeyLoopEnd.
Context {R : Type}.
Variable on_key : Z -> session -> trace * control R.

(** Once the loop is left, later events are not looked at. *)
Lemma key_loop_absorbs (evs evs' : list ui_event) :
  forall s t r, key_loop on_key evs s = (t, r) -> not_waiting r ->
    key_loop on_key (evs ++ evs') s = (t, r).
Proof.
  induction evs as [| ev evs IH]; intros s t r H Hr.
  - cbn in H. injection H as _ <-. contradiction.
  - destruct ev as [event x y | code]; cbn [key_loop app] in *.
    + destruct (mouse_callback event x y s) as [t0 s0].
      destruct (key_loop on_key evs s0) as [t1 r1] eqn:E1.
      injection H as <- <-. rewrite (IH _ _ _ E1 Hr). reflexivity.
    + destruct (on_key (Z.land code 255) s) as [t0 [s0 | r0 | | e]]; try assumption.
      destruct (key_loop on_key evs s0) as [t1 r1] eqn:E1.
      injection H as <- <-. rewrite (IH _ _ _ E1 Hr). reflexivity.
Qed.
End KeyLoopEnd.

(** *** The variables of a session *)

Lemma circles_of_snoc (pts : list point) (lbls : list Z) (p : point) (l : Z) :
  List.length pts = List.length lbls ->
  circles_of (pts ++ [p]) (lbls ++ [l]) = circles_of pts lbls ++ [circle_of p l].
Proof.
  revert lbls. induction pts as [| q pts IH]; intros [| k lbls] H;
    try discriminate; cbn in *.
  - reflexivity.
  - f_equal. apply IH. lia.
Qed.

Lemma circles_of_length (pts : list point) (lbls : list Z) :
  List.length pts = List.length lbls ->
  List.length (circles_of pts lbls) = List.length pts.
Proof.
  revert lbls. induction pts as [| q pts IH]; intros [| k lbls] H;
    try discriminate; cbn in *; [reflexivity |]. f_equal. apply IH. lia.
Qed.

Lemma session_inv_fresh (img : image) : session_inv img (fresh_session img).
Proof. repeat split. constructor. Qed.

Lemma session_inv_mouse (img : image) (event x y : Z) (s : session) :
  session_inv img s -> session_inv img (snd (mouse_callback event x y s)).
Proof.
  intros (Hlen & Hlbl & Hbase & Hdisp). unfold mouse_callback.
  destruct (event =? Cv2.EVENT_LBUTTONDOWN);
    [| destruct (event =? Cv2.EVENT_RBUTTONDOWN)]; cbn [snd].
  - unfold session_inv. cbn [click_points click_labels base_image display_image].
    rewrite !length_app, Hlen, circles_of_snoc, Hdisp by assumption.
    repeat split; try assumption.
    apply Forall_app. split; [assumption | constructor; [right; reflexivity | constructor]].
  - unfold session_inv. cbn [click_points click_labels base_image display_image].
    rewrite !length_app, Hlen, circles_of_snoc, Hdisp by assumption.
    repeat split; try assumption.
    apply Forall_app. split; [assumption | constructor; [left; reflexivity | constructor]].
  - repeat split; assumption.
Qed.

Lemma session_inv_reset (img : image) (s : session) :
  session_inv img s -> reset_session s = fresh_session img.
Proof. intros (_ & _ & Hbase & _). unfold reset_session, fresh_session. now rewrite Hbase. Qed.

Lemma session_inv_with_preview (img : image) (s : session) (m : mask) :
  session_inv img s -> session_inv img (with_preview s m).
Proof. intros H. exact H. Qed.

Lemma session_inv_batch_key (predict : predictor) (img : image)
    (key : Z) (s s' : session) (t : trace) :
  session_inv img s ->
  BatchSegment.on_key predict img key s = (t, Continue s') ->
  session_inv img s'.
Proof.
  intros Hs. unfold BatchSegment.on_key.
  destruct (key =? KEY_SPACE).
  { destruct (Z.of_nat (List.length (click_points s)) =? 0).
    - intros H. injection H as _ <-. exact Hs.
    - destruct (predict img (click_points s) (click_labels s)) as [| [| m ms]];
        try discriminate.
      intros H. injection H as _ <-. exact Hs. }
  destruct (key =? KEY_R).
  { intros H. injection H as _ <-.
    rewrite (session_inv_reset img s Hs). apply session_inv_fresh. }
  destruct (key =? KEY_ENTER).
  { destruct (Z.of_nat (List.length (click_points s)) =? 0); try discriminate.
    intros H. injection H as _ <-. exact Hs. }
  destruct (key =? KEY_Q); try discriminate.
  intros H. injection H as _ <-. exact Hs.
Qed.

Lemma session_inv_single_key (predict : predictor) (img : image)
    (path dest : string) (key : Z) (s s' : session) (t : trace) :
  session_inv img s ->
  SingleSegment.on_key predict img path dest key s = (t, Continue s') ->
  session_inv img s'.
Proof.
  intros Hs. unfold SingleSegment.on_key.
  destruct (key =? KEY_SPACE).
  { destruct (click_points s) as [| p ps] eqn:Ep.
    - intros H. injection H as _ <-. exact Hs.
    - destruct (predict img (p :: ps) (click_labels s)) as [| [| m ms]];
        try discriminate.
      intros H. injection H as _ <-. exact Hs. }
  destruct (key =? KEY_R).
  { intros H. injection H as _ <-.
    rewrite (session_inv_reset img s Hs). apply session_inv_fresh. }
  destruct (key =? KEY_ENTER).
  { destruct (click_points s) as [| p ps] eqn:Ep.
    - intros H. injection H as _ <-. exact Hs.
    - destruct (predict img (p :: ps) (click_labels s)) as [| [| m ms]];
        try discriminate.
      destruct (String.eqb dest EmptyString); discriminate. }
  destruct (key =? KEY_Q); try discriminate.
  intros H. injection H as _ <-. exact Hs.
Qed.

(** X1: the variables of a session, in either tool, satisfy [session_inv]
    whenever the key loop waits for the next event, whatever the events
    so far. *)
Theorem session_invariant
    (predict : predictor) (img : image) (path dest : string)
    (evs : list ui_event) (t : trace) (s : session) :
  key_loop (BatchSegment.on_key predict img) evs (fresh_session img)
  = (t, Waiting s) \/
  key_loop (SingleSegment.on_key predict img path dest) evs (fresh_session img)
  = (t, Waiting s) ->
  session_inv img s.
Proof.
  intros [H | H].
  - eapply (key_loop_invariant _ (session_inv img)); [| | apply session_inv_fresh | exact H].
    + intros. now apply session_inv_mouse.
    + intros. eapply session_inv_batch_key; eassumption.
  - eapply (key_loop_invariant _ (session_inv img)); [| | apply session_inv_fresh | exact H].
    + intros. now apply session_inv_mouse.
    + intros. eapply session_inv_single_key; eassumption.
Qed.

Lemma session_invariant_witness :
  session_inv Ex.ref
    (snd (mouse_callback Cv2.EVENT_LBUTTONDOWN 50 60
            (with_preview
               (snd (mouse_callback Cv2.EVENT_RBUTTONDOWN 30 40
                       (snd (mouse_callback Cv2.EVENT_LBUTTONDOWN 10 20
                               (fresh_session Ex.ref))))) Ex.m2))).
Proof.
  apply (session_invariant Ex.predict Ex.ref "a.png" "out" ExRuns.three_clicks
           (fst (key_loop (BatchSegment.on_key Ex.predict Ex.ref) ExRuns.three_clicks
                   (fresh_session Ex.ref)))).
  left. reflexivity.
Defined.

(** *** What a session predicts and returns *)

(** X2: what a confirmed session of the batch tool hands to the batch loop:
    at least one relative point, one label per point, and every label 0
    or 1. *)
Theorem confirmed_output_is_paired
    (predict : predictor) (img : image) (evs : list ui_event) (t : trace)
    (relative_points : list (Float64.float64 * Float64.float64))
    (prompt_labels : list Z) :
  key_loop (BatchSegment.on_key predict img) evs (fresh_session img)
  = (t, Returned (relative_points, prompt_labels)) ->
  relative_points <> [] /\
  List.length relative_points = List.length prompt_labels /\
  Forall (fun l => l = 0 \/ l = 1) prompt_labels.
Proof.
  intros H.
  destruct (key_loop_returned (BatchSegment.on_key predict img) (session_inv img))
    with (evs := evs) (s := fresh_session img) (t := t)
         (r := (relative_points, prompt_labels))
    as (s' & key & t' & Hinv & Hkey).
  - intros. now apply session_inv_mouse.
  - intros. eapply session_inv_batch_key; eassumption.
  - apply session_inv_fresh.
  - exact H.
  - destruct Hinv as (Hlen & Hlbl & _ & _).
    unfold BatchSegment.on_key in Hkey.
    destruct (key =? KEY_SPACE).
    { destruct (Z.of_nat (List.length (click_points s')) =? 0); try discriminate.
      destruct (predict img (click_points s') (click_labels s')) as [| [| m ms]];
        discriminate. }
    destruct (key =? KEY_R); try discriminate.
    destruct (key =? KEY_ENTER).
    + destruct (Z.eqb_spec (Z.of_nat (List.length (click_points s'))) 0) as [E | E];
        try discriminate.
      injection Hkey as _ <- <-. rewrite length_map.
      repeat split; try assumption.
      destruct (click_points s'); [cbn in E; lia | discriminate].
    + destruct (key =? KEY_Q); discriminate.
Qed.

Lemma confirmed_output_is_paired_witness :
  Ex.relative_points <> [] /\
  List.length Ex.relative_points = List.length [1] /\
  Forall (fun l => l = 0 \/ l = 1) [1].
Proof.
  apply (confirmed_output_is_paired Ex.predict Ex.ref
           [Mouse Cv2.EVENT_LBUTTONDOWN 50 50; WaitKey KEY_ENTER]
           [Imshow (Plain (display_image Ex.one_click));
            Print MsgConfirmed; DestroyAllWindows]).
  reflexivity.
Defined.

Lemma well_formed_predict_batch_key (predict : predictor) (img : image)
    (key : Z) (s : session) :
  session_inv img s ->
  Forall (well_formed_predict img) (fst (BatchSegment.on_key predict img key s)).
Proof.
  intros (Hlen & _). unfold BatchSegment.on_key.
  destruct (key =? KEY_SPACE).
  { destruct (Z.eqb_spec (Z.of_nat (List.length (click_points s))) 0) as [E | E].
    - repeat constructor.
    - assert (Hne : click_points s <> []).
      { destruct (click_points s); [cbn in E; lia | discriminate]. }
      destruct (predict img (click_points s) (click_labels s)) as [| [| m ms]];
        cbn [fst]; repeat constructor; assumption. }
  destruct (key =? KEY_R); [repeat constructor |].
  destruct (key =? KEY_ENTER).
  { destruct (Z.of_nat (List.length (click_points s)) =? 0); repeat constructor. }
  destruct (key =? KEY_Q); repeat constructor.
Qed.

Lemma well_formed_predict_single_key (predict : predictor) (img : image)
    (path dest : string) (key : Z) (s : session) :
  session_inv img s ->
  Forall (well_formed_predict img)
    (fst (SingleSegment.on_key predict img path dest key s)).
Proof.
  intros (Hlen & _). unfold SingleSegment.on_key.
  destruct (key =? KEY_SPACE).
  { destruct (click_points s) as [| p ps] eqn:Ep; [constructor |].
    destruct (predict img (p :: ps) (click_labels s)) as [| [| m ms]];
      cbn [fst]; repeat constructor; (discriminate || assumption). }
  destruct (key =? KEY_R); [constructor |].
  destruct (key =? KEY_ENTER).
  { destruct (click_points s) as [| p ps] eqn:Ep; [repeat constructor |].
    destruct (predict img (p :: ps) (click_labels s)) as [| [| m ms]];
      cbn [fst]; try (repeat constructor; (discriminate || assumption)).
    destruct (String.eqb dest EmptyString); cbn [fst];
      repeat constructor; (discriminate || assumption). }
  destruct (key =? KEY_Q); constructor.
Qed.

Lemma well_formed_predict_mouse (img : image) (event x y : Z) (s : session) :
  Forall (well_formed_predict img) (fst (mouse_callback event x y s)).
Proof.
  unfold mouse_callback.
  destruct (event =? Cv2.EVENT_LBUTTONDOWN);
    [| destruct (event =? Cv2.EVENT_RBUTTONDOWN)]; repeat constructor.
Qed.

Lemma well_formed_predict_show (img : image) (s : session) :
  well_formed_predict img (show s).
Proof. unfold show. destruct (preview_mask s); exact I. Qed.

(** X3: in a session of either tool every call of [predict] is made on the
    loaded image, with at least one point and with as many labels as
    points. *)
Theorem session_predicts_on_paired_prompts
    (predict : predictor) (img : image) (path dest : string)
    (evs : list ui_event) :
  Forall (well_formed_predict img)
    (fst (key_loop (BatchSegment.on_key predict img) evs (fresh_session img))) /\
  Forall (well_formed_predict img)
    (fst (key_loop (SingleSegment.on_key predict img path dest) evs
            (fresh_session img))).
Proof.
  split.
  - apply (key_loop_Forall _ (session_inv img)).
    + intros. now apply session_inv_mouse.
    + intros. eapply session_inv_batch_key; eassumption.
    + intros. apply well_formed_predict_mouse.
    + intros. now apply well_formed_predict_batch_key.
    + intros. apply well_formed_predict_show.
    + apply session_inv_fresh.
  - apply (key_loop_Forall _ (session_inv img)).
    + intros. now apply session_inv_mouse.
    + intros. eapply session_inv_single_key; eassumption.
    + intros. apply well_formed_predict_mouse.
    + intros. now apply well_formed_predict_single_key.
    + intros. apply well_formed_predict_show.
    + apply session_inv_fresh.
Qed.

Lemma batch_on_key_R (predict : predictor) (img : image) (s : session) :
  BatchSegment.on_key predict img KEY_R s
  = ([Print MsgPointsReset; Imshow (Plain (display_image (reset_session s)))],
     Continue (reset_session s)).
Proof. reflexivity. Qed.

(** X4: [R] puts a session back to where it started. When the loop of the
    batch tool waits after the events [evs], an [R] key (any code whose low
    byte is 114) prints its message, shows the base image, and what follows
    is the run of the later events from the fresh session. *)
Theorem reset_restarts_the_session
    (predict : predictor) (img : image) (evs evs' : list ui_event)
    (t : trace) (s : session) (code : Z) :
  key_loop (BatchSegment.on_key predict img) evs (fresh_session img)
  = (t, Waiting s) ->
  Z.land code 255 = KEY_R ->
  key_loop (BatchSegment.on_key predict img) (evs ++ WaitKey code :: evs')
    (fresh_session img)
  = (t ++ Print MsgPointsReset
        :: Imshow (Plain (display_image (fresh_session img)))
        :: show (fresh_session img)
        :: fst (key_loop (BatchSegment.on_key predict img) evs' (fresh_session img)),
     snd (key_loop (BatchSegment.on_key predict img) evs' (fresh_session img))).
Proof.
  intros Hrun Hcode.
  assert (Hinv : session_inv img s).
  { eapply (key_loop_invariant _ (session_inv img));
      [| | apply session_inv_fresh | exact Hrun].
    - intros. now apply session_inv_mouse.
    - intros. eapply session_inv_batch_key; eassumption. }
  rewrite (key_loop_app _ _ _ _ _ _ Hrun). cbn [key_loop]. rewrite Hcode.
  rewrite batch_on_key_R, (session_inv_reset img s Hinv).
  destruct (key_loop (BatchSegment.on_key predict img) evs' (fresh_session img)).
  reflexivity.
Qed.

Lemma reset_restarts_the_session_witness :
  key_loop (BatchSegment.on_key Ex.predict Ex.ref)
    (ExRuns.three_clicks ++ WaitKey (114 + 256) :: [Mouse Cv2.EVENT_LBUTTONDOWN 1 2])
    (fresh_session Ex.ref)
  = (fst (key_loop (BatchSegment.on_key Ex.predict Ex.ref) ExRuns.three_clicks
            (fresh_session Ex.ref))
       ++ Print MsgPointsReset
       :: Imshow (Plain (display_image (fresh_session Ex.ref)))
       :: show (fresh_session Ex.ref)
       :: fst (key_loop (BatchSegment.on_key Ex.predict Ex.ref)
                 [Mouse Cv2.EVENT_LBUTTONDOWN 1 2] (fresh_session Ex.ref)),
     snd (key_loop (BatchSegment.on_key Ex.predict Ex.ref)
            [Mouse Cv2.EVENT_LBUTTONDOWN 1 2] (fresh_session Ex.ref))).
Proof.
  apply (reset_restarts_the_session Ex.predict Ex.ref ExRuns.three_clicks
           [Mouse Cv2.EVENT_LBUTTONDOWN 1 2] _
           (snd (mouse_callback Cv2.EVENT_LBUTTONDOWN 50 60
              (with_preview
                 (snd (mouse_callback Cv2.EVENT_RBUTTONDOWN 30 40
                         (snd (mouse_callback Cv2.EVENT_LBUTTONDOWN 10 20
                                 (fresh_session Ex.ref))))) Ex.m2)))
           (114 + 256)); reflexivity.
Defined.

(** *** Where a preview mask comes from *)

Lemma firstn_snoc_le {A : Type} (k : nat) (l : list A) (a : A) :
  (k <= List.length l)%nat -> firstn k (l ++ [a]) = firstn k l.
Proof.
  intros H. rewrite firstn_app.
  replace (k - List.length l)%nat with 0%nat by lia.
  cbn. apply app_nil_r.
Qed.

Lemma preview_from_mouse (predict : predictor) (img : image)
    (event x y : Z) (s : session) :
  session_inv img s -> preview_from predict img s ->
  preview_from predict img (snd (mouse_callback event x y s)).
Proof.
  intros (Hlen & _) Hp. unfold mouse_callback.
  destruct (event =? Cv2.EVENT_LBUTTONDOWN);
    [| destruct (event =? Cv2.EVENT_RBUTTONDOWN)]; cbn [snd]; try exact Hp.
  all: intros m Hm; cbn [preview_mask click_points click_labels] in *;
    destruct (Hp m Hm) as (k & rest & Hk & Hpred);
    exists k, rest; rewrite length_app; cbn [List.length];
    rewrite !firstn_snoc_le by lia; split; [lia | exact Hpred].
Qed.

Lemma preview_from_with_preview (predict : predictor) (img : image)
    (s : session) (m : mask) (ms : list mask) :
  click_points s <> [] ->
  session_inv img s ->
  predict img (click_points s) (click_labels s) = PredictReturns (m :: ms) ->
  preview_from predict img (with_preview s m).
Proof.
  intros Hne (Hlen & _) Hpred m' Hm'. cbn in Hm'. injection Hm' as <-.
  exists (List.length (click_points s)), ms.
  cbn [with_preview click_points click_labels].
  rewrite firstn_all.
  replace (firstn (List.length (click_points s)) (click_labels s))
    with (click_labels s) by (rewrite Hlen; symmetry; apply firstn_all).
  split; [| exact Hpred].
  destruct (click_points s); [contradiction | cbn; lia].
Qed.

Lemma preview_from_reset (predict : predictor) (img : image) (s : session) :
  preview_from predict img (reset_session s).
Proof. intros m Hm. discriminate. Qed.

Lemma preview_from_batch_key (predict : predictor) (img : image)
    (key : Z) (s s' : session) (t : trace) :
  session_inv img s -> preview_from predict img s ->
  BatchSegment.on_key predict img key s = (t, Continue s') ->
  preview_from predict img s'.
Proof.
  intros Hs Hp. unfold BatchSegment.on_key.
  destruct (key =? KEY_SPACE).
  { destruct (Z.eqb_spec (Z.of_nat (List.length (click_points s))) 0) as [E | E].
    - intros H. injection H as _ <-. exact Hp.
    - destruct (predict img (click_points s) (click_labels s)) as [| [| m ms]] eqn:Ep;
        try discriminate.
      intros H. injection H as _ <-.
      eapply preview_from_with_preview; try eassumption.
      destruct (click_points s); [cbn in E; lia | discriminate]. }
  destruct (key =? KEY_R).
  { intros H. injection H as _ <-. apply preview_from_reset. }
  destruct (key =? KEY_ENTER).
  { destruct (Z.of_nat (List.length (click_points s)) =? 0); try discriminate.
    intros H. injection H as _ <-. exact Hp. }
  destruct (key =? KEY_Q); try discriminate.
  intros H. injection H as _ <-. exact Hp.
Qed.

Lemma preview_from_single_key (predict : predictor) (img : image)
    (path dest : string) (key : Z) (s s' : session) (t : trace) :
  session_inv img s -> preview_from predict img s ->
  SingleSegment.on_key predict img path dest key s = (t, Continue s') ->
  preview_from predict img s'.
Proof.
  intros Hs Hp. unfold SingleSegment.on_key.
  destruct (key =? KEY_SPACE).
  { destruct (click_points s) as [| p ps] eqn:Ep.
    - intros H. injection H as _ <-. exact Hp.
    - destruct (predict img (p :: ps) (click_labels s)) as [| [| m ms]] eqn:Epr;
        try discriminate.
      intros H. injection H as _ <-.
      eapply preview_from_with_preview; try eassumption.
      + rewrite Ep. discriminate.
      + rewrite Ep. exact Epr. }
  destruct (key =? KEY_R).
  { intros H. injection H as _ <-. apply preview_from_reset. }
  destruct (key =? KEY_ENTER).
  { destruct (click_points s) as [| p ps] eqn:Ep.
    - intros H. injection H as _ <-. exact Hp.
    - destruct (predict img (p :: ps) (click_labels s)) as [| [| m ms]];
        try discriminate.
      destruct (String.eqb dest EmptyString); discriminate. }
  destruct (key =? KEY_Q); try discriminate.
  intros H. injection H as _ <-. exact Hp.
Qed.

(** X5: a mask on display always comes from the model. Whenever the loop of
    either tool waits with a stored preview mask, that mask is the first
    candidate [predict] returns, on the loaded image, for the first [k] of
    the stored points and labels, for some [k >= 1]: the points clicked
    since that preview are the only thing it can be missing. *)
Theorem preview_comes_from_a_prefix
    (predict : predictor) (img : image) (path dest : string)
    (evs : list ui_event) (t : trace) (s : session) (m : mask) :
  key_loop (BatchSegment.on_key predict img) evs (fresh_session img)
  = (t, Waiting s) \/
  key_loop (SingleSegment.on_key predict img path dest) evs (fresh_session img)
  = (t, Waiting s) ->
  preview_mask s = Some m ->
  exists (k : nat) (rest : list mask),
    (0 < k <= List.length (click_points s))%nat /\
    predict img (firstn k (click_points s)) (firstn k (click_labels s))
    = PredictReturns (m :: rest).
Proof.
  intros H Hm.
  assert (HJ : session_inv img s /\ preview_from predict img s).
  { destruct H as [H | H].
    - eapply (key_loop_invariant _
                (fun s => session_inv img s /\ preview_from predict img s));
        [| | | exact H].
      + intros event x y s0 [H1 H2]. split;
          [now apply session_inv_mouse | now apply preview_from_mouse].
      + intros key s0 t0 s1 [H1 H2] Hk. split;
          [eapply session_inv_batch_key | eapply preview_from_batch_key]; eassumption.
      + split; [apply session_inv_fresh | intros m0 Hm0; discriminate].
    - eapply (key_loop_invariant _
                (fun s => session_inv img s /\ preview_from predict img s));
        [| | | exact H].
      + intros event x y s0 [H1 H2]. split;
          [now apply session_inv_mouse | now apply preview_from_mouse].
      + intros key s0 t0 s1 [H1 H2] Hk. split;
          [eapply session_inv_single_key | eapply preview_from_single_key]; eassumption.
      + split; [apply session_inv_fresh | intros m0 Hm0; discriminate]. }
  destruct HJ as [_ Hp]. exact (Hp m Hm).
Qed.

Lemma preview_comes_from_a_prefix_witness :
  exists (k : nat) (rest : list mask),
    (0 < k <= List.length [(10, 20); (30, 40); (50, 60)])%nat /\
    Ex.predict Ex.ref (firstn k [(10, 20); (30, 40); (50, 60)])
      (firstn k [1; 0; 1])
    = PredictReturns (Ex.m2 :: rest).
Proof.
  apply (preview_comes_from_a_prefix Ex.predict Ex.ref "a.png" "out"
           ExRuns.three_clicks
           (fst (key_loop (BatchSegment.on_key Ex.predict Ex.ref) ExRuns.three_clicks
                   (fresh_session Ex.ref)))
           (snd (mouse_callback Cv2.EVENT_LBUTTONDOWN 50 60
              (with_preview
                 (snd (mouse_callback Cv2.EVENT_RBUTTONDOWN 30 40
                         (snd (mouse_callback Cv2.EVENT_LBUTTONDOWN 10 20
                                 (fresh_session Ex.ref))))) Ex.m2)))
           Ex.m2).
  - left. reflexivity.
  - reflexivity.
Defined.

(** *** No file before a confirmed session *)

Lemma no_imwrite_app (t u : trace) :
  existsb is_imwrite (t ++ u) = existsb is_imwrite t || existsb is_imwrite u.
Proof. apply existsb_app. Qed.

Lemma Forall_no_imwrite (t : trace) :
  Forall (fun e => is_imwrite e = false) t -> existsb is_imwrite t = false.
Proof.
  induction 1 as [| e t He _ IH]; [reflexivity |]. cbn. now rewrite He, IH.
Qed.

Lemma batch_key_no_imwrite (predict : predictor) (img : image) (key : Z) (s : session) :
  Forall (fun e => is_imwrite e = false) (fst (BatchSegment.on_key predict img key s)).
Proof.
  unfold BatchSegment.on_key.
  destruct (key =? KEY_SPACE).
  { destruct (Z.of_nat (List.length (click_points s)) =? 0); [repeat constructor |].
    destruct (predict img (click_points s) (click_labels s)) as [| [| m ms]];
      repeat constructor. }
  destruct (key =? KEY_R); [repeat constructor |].
  destruct (key =? KEY_ENTER).
  { destruct (Z.of_nat (List.length (click_points s)) =? 0); repeat constructor. }
  destruct (key =? KEY_Q); repeat constructor.
Qed.

Lemma mouse_no_imwrite (event x y : Z) (s : session) :
  Forall (fun e => is_imwrite e = false) (fst (mouse_callback event x y s)).
Proof.
  unfold mouse_callback.
  destruct (event =? Cv2.EVENT_LBUTTONDOWN);
    [| destruct (event =? Cv2.EVENT_RBUTTONDOWN)]; repeat constructor.
Qed.

Lemma show_no_imwrite (s : session) : is_imwrite (show s) = false.
Proof. unfold show. now destruct (preview_mask s). Qed.

Lemma interactive_setup_no_imwrite
    (imread : string -> option image) (predict : predictor)
    (path : string) (evs : list ui_event) :
  existsb is_imwrite (fst (BatchSegment.interactive_setup imread predict path evs))
  = false.
Proof.
  unfold BatchSegment.interactive_setup.
  destruct (imread path) as [img |]; [| reflexivity].
  pose proof (key_loop_Forall (BatchSegment.on_key predict img) (fun _ => True)
                ltac:(auto) ltac:(auto) (fun e => is_imwrite e = false)
                (fun e x y s _ => mouse_no_imwrite e x y s)
                (fun k s _ => batch_key_no_imwrite predict img k s)
                (fun s _ => show_no_imwrite s) evs (fresh_session img) I) as H.
  destruct (key_loop (BatchSegment.on_key predict img) evs (fresh_session img))
    as [t r]. cbn [fst] in *.
  apply Forall_no_imwrite. repeat constructor. exact H.
Qed.

(** X6: the batch tool writes mask files only after a confirmed session.
    A run of [process_images] that ends at one of its early [return]s, that
    is quit with [Q], or whose session is still open, has written no file. *)
Theorem no_mask_without_confirm (w : BatchSegment.world) :
  snd (BatchSegment.process_images w) = BatchSegment.EarlyReturn \/
  snd (BatchSegment.process_images w) = BatchSegment.SessionOpen \/
  snd (BatchSegment.process_images w) = BatchSegment.Quit ->
  existsb is_imwrite (fst (BatchSegment.process_images w)) = false.
Proof.
  unfold BatchSegment.process_images.
  assert (Hsetup : existsb is_imwrite (fst (BatchSegment.get_setup_via_gui w)) = false).
  { unfold BatchSegment.get_setup_via_gui.
    destruct (String.eqb (BatchSegment.askopenfilename w) EmptyString); [reflexivity |].
    destruct (String.eqb (BatchSegment.askdirectory w) EmptyString); reflexivity. }
  destruct (BatchSegment.get_setup_via_gui w) as [t0 [[[inp out] tpl] |]];
    cbn [fst snd] in *; [| intros _; exact Hsetup].
  destruct (BatchSegment.load_sam w) as [predict |];
    [| intros _; cbn [fst]; rewrite no_imwrite_app, Hsetup; reflexivity].
  destruct (BatchSegment.image_files (BatchSegment.listdir w inp)) as [| f fs];
    [intros _; cbn [fst]; rewrite no_imwrite_app, Hsetup; reflexivity |].
  pose proof (interactive_setup_no_imwrite (BatchSegment.imread w) predict tpl
                (BatchSegment.gui_events w)) as Hses.
  destruct (BatchSegment.interactive_setup (BatchSegment.imread w) predict tpl
              (BatchSegment.gui_events w)) as [t1 [s | [rel lbls] | | e]];
    cbn [fst snd] in *.
  - intros _. now rewrite no_imwrite_app, Hsetup, Hses.
  - destruct (BatchSegment.batch_loop _ _ _ _ _ _ _) as [t2 [e |]]; cbn [snd];
      intros [H | [H | H]]; discriminate.
  - intros _. now rewrite no_imwrite_app, Hsetup, Hses.
  - intros [H | [H | H]]; discriminate.
Qed.

Lemma no_mask_without_confirm_witness :
  existsb is_imwrite (fst (BatchSegment.process_images ExRuns.quit_world)) = false.
Proof.
  apply (no_mask_without_confirm ExRuns.quit_world). right. right. reflexivity.
Defined.

(** *** Masks written, images bound *)

Lemma written_paths_app (t u : trace) :
  written_paths (t ++ u) = written_paths t ++ written_paths u.
Proof. apply flat_map_app. Qed.

(** X7: the batch loop writes one mask per file that decodes and gets a
    candidate, in the order of the file list, each at the output path of its
    file. *)
Theorem batch_writes_in_file_order
    (imread : string -> option image) (predict : predictor)
    (INPUT_FOLDER OUTPUT_FOLDER : string)
    (relative_points : list (Float64.float64 * Float64.float64))
    (prompt_labels : list Z) (files : list string) (t : trace) :
  BatchSegment.batch_loop imread predict INPUT_FOLDER OUTPUT_FOLDER
    relative_points prompt_labels files = (t, None) ->
  written_paths t
  = map (BatchSegment.output_path OUTPUT_FOLDER)
      (filter (yields_mask imread predict INPUT_FOLDER relative_points
                 prompt_labels) files).
Proof.
  revert t. induction files as [| f files IH]; intros t H.
  - cbn in H. injection H as <-. reflexivity.
  - cbn [BatchSegment.batch_loop] in H. cbn [filter]. unfold yields_mask at 1.
    destruct (imread (Py.join INPUT_FOLDER f)) as [img |].
    + destruct (predict img _ prompt_labels) as [| [| m ms]]; try discriminate.
      * destruct (BatchSegment.batch_loop _ _ _ _ _ _ files) as [t1 r1].
        cbn [fst snd] in H. injection H as <- ->. cbn. apply IH. reflexivity.
      * destruct (BatchSegment.batch_loop _ _ _ _ _ _ files) as [t1 r1].
        cbn [fst snd] in H. injection H as <- ->. cbn. f_equal. apply IH. reflexivity.
    + destruct (BatchSegment.batch_loop _ _ _ _ _ _ files) as [t1 r1].
      cbn [fst snd] in H. injection H as <- ->. cbn. apply IH. reflexivity.
Qed.

Lemma batch_writes_in_file_order_witness :
  written_paths
    (fst (BatchSegment.batch_loop Ex.imread Ex.predict "in" "out"
            Ex.relative_points [1] ["a.png"; "b.png"; "c.png"]%string))
  = map (BatchSegment.output_path "out")
      (filter (yields_mask Ex.imread Ex.predict "in" Ex.relative_points [1])
         ["a.png"; "b.png"; "c.png"]%string).
Proof.
  apply (batch_writes_in_file_order Ex.imread Ex.predict "in" "out"
           Ex.relative_points [1] ["a.png"; "b.png"; "c.png"]%string).
  reflexivity.
Defined.

Lemma predict_bound_app (cur : option image) (t u : trace) :
  predict_bound cur t -> (forall c, predict_bound c u) ->
  predict_bound cur (t ++ u).
Proof.
  revert cur. induction t as [| e t IH]; intros cur Ht Hu; [apply Hu |].
  destruct e; cbn in *; try (apply IH; assumption).
  destruct Ht as [Hc Ht]. split; [assumption | apply IH; assumption].
Qed.

Lemma predict_bound_no_predict (cur : option image) (t : trace) :
  calls_predict t = false -> predict_bound cur t.
Proof.
  revert cur. induction t as [| e t IH]; intros cur H; [exact I |].
  destruct e; cbn in *; try discriminate; apply IH; assumption.
Qed.

Lemma predict_bound_session (img : image) (t : trace) :
  Forall (session_effect img) t -> predict_bound (Some img) t.
Proof.
  induction 1 as [| e t He _ IH]; [exact I |].
  destruct e; cbn in *; try assumption; try contradiction.
  subst. split; [reflexivity | assumption].
Qed.

Lemma batch_loop_predict_bound
    (imread : string -> option image) (predict : predictor)
    (INPUT_FOLDER OUTPUT_FOLDER : string)
    (relative_points : list (Float64.float64 * Float64.float64))
    (prompt_labels : list Z) (files : list string) :
  forall cur,
    predict_bound cur
      (fst (BatchSegment.batch_loop imread predict INPUT_FOLDER OUTPUT_FOLDER
              relative_points prompt_labels files)).
Proof.
  induction files as [| f files IH]; intros cur; [exact I |].
  cbn [BatchSegment.batch_loop].
  destruct (imread (Py.join INPUT_FOLDER f)) as [img |].
  - destruct (predict img _ prompt_labels) as [| [| m ms]]; cbn; auto.
  - cbn. apply IH.
Qed.

Lemma batch_key_session_effect (predict : predictor) (img : image)
    (key : Z) (s : session) :
  Forall (session_effect img) (fst (BatchSegment.on_key predict img key s)).
Proof.
  unfold BatchSegment.on_key.
  destruct (key =? KEY_SPACE).
  { destruct (Z.of_nat (List.length (click_points s)) =? 0); [repeat constructor |].
    destruct (predict img (click_points s) (click_labels s)) as [| [| m ms]];
      repeat constructor. }
  destruct (key =? KEY_R); [repeat constructor |].
  destruct (key =? KEY_ENTER).
  { destruct (Z.of_nat (List.length (click_points s)) =? 0); repeat constructor. }
  destruct (key =? KEY_Q); repeat constructor.
Qed.

Lemma single_key_session_effect (predict : predictor) (img : image)
    (path dest : string) (key : Z) (s : session) :
  Forall (session_effect img)
    (fst (SingleSegment.on_key predict img path dest key s)).
Proof.
  unfold SingleSegment.on_key.
  destruct (key =? KEY_SPACE).
  { destruct (click_points s) as [| p ps]; [constructor |].
    destruct (predict img (p :: ps) (click_labels s)) as [| [| m ms]];
      repeat constructor. }
  destruct (key =? KEY_R); [constructor |].
  destruct (key =? KEY_ENTER).
  { destruct (click_points s) as [| p ps]; [repeat constructor |].
    destruct (predict img (p :: ps) (click_labels s)) as [| [| m ms]];
      try (repeat constructor).
    destruct (String.eqb dest EmptyString); repeat constructor. }
  destruct (key =? KEY_Q); constructor.
Qed.

Lemma mouse_session_effect (img : image) (event x y : Z) (s : session) :
  Forall (session_effect img) (fst (mouse_callback event x y s)).
Proof.
  unfold mouse_callback.
  destruct (event =? Cv2.EVENT_LBUTTONDOWN);
    [| destruct (event =? Cv2.EVENT_RBUTTONDOWN)]; repeat constructor.
Qed.

Lemma show_session_effect (img : image) (s : session) : session_effect img (show s).
Proof. unfold show. destruct (preview_mask s); exact I. Qed.

Lemma interactive_setup_predict_bound
    (imread : string -> option image) (predict : predictor)
    (path : string) (evs : list ui_event) (cur : option image) :
  predict_bound cur
    (fst (BatchSegment.interactive_setup imread predict path evs)).
Proof.
  unfold BatchSegment.interactive_setup.
  destruct (imread path) as [img |]; [| exact I].
  pose proof (key_loop_Forall (BatchSegment.on_key predict img) (fun _ => True)
                ltac:(auto) ltac:(auto) (session_effect img)
                (fun e x y s _ => mouse_session_effect img e x y s)
                (fun k s _ => batch_key_session_effect predict img k s)
                (fun s _ => show_session_effect img s) evs (fresh_session img) I) as H.
  destruct (key_loop (BatchSegment.on_key predict img) evs (fresh_session img))
    as [t r]. cbn [fst] in *.
  change (predict_bound (Some img) (show (fresh_session img) :: t)).
  apply predict_bound_session.
  constructor; [apply show_session_effect | exact H].
Qed.

(** X8: the model is always bound to the image it is asked about. In every
    run of [process_images] and of [process_single_image], each call of
    [predict] is made on the image of the latest [set_image] before it. *)
Theorem predict_on_the_bound_image
    (w : BatchSegment.world) (w1 : SingleSegment.world) :
  predict_bound None (fst (BatchSegment.process_images w)) /\
  predict_bound None (fst (SingleSegment.process_single_image w1)).
Proof.
  split.
  - unfold BatchSegment.process_images.
    assert (Hsetup : forall c, predict_bound c (fst (BatchSegment.get_setup_via_gui w))).
    { intros c. unfold BatchSegment.get_setup_via_gui.
      destruct (String.eqb (BatchSegment.askopenfilename w) EmptyString); [exact I |].
      destruct (String.eqb (BatchSegment.askdirectory w) EmptyString); exact I. }
    destruct (BatchSegment.get_setup_via_gui w) as [t0 [[[inp out] tpl] |]];
      cbn [fst snd] in *; [| apply Hsetup].
    destruct (BatchSegment.load_sam w) as [predict |];
      [| cbn [fst]; apply predict_bound_app; [apply Hsetup | intros; exact I]].
    destruct (BatchSegment.image_files (BatchSegment.listdir w inp)) as [| f fs] eqn:Ef;
      [cbn [fst]; apply predict_bound_app; [apply Hsetup | intros; exact I] |].
    pose proof (interactive_setup_predict_bound (BatchSegment.imread w) predict tpl
                  (BatchSegment.gui_events w)) as Hses.
    destruct (BatchSegment.interactive_setup (BatchSegment.imread w) predict tpl
                (BatchSegment.gui_events w)) as [t1 [s | [rel lbls] | | e]];
      cbn [fst snd] in *;
      try (apply predict_bound_app; [apply Hsetup | exact Hses]).
    pose proof (batch_loop_predict_bound (BatchSegment.imread w) predict inp out
                  rel lbls (f :: fs)) as Hloop.
    destruct (BatchSegment.batch_loop _ _ _ _ _ _ _) as [t2 [e |]]; cbn [fst] in *.
    + apply predict_bound_app; [apply Hsetup |]. intros c.
      apply predict_bound_app; [apply Hses |]. intros c'. cbn. apply Hloop.
    + apply predict_bound_app; [apply Hsetup |]. intros c.
      apply predict_bound_app; [apply Hses |]. intros c'. cbn.
      apply predict_bound_app; [apply Hloop | intros; exact I].
  - unfold SingleSegment.process_single_image.
    destruct (String.eqb (SingleSegment.select_input_file w1) EmptyString); [exact I |].
    destruct (SingleSegment.load_sam w1) as [predict |]; [| exact I].
    destruct (SingleSegment.imread w1 (SingleSegment.select_input_file w1))
      as [img |]; [| exact I].
    pose proof (key_loop_Forall
                  (SingleSegment.on_key predict img
                     (SingleSegment.select_input_file w1)
                     (SingleSegment.select_save_directory w1))
                  (fun _ => True)
                  ltac:(auto) ltac:(auto) (session_effect img)
                  (fun e x y s _ => mouse_session_effect img e x y s)
                  (fun k s _ => single_key_session_effect predict img _ _ k s)
                  (fun s _ => show_session_effect img s)
                  (SingleSegment.gui_events w1) (fresh_session img) I) as H.
    destruct (key_loop _ (SingleSegment.gui_events w1) (fresh_session img))
      as [t r]. cbn [fst] in H.
    assert (Hb : predict_bound (Some img) (show (fresh_session img) :: t)).
    { apply predict_bound_session. constructor; [apply show_session_effect | exact H]. }
    destruct r as [s | [] | | e]; cbn [fst predict_bound]; try exact Hb.
    change (show (fresh_session img) :: t ++ [DestroyAllWindows])
      with ((show (fresh_session img) :: t) ++ [DestroyAllWindows]).
    apply predict_bound_app; [exact Hb | intros; exact I].
Qed.

(** *** Python strings *)

Module PyFacts.
Import Py.

Lemma length_app (a b : string) :
  String.length (a ++ b) = (String.length a + String.length b)%nat.
Proof. induction a as [| c a IH]; cbn; [reflexivity | now rewrite IH]. Qed.

Lemma app_assoc (a b c : string) : ((a ++ b) ++ c = a ++ (b ++ c))%string.
Proof. induction a as [| d a IH]; cbn; [reflexivity | now rewrite IH]. Qed.

Lemma app_empty_r (a : string) : (a ++ "")%string = a.
Proof. induction a as [| d a IH]; cbn; [reflexivity | now rewrite IH]. Qed.

Lemma substring_all (s : string) : substring 0 (String.length s) s = s.
Proof. induction s as [| c s IH]; cbn; [reflexivity | now rewrite IH]. Qed.

Lemma substring_prefix (a b : string) :
  substring 0 (String.length a) (a ++ b) = a.
Proof.
  induction a as [| c a IH]; cbn.
  - now destruct b.
  - now rewrite IH.
Qed.

Lemma substring_skip (a b : string) (m : nat) :
  substring (String.length a) m (a ++ b) = substring 0 m b.
Proof. induction a as [| c a IH]; cbn; [reflexivity | exact IH]. Qed.

(** [(a + b).endswith(b)]. *)
Lemma endswith1_app (a b : string) : endswith1 (a ++ b) b = true.
Proof.
  unfold endswith1. rewrite length_app.
  replace (Nat.leb (String.length b) (String.length a + String.length b)) with true
    by (symmetry; apply Nat.leb_le; lia).
  replace (String.length a + String.length b - String.length b)%nat
    with (String.length a) by lia.
  rewrite substring_skip, substring_all. apply String.eqb_refl.
Qed.

Lemma lower_ascii_idem (c : ascii) : lower_ascii (lower_ascii c) = lower_ascii c.
Proof. destruct c as [[] [] [] [] [] [] [] []]; reflexivity. Qed.

(** [s.lower().lower() == s.lower()]. *)
Lemma lower_idem (s : string) : lower (lower s) = lower s.
Proof.
  induction s as [| c s IH]; cbn; [reflexivity |].
  now rewrite lower_ascii_idem, IH.
Qed.

Lemma rfind_from_absent (c : ascii) (s : string) :
  forall i last, occurs c s = false -> rfind_from i c s last = last.
Proof.
  induction s as [| d s IH]; intros i last H; cbn in *; [reflexivity |].
  apply orb_false_iff in H. destruct H as [Hd Hs].
  rewrite Hd. apply IH. exact Hs.
Qed.

Lemma rfind_from_last (c : ascii) (a b : string) :
  forall i last, occurs c b = false ->
    rfind_from i c (a ++ String c b) last = i + Z.of_nat (String.length a).
Proof.
  induction a as [| d a IH]; intros i last H; cbn [append rfind_from String.length].
  - rewrite Ascii.eqb_refl, rfind_from_absent by assumption. cbn. lia.
  - rewrite IH by assumption. lia.
Qed.

(** [(a + c + b).rfind(c) == len(a)] when [c] does not occur in [b]. *)
Lemma rfind_last (c : ascii) (a b : string) :
  occurs c b = false ->
  rfind (a ++ String c b) c = Z.of_nat (String.length a).
Proof. intros H. unfold rfind. now rewrite rfind_from_last. Qed.

Lemma rfind_absent (c : ascii) (s : string) :
  occurs c s = false -> rfind s c = -1.
Proof. intros H. unfold rfind. now apply rfind_from_absent. Qed.

Lemma occurs_app (c : ascii) (a b : string) :
  occurs c (a ++ b) = occurs c a || occurs c b.
Proof.
  induction a as [| d a IH]; cbn; [reflexivity |]. now rewrite IH, orb_assoc.
Qed.

End PyFacts.

(** *** os.path *)

Module PyPathFacts.
Import Py PyFacts.

Lemma has_non_dot_found (s : string) (k : nat) (c : ascii) :
  forall upto, (k < upto)%nat -> String.get k s = Some c ->
    Ascii.eqb c "."%char = false -> has_non_dot s 0 upto = true.
Proof.
  induction upto as [| u IH]; intros Hk Hget Hc; [lia |].
  cbn [has_non_dot Nat.leb].
  destruct (Nat.eq_dec k u) as [-> | Hne].
  - rewrite Hget, Hc. reflexivity.
  - destruct (String.get u s) as [d |];
      rewrite IH by (lia || assumption); [apply orb_true_r | reflexivity].
Qed.

Lemma non_dot_position (s : string) :
  all_char "."%char s = false ->
  exists k c, (k < String.length s)%nat /\ String.get k s = Some c /\
              Ascii.eqb c "."%char = false.
Proof.
  induction s as [| d s IH]; cbn; [discriminate |].
  destruct (Ascii.eqb d "."%char) eqn:Ed; cbn.
  - intros H. destruct (IH H) as (k & c & Hk & Hg & Hc).
    exists (S k), c. repeat split; [lia | exact Hg | exact Hc].
  - intros _. exists 0%nat, d. repeat split; [lia | exact Ed].
Qed.

(** [os.path.splitext(root + "." + ext)[0] == root] for a file name without
    directory part whose [root] is not made of dots only and whose [ext]
    holds no dot. *)
Lemma splitext_root_app (root ext : string) :
  occurs sep root = false -> occurs sep ext = false ->
  occurs "."%char ext = false ->
  all_char "."%char root = false ->
  splitext_root (root ++ String "."%char ext) = root.
Proof.
  intros Hsr Hse Hde Hroot. unfold splitext_root.
  rewrite (rfind_last "."%char root ext Hde).
  rewrite rfind_absent.
  2:{ rewrite occurs_app. cbn [occurs]. rewrite Hsr, Hse. reflexivity. }
  replace (-1 + 1) with 0 by lia. rewrite Nat2Z.id. cbn [Z.to_nat].
  destruct (non_dot_position root Hroot) as (k & c & Hk & Hg & Hc).
  rewrite (has_non_dot_found _ k c).
  - replace (-1 <? Z.of_nat (String.length root)) with true
      by (symmetry; apply Z.ltb_lt; lia).
    cbn [andb]. unfold slice_to. rewrite Nat2Z.id. apply substring_prefix.
  - exact Hk.
  - rewrite <- (append_correct1 root (String "."%char ext) k Hk). exact Hg.
  - exact Hc.
Qed.

Lemma all_char_app_false (c d : ascii) (r t : string) :
  last_char r = Some d -> Ascii.eqb d c = false -> all_char c (r ++ t) = false.
Proof.
  induction r as [| x r IH]; [discriminate |].
  intros Hl Hd. cbn [append all_char].
  destruct r as [| y r].
  - cbn in Hl. injection Hl as ->. now rewrite Hd.
  - rewrite IH; [apply andb_false_r | exact Hl | exact Hd].
Qed.

Lemma rstrip_sep_app (d : string) (c : ascii) :
  last_char d = Some c -> Ascii.eqb c sep = false ->
  rstrip_sep (d ++ "/") = d.
Proof.
  induction d as [| x r IH]; [discriminate |].
  intros Hl Hc. cbn [append rstrip_sep].
  change (all_char sep (String x (r ++ "/")))
    with (all_char sep (String x r ++ "/")).
  rewrite (all_char_app_false sep c (String x r) "/" Hl Hc).
  destruct r as [| y r].
  - reflexivity.
  - f_equal. apply IH; assumption.
Qed.

Lemma substring_last (r : string) :
  forall x c, last_char (String x r) = Some c ->
    substring (String.length r) 1 (String x r) = String c "".
Proof.
  induction r as [| y r IH]; intros x c Hl.
  - cbn in Hl. injection Hl as ->. reflexivity.
  - cbn [String.length substring]. apply IH. exact Hl.
Qed.

Lemma endswith1_sep_last (d : string) (c : ascii) :
  last_char d = Some c -> Ascii.eqb c sep = false -> endswith1 d "/" = false.
Proof.
  intros Hl Hc. destruct d as [| x r]; [discriminate |].
  unfold endswith1.
  replace (String.length (String x r) - String.length "/")%nat
    with (String.length r) by (cbn; lia).
  replace (Nat.leb (String.length "/") (String.length (String x r))) with true
    by (symmetry; apply Nat.leb_le; cbn; lia).
  change (String.length "/") with 1%nat.
  rewrite (substring_last r x c Hl).
  apply String.eqb_neq. intros H. injection H as H. subst c. discriminate.
Qed.

Lemma prefix_sep_absent (n : string) : occurs sep n = false -> prefix "/" n = false.
Proof.
  destruct n as [| x r]; [reflexivity |]. cbn [occurs prefix].
  intros H. apply orb_false_iff in H. destruct H as [Hx _].
  destruct (Ascii.ascii_dec "/"%char x) as [E | E]; [| reflexivity].
  subst x. discriminate.
Qed.

Section DirBase.
Variables (d n : string) (c : ascii).
Hypothesis d_last : last_char d = Some c.
Hypothesis c_not_sep : Ascii.eqb c sep = false.
Hypothesis n_plain : occurs sep n = false.

Lemma dirname_join : dirname (d ++ String sep n) = d.
Proof.
  unfold dirname. rewrite (rfind_last sep d n n_plain).
  unfold slice_to.
  replace (Z.to_nat (Z.of_nat (String.length d) + 1)) with (String.length (d ++ "/")).
  2:{ rewrite length_app. cbn. lia. }
  change (String sep n) with ("/" ++ n)%string.
  rewrite <- app_assoc, substring_prefix.
  rewrite (all_char_app_false sep c d "/" d_last c_not_sep).
  destruct (String.eqb_spec (d ++ "/") "") as [E | _].
  - destruct d; discriminate.
  - cbn [negb andb]. apply (rstrip_sep_app d c); assumption.
Qed.

Lemma basename_join : basename (d ++ String sep n) = n.
Proof.
  unfold basename. rewrite (rfind_last sep d n n_plain).
  unfold slice_from.
  replace (Z.to_nat (Z.of_nat (String.length d) + 1)) with (String.length (d ++ "/")).
  2:{ rewrite length_app. cbn. lia. }
  change (String sep n) with ("/" ++ n)%string.
  rewrite <- app_assoc, substring_skip, !length_app.
  replace (String.length d + String.length "/" + String.length n
           - (String.length d + String.length "/"))%nat
    with (String.length n) by lia.
  apply substring_all.
Qed.

Lemma join_dir_base : join d n = (d ++ String sep n)%string.
Proof.
  unfold join. rewrite (prefix_sep_absent n n_plain).
  rewrite (endswith1_sep_last d c d_last c_not_sep), orb_false_r.
  destruct (String.eqb_spec d "") as [E | _]; [subst d; discriminate |].
  reflexivity.
Qed.
End DirBase.

End PyPathFacts.

(** *** Written files *)

(** *** Files written *)

Lemma join_endswith (a b s : string) :
  Py.endswith1 (Py.join a (b ++ s)) s = true.
Proof.
  unfold Py.join.
  destruct (prefix "/" (b ++ s)); [apply PyFacts.endswith1_app |].
  destruct (String.eqb a EmptyString || Py.endswith1 a "/").
  - rewrite <- PyFacts.app_assoc. apply PyFacts.endswith1_app.
  - rewrite <- !PyFacts.app_assoc. apply PyFacts.endswith1_app.
Qed.

Lemma binary_mask_binary (m : mask) : binary_raster (BatchSegment.binary_mask m).
Proof.
  unfold binary_raster, BatchSegment.binary_mask.
  apply Forall_map, Forall_forall. intros row _.
  apply Forall_map, Forall_forall. intros v _.
  destruct (0 <? v); [right | left]; reflexivity.
Qed.

Lemma batch_loop_writes_binary_masks
    (imread : string -> option image) (predict : predictor)
    (INPUT_FOLDER OUTPUT_FOLDER : string)
    (relative_points : list (Float64.float64 * Float64.float64))
    (prompt_labels : list Z) (files : list string) :
  Forall writes_binary_mask
    (fst (BatchSegment.batch_loop imread predict INPUT_FOLDER OUTPUT_FOLDER
            relative_points prompt_labels files)).
Proof.
  induction files as [| f files IH]; [constructor |].
  cbn [BatchSegment.batch_loop].
  destruct (imread (Py.join INPUT_FOLDER f)) as [img |].
  - destruct (predict img _ prompt_labels) as [| [| m ms]]; cbn [fst].
    + repeat constructor.
    + repeat (constructor; [exact I |]). exact IH.
    + repeat (constructor; [exact I |]).
      constructor; [| constructor; [exact I | exact IH]].
      split; [apply join_endswith | apply binary_mask_binary].
  - cbn [fst]. repeat (constructor; [exact I |]). exact IH.
Qed.

Lemma no_imwrite_writes_binary (t : trace) :
  existsb is_imwrite t = false -> Forall writes_binary_mask t.
Proof.
  induction t as [| e t IH]; intros H; [constructor |].
  cbn in H. apply orb_false_iff in H. destruct H as [He Ht].
  constructor; [| apply IH; exact Ht]. destruct e; try exact I. discriminate.
Qed.

Lemma single_key_writes_binary (predict : predictor) (img : image)
    (path dest : string) (key : Z) (s : session) :
  Forall writes_binary_mask
    (fst (SingleSegment.on_key predict img path dest key s)).
Proof.
  unfold SingleSegment.on_key.
  destruct (key =? KEY_SPACE).
  { destruct (click_points s) as [| p ps]; [constructor |].
    destruct (predict img (p :: ps) (click_labels s)) as [| [| m ms]];
      repeat constructor. }
  destruct (key =? KEY_R); [constructor |].
  destruct (key =? KEY_ENTER).
  { destruct (click_points s) as [| p ps]; [repeat constructor |].
    destruct (predict img (p :: ps) (click_labels s)) as [| [| m ms]];
      try (repeat constructor).
    destruct (String.eqb dest EmptyString); cbn [fst]; [repeat constructor |].
    constructor; [exact I |]. constructor; [| repeat constructor].
    split; [apply join_endswith |].
    rewrite single_binary_mask_eq. apply binary_mask_binary. }
  destruct (key =? KEY_Q); constructor.
Qed.

Lemma mouse_writes_binary (event x y : Z) (s : session) :
  Forall writes_binary_mask (fst (mouse_callback event x y s)).
Proof. apply no_imwrite_writes_binary, Forall_no_imwrite, mouse_no_imwrite. Qed.

Lemma show_writes_binary (s : session) : writes_binary_mask (show s).
Proof. unfold show. destruct (preview_mask s); exact I. Qed.

(** X9: every file either tool ever writes is a mask: a raster that holds
    only the values 0 and 255, under a name that ends in [_mask.png]. *)
Theorem every_written_file_is_a_binary_mask
    (w : BatchSegment.world) (w1 : SingleSegment.world) :
  Forall writes_binary_mask (fst (BatchSegment.process_images w)) /\
  Forall writes_binary_mask (fst (SingleSegment.process_single_image w1)).
Proof.
  split.
  - unfold BatchSegment.process_images.
    assert (Hsetup : Forall writes_binary_mask (fst (BatchSegment.get_setup_via_gui w))).
    { unfold BatchSegment.get_setup_via_gui.
      destruct (String.eqb (BatchSegment.askopenfilename w) EmptyString);
        [repeat constructor |].
      destruct (String.eqb (BatchSegment.askdirectory w) EmptyString);
        repeat constructor. }
    destruct (BatchSegment.get_setup_via_gui w) as [t0 [[[inp out] tpl] |]];
      cbn [fst snd] in *; [| exact Hsetup].
    destruct (BatchSegment.load_sam w) as [predict |];
      [| cbn [fst]; apply Forall_app; split; [exact Hsetup | repeat constructor]].
    destruct (BatchSegment.image_files (BatchSegment.listdir w inp)) as [| f fs];
      [cbn [fst]; apply Forall_app; split; [exact Hsetup | repeat constructor] |].
    pose proof (no_imwrite_writes_binary _
                  (interactive_setup_no_imwrite (BatchSegment.imread w) predict tpl
                     (BatchSegment.gui_events w))) as Hses.
    destruct (BatchSegment.interactive_setup (BatchSegment.imread w) predict tpl
                (BatchSegment.gui_events w)) as [t1 [s | [rel lbls] | | e]];
      cbn [fst snd] in *;
      try (apply Forall_app; split; [exact Hsetup | exact Hses]).
    pose proof (batch_loop_writes_binary_masks (BatchSegment.imread w) predict inp
                  out rel lbls (f :: fs)) as Hloop.
    destruct (BatchSegment.batch_loop _ _ _ _ _ _ _) as [t2 [e |]]; cbn [fst] in *.
    + apply Forall_app; split; [exact Hsetup |].
      apply Forall_app; split; [exact Hses |]. constructor; [exact I | exact Hloop].
    + apply Forall_app; split; [exact Hsetup |].
      apply Forall_app; split; [exact Hses |]. constructor; [exact I |].
      apply Forall_app; split; [exact Hloop | repeat constructor].
  - unfold SingleSegment.process_single_image.
    destruct (String.eqb (SingleSegment.select_input_file w1) EmptyString);
      [repeat constructor |].
    destruct (SingleSegment.load_sam w1) as [predict |]; [| repeat constructor].
    destruct (SingleSegment.imread w1 (SingleSegment.select_input_file w1))
      as [img |]; [| repeat constructor].
    pose proof (key_loop_Forall
                  (SingleSegment.on_key predict img
                     (SingleSegment.select_input_file w1)
                     (SingleSegment.select_save_directory w1))
                  (fun _ => True)
                  ltac:(auto) ltac:(auto) writes_binary_mask
                  (fun e x y s _ => mouse_writes_binary e x y s)
                  (fun k s _ => single_key_writes_binary predict img _ _ k s)
                  (fun s _ => show_writes_binary s)
                  (SingleSegment.gui_events w1) (fresh_session img) I) as H.
    destruct (key_loop _ (SingleSegment.gui_events w1) (fresh_session img))
      as [t r]. cbn [fst] in H.
    destruct r as [s | [] | | e]; cbn [fst];
      repeat (constructor; [first [exact I | apply show_writes_binary] |]);
      try exact H.
    apply Forall_app; split; [exact H | repeat constructor].
Qed.

(** *** The files the batch loop starts on *)

Lemma started_app (t u : trace) : started (t ++ u) = started t ++ started u.
Proof. apply flat_map_app. Qed.

(** X10: the batch loop goes through the file list in order and never skips
    ahead: the files it has started on are a leading part of the list, and
    the whole list when no exception has left the loop. *)
Theorem batch_starts_files_in_order
    (imread : string -> option image) (predict : predictor)
    (INPUT_FOLDER OUTPUT_FOLDER : string)
    (relative_points : list (Float64.float64 * Float64.float64))
    (prompt_labels : list Z) (files : list string) :
  exists rest,
    files
    = started (fst (BatchSegment.batch_loop imread predict INPUT_FOLDER
                      OUTPUT_FOLDER relative_points prompt_labels files))
        ++ rest /\
    match snd (BatchSegment.batch_loop imread predict INPUT_FOLDER OUTPUT_FOLDER
                 relative_points prompt_labels files) with
    | None => rest = []
    | Some _ => True
    end.
Proof.
  induction files as [| f files (rest & IH1 & IH2)].
  - exists []. split; reflexivity.
  - cbn [BatchSegment.batch_loop].
    destruct (imread (Py.join INPUT_FOLDER f)) as [img |].
    + destruct (predict img _ prompt_labels) as [| [| m ms]]; cbn [fst snd].
      * exists files. split; [reflexivity | exact I].
      * exists rest. cbn. split; [f_equal; exact IH1 | exact IH2].
      * exists rest. cbn. split; [f_equal; exact IH1 | exact IH2].
    + exists rest. cbn. split; [f_equal; exact IH1 | exact IH2].
Qed.

(** *** The single-image tool; ignored mouse events *)

(** *** The single-image tool writes at most once *)

Lemma written_paths_mouse (event x y : Z) (s : session) :
  written_paths (fst (mouse_callback event x y s)) = [].
Proof.
  unfold mouse_callback.
  destruct (event =? Cv2.EVENT_LBUTTONDOWN);
    [| destruct (event =? Cv2.EVENT_RBUTTONDOWN)]; reflexivity.
Qed.

Lemma written_paths_show (s : session) : written_paths [show s] = [].
Proof. unfold show. now destruct (preview_mask s). Qed.

Lemma single_key_written (predict : predictor) (img : image)
    (path dest : string) (key : Z) (s : session) :
  match SingleSegment.on_key predict img path dest key s with
  | (t, Continue _) => written_paths t = []
  | (t, _) =>
      written_paths t = [] \/
      (dest <> EmptyString /\ written_paths t = [SingleSegment.save_path dest path])
  end.
Proof.
  unfold SingleSegment.on_key.
  destruct (key =? KEY_SPACE).
  { destruct (click_points s) as [| p ps]; [reflexivity |].
    destruct (predict img (p :: ps) (click_labels s)) as [| [| m ms]];
      cbn; auto. }
  destruct (key =? KEY_R); [reflexivity |].
  destruct (key =? KEY_ENTER).
  { destruct (click_points s) as [| p ps]; [reflexivity |].
    destruct (predict img (p :: ps) (click_labels s)) as [| [| m ms]];
      cbn; auto.
    destruct (String.eqb_spec dest EmptyString); cbn; auto. }
  destruct (key =? KEY_Q); cbn; auto.
Qed.

Lemma single_loop_written (predict : predictor) (img : image)
    (path dest : string) (evs : list ui_event) :
  forall s,
    let t := fst (key_loop (SingleSegment.on_key predict img path dest) evs s) in
    written_paths t = [] \/
    (dest <> EmptyString /\ written_paths t = [SingleSegment.save_path dest path]).
Proof.
  induction evs as [| ev evs IH]; intros s; [left; reflexivity |].
  destruct ev as [event x y | code]; cbn [key_loop].
  - pose proof (written_paths_mouse event x y s) as Hm.
    destruct (mouse_callback event x y s) as [t0 s0]. cbn [fst] in Hm.
    specialize (IH s0).
    destruct (key_loop _ evs s0) as [t1 r1]. cbn [fst] in *.
    rewrite written_paths_app, Hm. exact IH.
  - pose proof (single_key_written predict img path dest (Z.land code 255) s) as Hk.
    destruct (SingleSegment.on_key predict img path dest (Z.land code 255) s)
      as [t0 [s0 | [] | | e]]; cbn [fst]; try exact Hk.
    specialize (IH s0).
    destruct (key_loop _ evs s0) as [t1 r1]. cbn [fst] in *.
    rewrite written_paths_app, Hk.
    change (show s0 :: t1) with ([show s0] ++ t1).
    rewrite written_paths_app, written_paths_show. exact IH.
Qed.

(** X11: a run of the single-image tool writes at most one file, and only at
    the path built from the chosen folder and the stem of the input file;
    with the save dialog cancelled it writes none. *)
Theorem single_tool_writes_at_most_once (w : SingleSegment.world) :
  let t := fst (SingleSegment.process_single_image w) in
  written_paths t = [] \/
  (SingleSegment.select_save_directory w <> EmptyString /\
   written_paths t
   = [SingleSegment.save_path (SingleSegment.select_save_directory w)
        (SingleSegment.select_input_file w)]).
Proof.
  cbv zeta. unfold SingleSegment.process_single_image.
  destruct (String.eqb (SingleSegment.select_input_file w) EmptyString);
    [left; reflexivity |].
  destruct (SingleSegment.load_sam w) as [predict |]; [| left; reflexivity].
  destruct (SingleSegment.imread w (SingleSegment.select_input_file w))
    as [img |]; [| left; reflexivity].
  pose proof (single_loop_written predict img (SingleSegment.select_input_file w)
                (SingleSegment.select_save_directory w)
                (SingleSegment.gui_events w) (fresh_session img)) as H.
  cbv zeta in H.
  destruct (key_loop _ (SingleSegment.gui_events w) (fresh_session img)) as [t r].
  cbn [fst] in H.
  assert (E : forall u, written_paths (SetImage img :: show (fresh_session img) :: t ++ u)
                        = written_paths t ++ written_paths u).
  { intros u. change (SetImage img :: show (fresh_session img) :: t ++ u)
      with ([SetImage img; show (fresh_session img)] ++ t ++ u).
    rewrite !written_paths_app. reflexivity. }
  destruct r as [s | [] | | e]; cbn [fst].
  - rewrite <- (app_nil_r t), E, app_nil_r. exact H.
  - rewrite E. cbn. rewrite app_nil_r. exact H.
  - rewrite <- (app_nil_r t), E, app_nil_r. exact H.
  - rewrite <- (app_nil_r t), E, app_nil_r. exact H.
Qed.

(** *** Events the loop ignores *)

Lemma mouse_callback_ignored (event x y : Z) (s : session) :
  is_click event = false -> mouse_callback event x y s = ([], s).
Proof.
  unfold is_click, mouse_callback. intros H.
  apply orb_false_iff in H. destruct H as [-> ->]. reflexivity.
Qed.

(** X12: mouse events other than a left or right button press (moves,
    releases, the middle button, ...) leave no mark: dropping them from the
    events changes neither what a session does nor how it ends, whatever
    the key dispatch. *)
Theorem other_mouse_events_are_ignored
    {R : Type} (on_key : Z -> session -> trace * control R)
    (evs : list ui_event) (s : session) :
  key_loop on_key (filter is_stored evs) s = key_loop on_key evs s.
Proof.
  revert s. induction evs as [| ev evs IH]; intros s; [reflexivity |].
  destruct ev as [event x y | code]; cbn [filter is_stored].
  - destruct (is_click event) eqn:E.
    + cbn [key_loop]. destruct (mouse_callback event x y s) as [t0 s0].
      rewrite IH. reflexivity.
    + cbn [key_loop]. rewrite (mouse_callback_ignored event x y s E), IH.
      destruct (key_loop on_key evs s). reflexivity.
  - cbn [key_loop]. destruct (on_key (Z.land code 255) s) as [t0 [s0 | r | | e]];
      try reflexivity.
    rewrite IH. reflexivity.
Qed.

(** *** File names and folders *)

(** *** The file filter and the output names *)

Lemma filter_map_comm {A B : Type} (f : B -> bool) (g : A -> B) (l : list A) :
  filter f (map g l) = map g (filter (fun a => f (g a)) l).
Proof.
  induction l as [| a l IH]; cbn; [reflexivity |].
  destruct (f (g a)); cbn; now rewrite IH.
Qed.

(** X13: the batch filter does not look at letter case: filtering the
    lower-cased names gives the lower-cased names of the filtered files. *)
Theorem image_files_ignores_case (listing : list string) :
  BatchSegment.image_files (map Py.lower listing)
  = map Py.lower (BatchSegment.image_files listing).
Proof.
  unfold BatchSegment.image_files. rewrite filter_map_comm.
  f_equal. apply filter_ext. intros name. now rewrite PyFacts.lower_idem.
Qed.

(** X14: the mask of a file is named after the stem of the file alone. Two
    files of the input folder that differ in their extension only get the
    same output path, [<OUTPUT_FOLDER>/<root>_mask.png], so the mask written
    later replaces the one written before. *)
Theorem same_stem_same_mask_path (OUTPUT_FOLDER root ext1 ext2 : string) :
  plain_name root ext1 -> plain_name root ext2 ->
  BatchSegment.output_path OUTPUT_FOLDER (root ++ String "."%char ext1)
  = Py.join OUTPUT_FOLDER (root ++ "_mask.png") /\
  BatchSegment.output_path OUTPUT_FOLDER (root ++ String "."%char ext1)
  = BatchSegment.output_path OUTPUT_FOLDER (root ++ String "."%char ext2).
Proof.
  intros (A1 & A2 & A3 & A4) (B1 & B2 & B3 & B4).
  unfold BatchSegment.output_path.
  rewrite !PyPathFacts.splitext_root_app by assumption. split; reflexivity.
Qed.

Lemma same_stem_same_mask_path_witness :
  BatchSegment.output_path "out" ("wing" ++ String "."%char "png")
  = Py.join "out" ("wing" ++ "_mask.png") /\
  BatchSegment.output_path "out" ("wing" ++ String "."%char "png")
  = BatchSegment.output_path "out" ("wing" ++ String "."%char "jpg").
Proof.
  apply (same_stem_same_mask_path "out" "wing" "png" "jpg");
    repeat split; reflexivity.
Defined.

(** The reference image [d/n] and a chosen output folder: the setup dialog
    returns [d] as the input folder. *)
Lemma get_setup_via_gui_chosen (w : BatchSegment.world) (d n : string) :
  dir_and_name d n ->
  BatchSegment.askopenfilename w = (d ++ String Py.sep n)%string ->
  BatchSegment.askdirectory w <> EmptyString ->
  BatchSegment.get_setup_via_gui w
  = ([], Some (d, BatchSegment.askdirectory w, BatchSegment.askopenfilename w)).
Proof.
  intros [(c & Hl & Hc) Hn] Hpath Hout.
  unfold BatchSegment.get_setup_via_gui. rewrite Hpath.
  rewrite (PyPathFacts.dirname_join d n c Hl Hc Hn).
  destruct (String.eqb_spec (d ++ String Py.sep n) EmptyString) as [E | _].
  { destruct d; discriminate. }
  destruct (String.eqb_spec (BatchSegment.askdirectory w) EmptyString) as [E | _];
    [contradiction | reflexivity].
Qed.

(** X15: the input folder is the folder of the reference image, and the batch
    loop reads the reference image under the very path the dialog gave. For
    a chosen path [d/n] and a chosen output folder, [get_setup_via_gui]
    returns [d] as the input folder, and joining it with the file name [n]
    gives the chosen path back. *)
Theorem input_folder_of_template (w : BatchSegment.world) (d n : string) :
  dir_and_name d n ->
  BatchSegment.askopenfilename w = (d ++ String Py.sep n)%string ->
  BatchSegment.askdirectory w <> EmptyString ->
  BatchSegment.get_setup_via_gui w
  = ([], Some (d, BatchSegment.askdirectory w, BatchSegment.askopenfilename w)) /\
  Py.join d n = BatchSegment.askopenfilename w /\
  Py.basename (BatchSegment.askopenfilename w) = n.
Proof.
  intros Hdn Hpath Hout.
  split; [exact (get_setup_via_gui_chosen w d n Hdn Hpath Hout) |].
  destruct Hdn as [(c & Hl & Hc) Hn]. rewrite Hpath.
  split; [exact (PyPathFacts.join_dir_base d n c Hl Hc Hn)
         | exact (PyPathFacts.basename_join d n Hn)].
Qed.

Lemma input_folder_of_template_witness :
  BatchSegment.get_setup_via_gui ExRuns.png_world
  = ([], Some ("in"%string, BatchSegment.askdirectory ExRuns.png_world,
               BatchSegment.askopenfilename ExRuns.png_world)) /\
  Py.join "in" "a.png" = BatchSegment.askopenfilename ExRuns.png_world /\
  Py.basename (BatchSegment.askopenfilename ExRuns.png_world) = "a.png"%string.
Proof.
  apply (input_folder_of_template ExRuns.png_world "in" "a.png").
  - split; [exists "n"%char; split; reflexivity | reflexivity].
  - reflexivity.
  - discriminate.
Defined.

(** *** The reference image in the batch *)

(** *** The reference image in the batch *)

Lemma batch_key_no_batch_message (predict : predictor) (img : image)
    (key : Z) (s : session) :
  Forall (fun e => is_batch_message e = false)
    (fst (BatchSegment.on_key predict img key s)).
Proof.
  unfold BatchSegment.on_key.
  destruct (key =? KEY_SPACE).
  { destruct (Z.of_nat (List.length (click_points s)) =? 0); [repeat constructor |].
    destruct (predict img (click_points s) (click_labels s)) as [| [| m ms]];
      repeat constructor. }
  destruct (key =? KEY_R); [repeat constructor |].
  destruct (key =? KEY_ENTER).
  { destruct (Z.of_nat (List.length (click_points s)) =? 0); repeat constructor. }
  destruct (key =? KEY_Q); repeat constructor.
Qed.

Lemma mouse_no_batch_message (event x y : Z) (s : session) :
  Forall (fun e => is_batch_message e = false) (fst (mouse_callback event x y s)).
Proof.
  unfold mouse_callback.
  destruct (event =? Cv2.EVENT_LBUTTONDOWN);
    [| destruct (event =? Cv2.EVENT_RBUTTONDOWN)]; repeat constructor.
Qed.

Lemma show_no_batch_message (s : session) : is_batch_message (show s) = false.
Proof. unfold show. now destruct (preview_mask s). Qed.

Lemma interactive_setup_no_batch_message
    (imread : string -> option image) (predict : predictor)
    (path : string) (evs : list ui_event) :
  Forall (fun e => is_batch_message e = false)
    (fst (BatchSegment.interactive_setup imread predict path evs)).
Proof.
  unfold BatchSegment.interactive_setup.
  destruct (imread path) as [img |]; [| constructor].
  pose proof (key_loop_Forall (BatchSegment.on_key predict img) (fun _ => True)
                ltac:(auto) ltac:(auto) (fun e => is_batch_message e = false)
                (fun e x y s _ => mouse_no_batch_message e x y s)
                (fun k s _ => batch_key_no_batch_message predict img k s)
                (fun s _ => show_no_batch_message s) evs (fresh_session img) I) as H.
  destruct (key_loop (BatchSegment.on_key predict img) evs (fresh_session img))
    as [t r]. cbn [fst] in *.
  constructor; [reflexivity |]. constructor; [apply show_no_batch_message | exact H].
Qed.

Lemma started_no_batch_message (t : trace) :
  Forall (fun e => is_batch_message e = false) t -> started t = [].
Proof.
  induction 1 as [| e t He _ IH]; [reflexivity |].
  destruct e as [[] | | | | |]; cbn in *; try discriminate; exact IH.
Qed.

Lemma not_In_no_batch_message (t : trace) (f : string) :
  Forall (fun e => is_batch_message e = false) t ->
  ~ In (Print (MsgCouldNotLoad f)) t.
Proof.
  intros H Hin. rewrite Forall_forall in H. specialize (H _ Hin). discriminate.
Qed.

Lemma batch_loop_could_not_load
    (imread : string -> option image) (predict : predictor)
    (INPUT_FOLDER OUTPUT_FOLDER : string)
    (relative_points : list (Float64.float64 * Float64.float64))
    (prompt_labels : list Z) (f : string) (files : list string) :
  In (Print (MsgCouldNotLoad f))
    (fst (BatchSegment.batch_loop imread predict INPUT_FOLDER OUTPUT_FOLDER
            relative_points prompt_labels files)) ->
  imread (Py.join INPUT_FOLDER f) = None.
Proof.
  induction files as [| g files IH]; [intros [] |].
  cbn [BatchSegment.batch_loop].
  destruct (imread (Py.join INPUT_FOLDER g)) as [img |] eqn:Eg.
  - destruct (predict img _ prompt_labels) as [| [| m ms]]; cbn [fst In];
      intros H; repeat (destruct H as [H | H]; [discriminate |]);
      try contradiction; apply IH; exact H.
  - cbn [fst In]. intros [H | [H | H]]; [discriminate | | apply IH; exact H].
    injection H as <-. exact Eg.
Qed.

(** What a run of [process_images] that reaches the end of the batch loop
    is made of. *)
Lemma completed_run_inv (w : BatchSegment.world) :
  snd (BatchSegment.process_images w) = BatchSegment.Completed ->
  exists predict inp out tpl t0 t1 rel lbls t2,
    BatchSegment.get_setup_via_gui w = (t0, Some (inp, out, tpl)) /\
    BatchSegment.load_sam w = Some predict /\
    BatchSegment.interactive_setup (BatchSegment.imread w) predict tpl
      (BatchSegment.gui_events w) = (t1, Returned (rel, lbls)) /\
    BatchSegment.batch_loop (BatchSegment.imread w) predict inp out rel lbls
      (BatchSegment.image_files (BatchSegment.listdir w inp)) = (t2, None) /\
    fst (BatchSegment.process_images w)
    = t0 ++ t1 ++ Print MsgStartBatch :: t2 ++ [Print MsgBatchComplete].
Proof.
  unfold BatchSegment.process_images.
  destruct (BatchSegment.get_setup_via_gui w) as [t0 [[[inp out] tpl] |]];
    [| discriminate].
  destruct (BatchSegment.load_sam w) as [predict |]; [| discriminate].
  destruct (BatchSegment.image_files (BatchSegment.listdir w inp)) as [| f fs] eqn:Ef;
    [discriminate |].
  destruct (BatchSegment.interactive_setup (BatchSegment.imread w) predict tpl
              (BatchSegment.gui_events w)) as [t1 [s | [rel lbls] | | e]] eqn:Es;
    try discriminate.
  destruct (BatchSegment.batch_loop _ _ _ _ _ _ _) as [t2 [e |]] eqn:Eb;
    [discriminate |].
  intros _. exists predict, inp, out, tpl, t0, t1, rel, lbls, t2.
  repeat split; try reflexivity; [exact Es | rewrite Ef; exact Eb].
Qed.

(** A batch loop that ends without an exception has started on every file. *)
Lemma batch_loop_started_all
    (imread : string -> option image) (predict : predictor)
    (INPUT_FOLDER OUTPUT_FOLDER : string)
    (relative_points : list (Float64.float64 * Float64.float64))
    (prompt_labels : list Z) (files : list string) :
  snd (BatchSegment.batch_loop imread predict INPUT_FOLDER OUTPUT_FOLDER
         relative_points prompt_labels files) = None ->
  started (fst (BatchSegment.batch_loop imread predict INPUT_FOLDER OUTPUT_FOLDER
                  relative_points prompt_labels files)) = files.
Proof.
  induction files as [| f files IH]; [reflexivity |].
  cbn [BatchSegment.batch_loop].
  destruct (imread (Py.join INPUT_FOLDER f)) as [img |].
  - destruct (predict img _ prompt_labels) as [| [| m ms]]; cbn [fst snd].
    + discriminate.
    + intros H. cbn. f_equal. exact (IH H).
    + intros H. cbn. f_equal. exact (IH H).
  - cbn [fst snd]. intros H. cbn. f_equal. exact (IH H).
Qed.

(** X16: when the reference image passes the batch filter it is part of the
    batch. For a reference image [d/n] that the listing of [d] holds and
    whose name has one of the five tested suffixes, a run that reaches the
    end of the batch loop has started on [n] and has not reported it as
    unreadable. *)
Theorem reference_image_is_processed (w : BatchSegment.world) (d n : string) :
  dir_and_name d n ->
  BatchSegment.askopenfilename w = (d ++ String Py.sep n)%string ->
  In n (BatchSegment.listdir w d) ->
  Py.endswith (Py.lower n) BatchSegment.batch_suffixes = true ->
  snd (BatchSegment.process_images w) = BatchSegment.Completed ->
  In n (started (fst (BatchSegment.process_images w))) /\
  ~ In (Print (MsgCouldNotLoad n)) (fst (BatchSegment.process_images w)).
Proof.
  intros Hdn Hpath Hin Hsuf Hdone.
  destruct (completed_run_inv w Hdone)
    as (predict & inp & out & tpl & t0 & t1 & rel & lbls & t2
        & Hsetup & Hsam & Hses & Hloop & Htrace).
  assert (Hout : BatchSegment.askdirectory w <> EmptyString).
  { intros E. unfold BatchSegment.get_setup_via_gui in Hsetup.
    rewrite E in Hsetup. cbn in Hsetup.
    destruct (String.eqb (BatchSegment.askopenfilename w) EmptyString); discriminate. }
  pose proof (get_setup_via_gui_chosen w d n Hdn Hpath Hout) as Hs.
  assert (Hjoin : Py.join d n = BatchSegment.askopenfilename w).
  { destruct Hdn as [(c & Hl & Hc) Hn]. rewrite Hpath.
    exact (PyPathFacts.join_dir_base d n c Hl Hc Hn). }
  rewrite Hs in Hsetup. injection Hsetup as <- <- <- <-.
  pose proof (interactive_setup_no_batch_message (BatchSegment.imread w) predict
                (BatchSegment.askopenfilename w) (BatchSegment.gui_events w)) as Hnb.
  rewrite Hses in Hnb. cbn [fst] in Hnb.
  rewrite Htrace. cbn [app]. split.
  - rewrite started_app. change (Print MsgStartBatch :: t2 ++ [Print MsgBatchComplete])
      with ([Print MsgStartBatch] ++ t2 ++ [Print MsgBatchComplete]).
    rewrite !started_app, (started_no_batch_message t1 Hnb). cbn [app started flat_map].
    rewrite app_nil_r.
    pose proof (batch_loop_started_all (BatchSegment.imread w) predict d
                  (BatchSegment.askdirectory w) rel lbls
                  (BatchSegment.image_files (BatchSegment.listdir w d))) as Hfiles.
    rewrite Hloop in Hfiles. cbn [fst snd] in Hfiles. rewrite (Hfiles eq_refl).
    apply image_files_In. split; assumption.
  - intros H. apply in_app_or in H. destruct H as [H | H].
    + exact (not_In_no_batch_message t1 n Hnb H).
    + destruct H as [H | H]; [discriminate |].
      apply in_app_or in H. destruct H as [H | [H | []]]; [| discriminate].
      assert (Hnone : BatchSegment.imread w (Py.join d n) = None).
      { eapply batch_loop_could_not_load. rewrite Hloop. exact H. }
      rewrite Hjoin in Hnone.
      unfold BatchSegment.interactive_setup in Hses. rewrite Hnone in Hses.
      discriminate.
Qed.

Lemma reference_image_is_processed_witness :
  In "a.png"%string (started (fst (BatchSegment.process_images ExRuns.png_world))) /\
  ~ In (Print (MsgCouldNotLoad "a.png"))
      (fst (BatchSegment.process_images ExRuns.png_world)).
Proof.
  apply (reference_image_is_processed ExRuns.png_world "in" "a.png").
  - split; [exists "n"%char; split; reflexivity | reflexivity].
  - reflexivity.
  - left. reflexivity.
  - reflexivity.
  - reflexivity.
Defined.

(** *** Rescaling a coordinate in float64 *)

Module Float64Rescale.
Import Float64 Float64Facts.

Lemma mul_lt_cancel_r (a b c : Z) : 0 < c -> a * c < b * c -> a < b.
Proof. intros Hc H. apply (Z.mul_lt_mono_pos_r c); assumption. Qed.

Lemma abs_sum_bound (a b y z : Z) :
  - y <= 2 * a <= y -> - z <= b <= z -> 2 * Z.abs (a + b) <= y + 2 * z.
Proof. lia. Qed.

Lemma abs2_le (d y : Z) : 2 * Z.abs d <= y -> - y <= 2 * d <= y.
Proof. lia. Qed.

(** Linear arithmetic on the exponents alone. *)
Ltac lin :=
  repeat match goal with H : context [Z.mul _ _] |- _ => clear H end; lia.

(** One coordinate of a click, divided by the dimension [W] of the
    reference image and multiplied by the dimension [V] of a target image,
    then cut to an integer. *)
Lemma rescale_axis (x W V : Z) :
  0 <= x < W -> W < 2 ^ 32 -> 0 < V < 2 ^ 32 ->
  0 <= astype_int (mul (div (of_int x) (of_int W)) (of_int V)) < V /\
  x * V / W - 1 <= astype_int (mul (div (of_int x) (of_int W)) (of_int V))
    <= x * V / W + 1.
Proof.
  intros [Hx0 HxW] HW [HV0 HV].
  assert (P53 : 2 ^ 53 = 2 * 2 ^ 52) by reflexivity.
  assert (P32 : 2 ^ 32 < 2 ^ 52) by reflexivity.
  destruct (of_int_pos W ltac:(lia)) as (m2 & EW & Hm2 & Hd2).
  destruct (of_int_pos V ltac:(lia)) as (m3 & EV & Hm3 & Hd3).
  rewrite EW, EV.
  destruct (Z.eq_dec x 0) as [-> | Hxnz].
  { rewrite of_int_0. cbn [Z.mul]. rewrite Z.div_0_l by lia. cbn. lia. }
  destruct (of_int_pos x ltac:(lia)) as (m1 & Ex & Hm1 & Hd1).
  rewrite Ex.
  pose proof (Zdigits2_pos x ltac:(lia)) as Hdx0.
  pose proof (Zdigits2_pos V ltac:(lia)) as HdV0.
  pose proof (Zdigits2_le_of_lt W 32 ltac:(lia) ltac:(lia) ltac:(lia)) as HdW.
  pose proof (Zdigits2_le_of_lt V 32 ltac:(lia) ltac:(lia) ltac:(lia)) as HdV.
  destruct (Zdigits2_bounds W ltac:(lia)) as [_ HWhi].
  pose proof (Zdigits2_le_of_lt x (Zdigits2 W) ltac:(lia)
                (Zdigits2_nonneg W) ltac:(lia)) as HdxW.
  clear HWhi.
  set (dx := Zdigits2 x) in *. set (dW := Zdigits2 W) in *.
  set (dV := Zdigits2 V) in *.
  destruct (Zdigits2_bounds (Zpos m1) ltac:(lia)) as [L1 U1].
  destruct (Zdigits2_bounds (Zpos m2) ltac:(lia)) as [L2 U2].
  destruct (Zdigits2_bounds (Zpos m3) ltac:(lia)) as [L3 U3].
  rewrite Hd1 in L1, U1. rewrite Hd2 in L2, U2. rewrite Hd3 in L3, U3.
  change (2 ^ (53 - 1)) with (2 ^ 52) in *.
  (* the quotient *)
  destruct (div_normal m1 m2 (dx - 53) (dW - 53) Hd1 Hd2 ltac:(lia))
    as (mq & eq & Eq & Heq & Hq).
  rewrite Eq.
  set (e0 := dx - 53 - (dW - 53) - 53) in *.
  set (k := eq - e0) in *.
  assert (Hk : 0 <= k <= 2) by lia.
  set (B := 2 ^ k) in *.
  assert (HB : 0 < B) by (apply Z.pow_pos_nonneg; lia).
  set (X := Zpos m1 * 2 ^ 53) in *.
  set (L := 2 ^ (106 - dx)).
  set (G := 2 ^ (53 + dW - dx)).
  assert (HL : 2 ^ 54 <= L) by (apply Z.pow_le_mono_r; lia).
  assert (HG0 : 0 < G) by (apply Z.pow_pos_nonneg; lia).
  assert (HGL : G * 2 ^ 53 = L * 2 ^ dW).
  { unfold G, L. rewrite <- !pow2_split by lia. f_equal. lia. }
  assert (HdW32 : 2 ^ dW <= 2 ^ 32) by (apply Z.pow_le_mono_r; lia).
  assert (HX : X = x * L).
  { unfold X, L. rewrite Hm1. fold dx. rewrite <- Z.mul_assoc, <- pow2_split by lia.
    f_equal. f_equal. lia. }
  assert (HWL : Zpos m2 * G = W * L).
  { unfold G, L. rewrite Hm2. fold dW. rewrite <- Z.mul_assoc, <- pow2_split by lia.
    f_equal. f_equal. lia. }
  assert (HXW : X + L <= Zpos m2 * G).
  { rewrite HX, HWL. replace (x * L + L) with ((x + 1) * L) by ring.
    apply Z.mul_le_mono_nonneg_r; lia. }
  set (Q := Zpos mq * B) in *.
  assert (HQG : Q < G).
  { apply (mul_lt_cancel_r _ _ (Zpos m2)); [lia |].
    apply Z.abs_le in Hq. rewrite (Z.mul_comm G). lia. }
  assert (HQ0 : 0 < Q) by (unfold Q; apply Z.mul_pos_pos; lia).
  (* the product *)
  set (P := Zpos mq * Zpos m3).
  set (E := eq + (dV - 53)).
  assert (HP_lo : 2 ^ 52 <= P).
  { unfold P. replace (2 ^ 52) with (1 * 2 ^ 52) by ring.
    apply Z.mul_le_mono_nonneg; lia. }
  assert (HPB : P * B = Q * Zpos m3) by (unfold P, Q; ring).
  assert (HP_hi : P < 2 ^ (106 + dW - dx - k)).
  { apply (mul_lt_cancel_r _ _ B); [lia |].
    unfold B at 2. rewrite <- pow2_split by lia.
    replace (106 + dW - dx - k + k) with (53 + dW - dx + 53) by lia.
    rewrite pow2_split by lia. fold G. rewrite HPB.
    apply Z.mul_lt_mono_nonneg; lia. }
  pose proof (Zdigits2_ge_of_le P 52 HP_lo ltac:(lia)) as HdP_lo.
  pose proof (Zdigits2_le_of_lt P (106 + dW - dx - k) ltac:(lia) ltac:(lia) HP_hi)
    as HdP_hi.
  pose proof (fexp_eq (Zdigits2 P + E)) as F.
  destruct (mul_spec mq m3 eq (dV - 53)) as (M & HM0 & Herr & Hres).
  { fold P. lia. }
  { fold P E. lia. }
  fold P E in Herr, Hres.
  set (e' := fexp prec emax (Zdigits2 P + E)) in *.
  assert (He' : E <= e' <= dV - 53) by lin.
  set (A := 2 ^ (e' - E)) in *.
  assert (HA : 0 < A) by (apply Z.pow_pos_nonneg; lin).
  set (c := 106 + dW - dx - dV).
  assert (Hc : 74 <= c) by (unfold c; lin).
  assert (HEc : E + c = k) by (unfold E, c, k, e0; lin).
  set (U := 2 ^ c).
  assert (HU : 2 ^ 74 <= U) by (apply Z.pow_le_mono_r; lin).
  assert (HAB : A * B <= G).
  { unfold A, B, G. rewrite <- pow2_split by lin. apply Z.pow_le_mono_r; lin. }
  assert (HGU : 2 * G <= U).
  { unfold G, U. change 2 with (2 ^ 1) at 1. rewrite <- pow2_split by lin.
    apply Z.pow_le_mono_r; lin. }
  assert (HVU : V * U = Zpos m3 * G).
  { unfold G, U. rewrite Hm3. fold dV. rewrite <- Z.mul_assoc, <- pow2_split by lin.
    f_equal. f_equal. lin. }
  set (J := 2 ^ (53 - dW)).
  assert (HJ : 0 < J) by (apply Z.pow_pos_nonneg; lin).
  assert (Hm2J : Zpos m2 = W * J) by (rewrite Hm2; reflexivity).
  assert (HLJ : L * Zpos m3 = V * (J * U)).
  { unfold L, J, U. rewrite Hm3. fold dV.
    rewrite <- pow2_split by lin.
    replace (2 ^ (106 - dx) * (V * 2 ^ (53 - dV)))
      with (V * (2 ^ (106 - dx) * 2 ^ (53 - dV))) by ring.
    rewrite <- pow2_split by lin. f_equal. f_equal. lin. }
  (* the rounded product against the exact one *)
  set (R := M * A * B).
  assert (Hclose : 2 * Z.abs (R * Zpos m2 - X * Zpos m3)
                   <= A * B * Zpos m2 + 2 * (Zpos m2 * Zpos m3)).
  { apply Z.abs_le in Hq. fold Q in Hq.
    pose proof (abs2_le _ _ Herr) as Ht.
    set (T := M * A - P) in *.
    assert (H1 : - (A * B * Zpos m2) <= 2 * T * (B * Zpos m2) <= A * B * Zpos m2).
    { replace (- (A * B * Zpos m2)) with (- A * (B * Zpos m2)) by ring.
      replace (A * B * Zpos m2) with (A * (B * Zpos m2)) by ring.
      assert (0 <= B * Zpos m2) by (apply Z.mul_nonneg_nonneg; lia).
      split; apply Z.mul_le_mono_nonneg_r; lia. }
    assert (H2 : - (Zpos m2 * Zpos m3) <= (Q * Zpos m2 - X) * Zpos m3
                 <= Zpos m2 * Zpos m3).
    { replace (- (Zpos m2 * Zpos m3)) with (- Zpos m2 * Zpos m3) by ring.
      split; apply Z.mul_le_mono_nonneg_r; lia. }
    replace (R * Zpos m2 - X * Zpos m3)
      with (T * (B * Zpos m2) + (Q * Zpos m2 - X) * Zpos m3)
      by (unfold R, T, P, Q; ring).
    apply abs_sum_bound; [| exact H2].
    replace (2 * (T * (B * Zpos m2))) with (2 * T * (B * Zpos m2)) by ring.
    exact H1. }
  assert (HR0 : 0 <= R).
  { unfold R. repeat apply Z.mul_nonneg_nonneg; clear - HM0 HA HB; lia. }
  assert (H2 : A * B * Zpos m2 <= G * Zpos m2)
    by (apply Z.mul_le_mono_nonneg_r; [apply Pos2Z.is_nonneg | exact HAB]).
  apply abs2_le in Hclose.
  (* the result stays below the target dimension *)
  assert (Hin : R < V * U).
  { apply (mul_lt_cancel_r _ _ (Zpos m2)); [apply Pos2Z.is_pos |].
    rewrite HVU.
    assert (H1 : X * Zpos m3 + L * Zpos m3 <= Zpos m2 * G * Zpos m3).
    { rewrite <- Z.mul_add_distr_r.
      apply Z.mul_le_mono_nonneg_r; [apply Pos2Z.is_nonneg | exact HXW]. }
    assert (H3 : G * Zpos m2 < L * Zpos m3).
    { assert (Ha : G * Zpos m2 < G * 2 ^ 53)
        by (apply Z.mul_lt_mono_pos_l; [exact HG0 | exact U2]).
      assert (Hb : L * 2 ^ dW <= L * 2 ^ 32)
        by (apply Z.mul_le_mono_nonneg_l; [clear - HL; lia | exact HdW32]).
      assert (Hc' : L * 2 ^ 32 < L * Zpos m3)
        by (apply Z.mul_lt_mono_pos_l; [clear - HL; lia | clear - L3 P32; lia]).
      clear - HGL Ha Hb Hc'. lia. }
    assert (H4 : 2 * Zpos m2 * Zpos m3 < L * Zpos m3)
      by (apply Z.mul_lt_mono_pos_r; [apply Pos2Z.is_pos | clear - HL U2 P53; lia]).
    clear - H1 H2 H3 H4 Hclose. lia. }
  (* the result against the exact quotient *)
  assert (HD : - (W * U) < R * W - x * V * U < W * U).
  { assert (HeqJ : R * Zpos m2 - X * Zpos m3 = (R * W - x * V * U) * J).
    { rewrite HX, Hm2J. replace (x * L * Zpos m3) with (x * (L * Zpos m3)) by ring.
      rewrite HLJ. ring. }
    rewrite HeqJ in Hclose.
    assert (H5 : 2 * G * Zpos m2 <= U * Zpos m2)
      by (apply Z.mul_le_mono_nonneg_r; [apply Pos2Z.is_nonneg | exact HGU]).
    assert (H6 : 2 * Zpos m3 * Zpos m2 < U * Zpos m2)
      by (apply Z.mul_lt_mono_pos_r; [apply Pos2Z.is_pos | clear - U3 HU; lia]).
    assert (H7 : U * Zpos m2 = W * U * J) by (rewrite Hm2J; ring).
    split; apply (mul_lt_cancel_r _ _ J); try exact HJ;
      clear - H2 H5 H6 H7 Hclose; lia. }
  assert (HU0 : 0 < U) by (clear - HU; lia).
  assert (HW0 : 0 < W) by (clear - Hx0 HxW; lia).
  pose proof (Z.mul_div_le (x * V) W HW0) as Hs1.
  pose proof (Z.mul_succ_div_gt (x * V) W HW0) as Hs2.
  set (s := x * V / W) in *.
  assert (Hs1U : W * s * U <= x * V * U)
    by (apply Z.mul_le_mono_nonneg_r; [clear - HU0; lia | exact Hs1]).
  assert (Hs2U : x * V * U < W * Z.succ s * U)
    by (apply Z.mul_lt_mono_pos_r; [exact HU0 | exact Hs2]).
  assert (Hhi : R / U < s + 2).
  { apply Z.div_lt_upper_bound; [exact HU0 |].
    apply (mul_lt_cancel_r _ _ W); [exact HW0 |].
    clear - HD Hs2U. lia. }
  assert (Hlo : s - 1 <= R / U).
  { apply Z.div_le_lower_bound; [exact HU0 |].
    apply Z.lt_le_incl. apply (mul_lt_cancel_r _ _ W); [exact HW0 |].
    clear - HD Hs1U. lia. }
  assert (Hlt : R / U < V).
  { apply Z.div_lt_upper_bound; [exact HU0 |]. rewrite Z.mul_comm. exact Hin. }
  assert (Hge : 0 <= R / U) by (apply Z.div_pos; [exact HR0 | exact HU0]).
  destruct (mul (S754_finite false mq eq) (S754_finite false m3 (dV - 53)))
    as [sg | sg | | sg mr er] eqn:Er; try contradiction.
  - exfalso. destruct Hres as [_ ->]. rewrite Z.mul_0_l, Z.sub_0_l, Z.abs_opp in Herr.
    destruct (Zdigits2_bounds P ltac:(clear - HP_lo; lia)) as [Plo _].
    assert (He'eq : e' - E = Zdigits2 P - 53) by lin.
    assert (HAP : A < 2 ^ (Zdigits2 P - 1)).
    { unfold A. rewrite He'eq. apply Z.pow_lt_mono_r; lin. }
    clear - Herr HAP Plo. lia.
  - destruct Hres as (-> & Her & Hval).
    assert (HRv : Zpos mr * 2 ^ (er + c) = R).
    { unfold R. rewrite <- Hval. unfold A, B.
      rewrite <- !Z.mul_assoc, <- !pow2_split by lin. f_equal. f_equal. lin. }
    assert (P63 : 2 ^ 32 < 2 ^ 63) by reflexivity.
    rewrite (astype_int_finite mr er c);
      [| lin | lin | rewrite HRv; fold U; clear - Hlt HV P63; lia].
    rewrite HRv. fold U. clear - Hhi Hlo Hlt Hge. lia.
Qed.
End Float64Rescale.

(** *** Relative coordinates of a click *)

Module Float64Relative.
Import Float64 Float64Facts Float64Rescale.

(** The quotient of two positive normal floats is a valid float. *)
Lemma div_normal_bounded (m1 m2 : positive) (e1 e2 : Z) :
  Zdigits2 (Zpos m1) = 53 -> Zdigits2 (Zpos m2) = 53 ->
  -1021 <= e1 - e2 <= 1000 ->
  exists m e,
    div (S754_finite false m1 e1) (S754_finite false m2 e2)
    = S754_finite false m e /\
    bounded prec emax m e = true.
Proof.
  intros H1 H2 He.
  unfold div, SFdiv. rewrite SFdiv_core_binary_normal by (assumption || lia).
  cbn [xorb].
  set (N := Zpos m1 * 2 ^ 53). set (e0 := e1 - e2 - 53).
  set (q := N / Zpos m2).
  destruct (Zdigits2_bounds (Zpos m1) ltac:(lia)) as [L1 U1].
  destruct (Zdigits2_bounds (Zpos m2) ltac:(lia)) as [L2 U2].
  rewrite H1 in L1, U1. rewrite H2 in L2, U2.
  change (2 ^ (53 - 1)) with (2 ^ 52) in *.
  assert (P52 : 2 ^ 53 = 2 * 2 ^ 52) by reflexivity.
  assert (P54 : 2 ^ 54 = 2 * 2 ^ 53) by reflexivity.
  assert (Hq_lo : 2 ^ 52 <= q).
  { apply Z.div_le_lower_bound; [lia |]. unfold N.
    rewrite (Z.mul_comm (Zpos m2)). apply Z.mul_le_mono_nonneg; lia. }
  assert (Hq_hi : q < 2 ^ 54).
  { apply Z.div_lt_upper_bound; [lia |]. unfold N. rewrite P54.
    replace (Zpos m2 * (2 * 2 ^ 53)) with (2 * Zpos m2 * 2 ^ 53) by ring.
    apply Z.mul_lt_mono_pos_r; lia. }
  assert (Hq0 : 0 < q) by lia.
  pose proof (Zdigits2_ge_of_le q 52 Hq_lo ltac:(lia)) as Hd_lo.
  pose proof (Zdigits2_le_of_lt q 54 ltac:(lia) ltac:(lia) Hq_hi) as Hd_hi.
  assert (Hloc : located N (Zpos m2) q (new_location (Zpos m2) (N mod Zpos m2))).
  { replace N with (q * Zpos m2 + N mod Zpos m2) at 1.
    - apply new_location_spec; [lia |]. apply Z.mod_pos_bound. lia.
    - unfold q. rewrite (Z.mul_comm (N / Zpos m2)). symmetry. apply Z.div_mod. lia. }
  pose proof (fexp_eq (Zdigits2 q + e0)) as F.
  destruct (binary_round_aux_spec N (Zpos m2) q e0 _ ltac:(lia) Hq0 Hloc)
    as (M & HM0 & Herr & Hres); try lia.
  set (e' := fexp prec emax (Zdigits2 q + e0)) in *.
  assert (Hk : e' - e0 = 0 \/ e' - e0 = 1) by lia.
  destruct (binary_round_aux prec emax false q e0 _)
    as [s | s | | s m e] eqn:E; try contradiction.
  - exfalso. destruct Hres as [_ ->].
    assert (HN : 2 ^ 52 * Zpos m2 <= N).
    { unfold N. rewrite (Z.mul_comm (2 ^ 52)), P52.
      replace (Zpos m1 * (2 * 2 ^ 52)) with (2 * Zpos m1 * 2 ^ 52) by ring.
      apply Z.mul_le_mono_nonneg_r; lia. }
    rewrite Z.mul_0_l, Z.sub_0_l, Z.abs_opp, Z.abs_eq in Herr by lia.
    assert (HD : 2 ^ (e' - e0) * Zpos m2 <= 2 * Zpos m2).
    { apply Z.mul_le_mono_nonneg_r; [lia |].
      destruct Hk as [-> | ->]; [change (2 ^ 0) with 1 | change (2 ^ 1) with 2]; lia. }
    clear - HN Herr HD L2. lia.
  - destruct Hres as (-> & _ & _ & Hb).
    exists m, e. split; [reflexivity | exact Hb].
Qed.

Lemma SFleb_below_one (m : positive) (e : Z) :
  e < -52 ->
  SFleb (S754_finite false m e) (S754_finite false 4503599627370496 (-52)) = true.
Proof.
  intros He. unfold SFleb, SFcompare.
  destruct (Z.compare_spec e (-52)) as [H | H | H]; [lia | reflexivity | lia].
Qed.

Lemma in_unit_interval_zero : in_unit_interval (S754_zero false) = true.
Proof. vm_compute. reflexivity. Qed.

(** One coordinate of a pixel divided by the dimension: a float64 value
    between 0.0 and 1.0. *)
Lemma relative_axis_in_unit_interval (x W : Z) :
  0 <= x < W -> W < 2 ^ 32 ->
  in_unit_interval (div (of_int x) (of_int W)) = true.
Proof.
  intros [Hx0 HxW] HW.
  assert (P32 : 2 ^ 32 < 2 ^ 52) by reflexivity.
  assert (P53 : 2 ^ 53 = 2 * 2 ^ 52) by reflexivity.
  destruct (of_int_pos W ltac:(lia)) as (m2 & EW & Hm2 & Hd2).
  rewrite EW.
  destruct (Z.eq_dec x 0) as [-> | Hxnz].
  { rewrite of_int_0. unfold div, SFdiv. cbn [xorb]. exact in_unit_interval_zero. }
  destruct (of_int_pos x ltac:(lia)) as (m1 & Ex & Hm1 & Hd1).
  rewrite Ex.
  pose proof (Zdigits2_pos x ltac:(lia)) as Hdx0.
  pose proof (Zdigits2_le_of_lt W 32 ltac:(lia) ltac:(lia) ltac:(lia)) as HdW.
  destruct (Zdigits2_bounds W ltac:(lia)) as [_ HWhi].
  pose proof (Zdigits2_le_of_lt x (Zdigits2 W) ltac:(lia)
                (Zdigits2_nonneg W) ltac:(lia)) as HdxW.
  clear HWhi.
  set (dx := Zdigits2 x) in *. set (dW := Zdigits2 W) in *.
  destruct (Zdigits2_bounds (Zpos m2) ltac:(lia)) as [L2 U2].
  rewrite Hd2 in L2, U2.
  destruct (div_normal m1 m2 (dx - 53) (dW - 53) Hd1 Hd2 ltac:(lia))
    as (mq & eq & Eq & Heq & Hq).
  destruct (div_normal_bounded m1 m2 (dx - 53) (dW - 53) Hd1 Hd2 ltac:(lia))
    as (mq' & eq' & Eq' & Hb).
  rewrite Eq in Eq'. injection Eq' as <- <-.
  rewrite Eq. unfold in_unit_interval. rewrite one_eq, zero_eq.
  cbn [valid_binary]. rewrite Hb.
  change (SFleb (S754_zero false) (S754_finite false mq eq)) with true.
  cbn [andb]. apply SFleb_below_one.
  (* the exponent of the quotient *)
  unfold bounded, canonical_mantissa in Hb.
  apply andb_prop in Hb. destruct Hb as [Hc _]. apply Z.eqb_eq in Hc.
  change (Zpos (digits2_pos mq)) with (Zdigits2 (Zpos mq)) in Hc.
  rewrite fexp_eq in Hc.
  destruct (Z.eq_dec eq (-1074)) as [-> | Hne]; [lia |].
  assert (Hdq : Zdigits2 (Zpos mq) = 53) by lia. clear Hc.
  destruct (Zdigits2_bounds (Zpos mq) ltac:(lia)) as [Lq _].
  rewrite Hdq in Lq. change (2 ^ (53 - 1)) with (2 ^ 52) in Lq.
  set (e0 := dx - 53 - (dW - 53) - 53) in *.
  set (k := eq - e0) in *.
  assert (Hk : 0 <= k <= 2) by lia.
  set (B := 2 ^ k) in *.
  assert (HB : 0 < B) by (apply Z.pow_pos_nonneg; lia).
  set (X := Zpos m1 * 2 ^ 53) in *.
  set (L := 2 ^ (106 - dx)).
  set (G := 2 ^ (53 + dW - dx)).
  assert (HL : 2 ^ 54 <= L) by (apply Z.pow_le_mono_r; lia).
  assert (HX : X = x * L).
  { unfold X, L. rewrite Hm1. fold dx. rewrite <- Z.mul_assoc, <- pow2_split by lia.
    f_equal. f_equal. lia. }
  assert (HWL : Zpos m2 * G = W * L).
  { unfold G, L. rewrite Hm2. fold dW. rewrite <- Z.mul_assoc, <- pow2_split by lia.
    f_equal. f_equal. lia. }
  assert (HXW : X + L <= Zpos m2 * G).
  { rewrite HX, HWL. replace (x * L + L) with ((x + 1) * L) by ring.
    apply Z.mul_le_mono_nonneg_r; lia. }
  assert (HQG : Zpos mq * B < G).
  { apply (mul_lt_cancel_r _ _ (Zpos m2)); [apply Pos2Z.is_pos |].
    apply Z.abs_le in Hq. rewrite (Z.mul_comm G).
    clear - Hq HXW HL U2 P53. lia. }
  assert (HBq : 2 ^ 52 * B <= Zpos mq * B)
    by (apply Z.mul_le_mono_nonneg_r; [clear - HB; lia | exact Lq]).
  assert (Hpow : 2 ^ (52 + k) < 2 ^ (53 + dW - dx)).
  { rewrite pow2_split by lin. fold B G. clear - HBq HQG. lia. }
  apply Z.pow_lt_mono_r_iff in Hpow; lin.
Qed.

End Float64Relative.

(** X17: the relative coordinates are fractions of the image, as the comment
    of the conversion says (0.0 to 1.0): for a click inside the reference
    image both coordinates [to_relative] computes are float64 values between
    0.0 and 1.0, neither NaN nor infinite. *)
Theorem relative_point_in_unit_interval (ref : image) (p : point) :
  valid_image ref -> inside ref p ->
  Float64.in_unit_interval
    (fst (BatchSegment.to_relative (img_w ref) (img_h ref) p)) = true /\
  Float64.in_unit_interval
    (snd (BatchSegment.to_relative (img_w ref) (img_h ref) p)) = true.
Proof.
  intros Href [Hx Hy].
  unfold valid_image, INT_MAX in Href.
  assert (P31 : 2 ^ 31 - 1 < 2 ^ 32) by reflexivity.
  unfold BatchSegment.to_relative. cbn [fst snd]. split.
  - apply Float64Relative.relative_axis_in_unit_interval; [exact Hx | lia].
  - apply Float64Relative.relative_axis_in_unit_interval; [exact Hy | lia].
Qed.

Lemma relative_point_in_unit_interval_witness :
  Float64.in_unit_interval
    (fst (BatchSegment.to_relative (img_w Ex.img49) (img_h Ex.img49) (48, 0)))
  = true /\
  Float64.in_unit_interval
    (snd (BatchSegment.to_relative (img_w Ex.img49) (img_h Ex.img49) (48, 0)))
  = true.
Proof.
  apply (relative_point_in_unit_interval Ex.img49 (48, 0)).
  - unfold valid_image, INT_MAX. cbn. lia.
  - unfold inside. cbn. lia.
Defined.

(** *** Clicks carried from the reference image to a target image *)

Lemma valid_image_below_2_32 (img : image) :
  valid_image img -> 0 < img_w img < 2 ^ 32 /\ 0 < img_h img < 2 ^ 32.
Proof.
  unfold valid_image, INT_MAX. intros [Hh Hw].
  assert (2 ^ 31 - 1 < 2 ^ 32) by reflexivity.
  lia.
Qed.

(** X18: a click inside the reference image lands inside every target image:
    the point [to_absolute] computes, for the size of the target, from the
    relative coordinates of a pixel of the reference image is a pixel of the
    target. Nothing clamps it; the float64 arithmetic keeps it inside. *)
Theorem propagated_point_is_inside (ref target : image) (p : point) :
  valid_image ref -> valid_image target -> inside ref p ->
  inside target
    (BatchSegment.to_absolute (img_w target) (img_h target)
       (BatchSegment.to_relative (img_w ref) (img_h ref) p)).
Proof.
  intros Href Htarget [Hx Hy].
  destruct (valid_image_below_2_32 ref Href) as [Hw Hh].
  destruct (valid_image_below_2_32 target Htarget) as [Hw' Hh'].
  unfold inside, BatchSegment.to_absolute, BatchSegment.to_relative. cbn [fst snd].
  split.
  - apply (Float64Rescale.rescale_axis (fst p) (img_w ref) (img_w target));
      [exact Hx | apply Hw | exact Hw'].
  - apply (Float64Rescale.rescale_axis (snd p) (img_h ref) (img_h target));
      [exact Hy | apply Hh | exact Hh'].
Qed.

Lemma propagated_point_is_inside_witness :
  inside Ex.imgC
    (BatchSegment.to_absolute (img_w Ex.imgC) (img_h Ex.imgC)
       (BatchSegment.to_relative (img_w Ex.ref) (img_h Ex.ref) (99, 99))).
Proof.
  apply (propagated_point_is_inside Ex.ref Ex.imgC (99, 99)).
  - unfold valid_image, INT_MAX. cbn. lia.
  - unfold valid_image, INT_MAX. cbn. lia.
  - unfold inside. cbn. lia.
Defined.

(** X19: the point lands where the exact rescaling puts it, within one pixel:
    each coordinate of the propagated point differs by at most 1 from the
    coordinate of the click times the target dimension divided (integer
    division) by the reference dimension. *)
Theorem propagated_point_scales (ref target : image) (p : point) :
  valid_image ref -> valid_image target -> inside ref p ->
  let p' := BatchSegment.to_absolute (img_w target) (img_h target)
              (BatchSegment.to_relative (img_w ref) (img_h ref) p) in
  Z.abs (fst p' - fst p * img_w target / img_w ref) <= 1 /\
  Z.abs (snd p' - snd p * img_h target / img_h ref) <= 1.
Proof.
  intros Href Htarget [Hx Hy].
  destruct (valid_image_below_2_32 ref Href) as [Hw Hh].
  destruct (valid_image_below_2_32 target Htarget) as [Hw' Hh'].
  unfold BatchSegment.to_absolute, BatchSegment.to_relative. cbn [fst snd].
  cbv zeta.
  pose proof (Float64Rescale.rescale_axis (fst p) (img_w ref) (img_w target)
                Hx (proj2 Hw) Hw') as [_ Rx].
  pose proof (Float64Rescale.rescale_axis (snd p) (img_h ref) (img_h target)
                Hy (proj2 Hh) Hh') as [_ Ry].
  split; apply Z.abs_le; lia.
Qed.

Lemma propagated_point_scales_witness :
  let p' := BatchSegment.to_absolute (img_w Ex.imgA) (img_h Ex.imgA)
              (BatchSegment.to_relative (img_w Ex.ref) (img_h Ex.ref) (33, 99)) in
  Z.abs (fst p' - fst (33, 99) * img_w Ex.imgA / img_w Ex.ref) <= 1 /\
  Z.abs (snd p' - snd (33, 99) * img_h Ex.imgA / img_h Ex.ref) <= 1.
Proof.
  apply (propagated_point_scales Ex.ref Ex.imgA (33, 99)).
  - unfold valid_image, INT_MAX. cbn. lia.
  - unfold valid_image, INT_MAX. cbn. lia.
  - unfold inside. cbn. lia.
Defined.

(** X20: the batch loop prompts every image inside that image. When the
    confirmed clicks lie inside the reference image and [cv2.imread] gives
    images of valid sizes, every call of [predict] in the batch loop gets
    points that lie inside the image the call is made on. *)
Theorem batch_prompts_stay_inside
    (imread : string -> option image) (predict : predictor)
    (INPUT_FOLDER OUTPUT_FOLDER : string) (ref : image)
    (clicks : list point) (prompt_labels : list Z) (files : list string) :
  valid_image ref ->
  (forall path img, imread path = Some img -> valid_image img) ->
  Forall (inside ref) clicks ->
  Forall prompts_inside
    (fst (BatchSegment.batch_loop imread predict INPUT_FOLDER OUTPUT_FOLDER
            (map (BatchSegment.to_relative (img_w ref) (img_h ref)) clicks)
            prompt_labels files)).
Proof.
  intros Href Hread Hclicks.
  destruct (valid_image_below_2_32 ref Href) as [Hw Hh].
  assert (Hpts : forall img, valid_image img ->
            Forall (inside img)
              (map (BatchSegment.to_absolute (img_w img) (img_h img))
                 (map (BatchSegment.to_relative (img_w ref) (img_h ref)) clicks))).
  { intros img Himg.
    destruct (valid_image_below_2_32 img Himg) as [Hw' Hh'].
    rewrite map_map. apply Forall_map.
    apply (Forall_impl _ (P := inside ref)); [| exact Hclicks].
    intros p [Hx Hy].
    unfold inside, BatchSegment.to_absolute, BatchSegment.to_relative.
    cbn [fst snd]. split.
    - apply (Float64Rescale.rescale_axis (fst p) (img_w ref) (img_w img));
        [exact Hx | apply Hw | exact Hw'].
    - apply (Float64Rescale.rescale_axis (snd p) (img_h ref) (img_h img));
        [exact Hy | apply Hh | exact Hh']. }
  induction files as [| f files IH]; [constructor |].
  cbn [BatchSegment.batch_loop].
  destruct (imread (Py.join INPUT_FOLDER f)) as [img |] eqn:Eimg.
  - specialize (Hpts img (Hread _ _ Eimg)).
    destruct (predict img _ prompt_labels) as [| [| m ms]]; cbn [fst];
      repeat (constructor; [first [exact I | exact Hpts] |]);
      first [exact IH | constructor].
  - cbn [fst]. repeat (constructor; [exact I |]). exact IH.
Qed.

Lemma batch_prompts_stay_inside_witness :
  Forall prompts_inside
    (fst (BatchSegment.batch_loop Ex.imread Ex.predict "in" "out"
            (map (BatchSegment.to_relative (img_w Ex.ref) (img_h Ex.ref))
               [(50, 50); (99, 0)])
            [1; 0] ["a.png"; "b.png"; "c.png"]%string)).
Proof.
  apply (batch_prompts_stay_inside Ex.imread Ex.predict "in" "out" Ex.ref
           [(50, 50); (99, 0)] [1; 0] ["a.png"; "b.png"; "c.png"]%string).
  - unfold valid_image, INT_MAX. cbn. lia.
  - intros path img. unfold Ex.imread.
    destruct (String.eqb path "in/a.png");
      [intros H; injection H as <-; unfold valid_image, INT_MAX; cbn; lia |].
    destruct (String.eqb path "in/c.png");
      [intros H; injection H as <-; unfold valid_image, INT_MAX; cbn; lia |].
    destruct (String.eqb path "in/ref.tiff");
      [intros H; injection H as <-; unfold valid_image, INT_MAX; cbn; lia |].
    discriminate.
  - repeat constructor; cbn; lia.
Defined.
